(** * DeepContext (codecontexter): ignore matching, scanning, ingestion and aggregation

    A shallow embedding of [src/app.py].  Python values are modelled as
    follows.

    - [str] is a list of Unicode code points ([N]); string comparison is
      Python's lexicographic comparison of code points.
    - [pathlib.Path] is the list of its parts below the POSIX anchor [/].
    - exceptions are an error type [exc]; [try]/[except] is a match on it.
    - the filesystem is a tree of nodes whose order of children is the
      order in which [os.scandir] enumerates them.
    - the worker pool is the order in which [as_completed] hands back
      the futures: a permutation of the submitted paths.

    The [pathspec] package is a third-party dependency of the program
    and no part of [src/]: [Module Pathspec] is a model of its
    [GitWildMatchPattern] / [PathSpec] classes, written after the
    pattern translation of its release 0.12, with the regular
    expressions it emits run by a derivative matcher.  Statements about
    the program are made on [should_ignore], [scan] and [main]; those
    that name a function of [Module Pathspec] hold of that model.

    The tree holds directories and files by the names, sizes and
    contents the program is given for them.  What [Path.resolve] makes
    of a path is not part of it: the paths of a walk are taken to be
    resolved already, as they are in a tree without symbolic links, and
    the report to be text that UTF-8 can encode, as it is when the file
    names are. *)

From Stdlib Require Import List Bool Arith NArith ZArith Lia String Ascii.
From Stdlib Require Import Permutation Sorted Relations RelationClasses.
From Stdlib Require DecimalString.
Import ListNotations.

Set Implicit Arguments.

(* ------------------------------------------------------------------ *)
(** ** Python strings *)
(* ------------------------------------------------------------------ *)

Definition char := N.
Definition str := list char.

(** An ASCII literal as a Python string. *)
Definition lit (s : string) : str :=
  map N_of_ascii (list_ascii_of_string s).

Definition chr_nl : char := 10%N.
Definition chr_slash : char := 47%N.
Definition chr_star : char := 42%N.
Definition chr_bang : char := 33%N.
Definition chr_hash : char := 35%N.
Definition chr_backslash : char := 92%N.
Definition chr_question : char := 63%N.
Definition chr_lbracket : char := 91%N.
Definition chr_rbracket : char := 93%N.
Definition chr_caret : char := 94%N.
Definition chr_dash : char := 45%N.
Definition chr_dot : char := 46%N.
Definition chr_space : char := 32%N.

Fixpoint str_eqb (a b : str) : bool :=
  match a, b with
  | [], [] => true
  | x :: a', y :: b' => N.eqb x y && str_eqb a' b'
  | _, _ => false
  end.

(** [a < b] on Python strings. *)
Fixpoint str_ltb (a b : str) : bool :=
  match a, b with
  | _, [] => false
  | [], _ :: _ => true
  | x :: a', y :: b' =>
      if N.ltb x y then true
      else if N.eqb x y then str_ltb a' b' else false
  end.

Definition str_leb (a b : str) : bool := negb (str_ltb b a).

Fixpoint startswith (s p : str) : bool :=
  match p, s with
  | [], _ => true
  | x :: p', y :: s' => N.eqb x y && startswith s' p'
  | _ :: _, [] => false
  end.

Definition endswith (s p : str) : bool := startswith (rev s) (rev p).

(** [str.isspace] for one code point. *)
Definition isspace (c : char) : bool :=
  ((9 <=? c) && (c <=? 13) || (28 <=? c) && (c <=? 32)
   || (c =? 133) || (c =? 160) || (c =? 5760)
   || (8192 <=? c) && (c <=? 8202)
   || (c =? 8232) || (c =? 8233) || (c =? 8239) || (c =? 8287)
   || (c =? 12288))%N.

Fixpoint lstrip (s : str) : str :=
  match s with
  | c :: s' => if isspace c then lstrip s' else s
  | [] => []
  end.

Definition rstrip (s : str) : str := rev (lstrip (rev s)).
Definition strip (s : str) : str := rstrip (lstrip s).

(** [s.split(sep)] for a one-character separator: never the empty list. *)
Fixpoint split (sep : char) (s : str) : list str :=
  match s with
  | [] => [[]]
  | c :: s' =>
      if N.eqb c sep then [] :: split sep s'
      else match split sep s' with
           | seg :: segs => (c :: seg) :: segs
           | [] => [[c]]
           end
  end.

(** [sep.join(parts)]. *)
Fixpoint join (sep : str) (parts : list str) : str :=
  match parts with
  | [] => []
  | [p] => p
  | p :: ps => p ++ sep ++ join sep ps
  end.

(** [s.count(c)] for a single character. *)
Definition count (c : char) (s : str) : Z :=
  Z.of_nat (List.length (filter (N.eqb c) s)).

(* ------------------------------------------------------------------ *)
(** ** Case data of the Unicode database *)
(* ------------------------------------------------------------------ *)

(** [str.lower] goes by the character database of the interpreter:
    Unicode 14.0.0 for CPython 3.11.  [lowercase_table] lists the code
    points whose lowercase mapping is another single code point: an
    entry [(first, last, step, target)] maps [first], [first + step],
    ... up to [last] to [target], [target + step], ...  The only
    lowercase mapping of more than one code point is that of U+0130.
    [case_ignorable_ranges] and [cased_ranges] are the properties
    Case_Ignorable and Cased, as inclusive ranges. *)
Module Unicode.

Definition lowercase_table : list (N * N * N * N) := [
  (65, 90, 1, 97); (192, 214, 1, 224); (216, 222, 1, 248);
  (256, 302, 2, 257); (306, 310, 2, 307); (313, 327, 2, 314);
  (330, 374, 2, 331); (376, 376, 1, 255); (377, 381, 2, 378);
  (385, 385, 1, 595); (386, 388, 2, 387); (390, 390, 1, 596);
  (391, 391, 1, 392); (393, 394, 1, 598); (395, 395, 1, 396);
  (398, 398, 1, 477); (399, 399, 1, 601); (400, 400, 1, 603);
  (401, 401, 1, 402); (403, 403, 1, 608); (404, 404, 1, 611);
  (406, 406, 1, 617); (407, 407, 1, 616); (408, 408, 1, 409);
  (412, 412, 1, 623); (413, 413, 1, 626); (415, 415, 1, 629);
  (416, 420, 2, 417); (422, 422, 1, 640); (423, 423, 1, 424);
  (425, 425, 1, 643); (428, 428, 1, 429); (430, 430, 1, 648);
  (431, 431, 1, 432); (433, 434, 1, 650); (435, 437, 2, 436);
  (439, 439, 1, 658); (440, 440, 1, 441); (444, 444, 1, 445);
  (452, 452, 1, 454); (453, 453, 1, 454); (455, 455, 1, 457);
  (456, 456, 1, 457); (458, 458, 1, 460); (459, 475, 2, 460);
  (478, 494, 2, 479); (497, 497, 1, 499); (498, 500, 2, 499);
  (502, 502, 1, 405); (503, 503, 1, 447); (504, 542, 2, 505);
  (544, 544, 1, 414); (546, 562, 2, 547); (570, 570, 1, 11365);
  (571, 571, 1, 572); (573, 573, 1, 410); (574, 574, 1, 11366);
  (577, 577, 1, 578); (579, 579, 1, 384); (580, 580, 1, 649);
  (581, 581, 1, 652); (582, 590, 2, 583); (880, 882, 2, 881);
  (886, 886, 1, 887); (895, 895, 1, 1011); (902, 902, 1, 940);
  (904, 906, 1, 941); (908, 908, 1, 972); (910, 911, 1, 973);
  (913, 929, 1, 945); (931, 939, 1, 963); (975, 975, 1, 983);
  (984, 1006, 2, 985); (1012, 1012, 1, 952); (1015, 1015, 1, 1016);
  (1017, 1017, 1, 1010); (1018, 1018, 1, 1019); (1021, 1023, 1, 891);
  (1024, 1039, 1, 1104); (1040, 1071, 1, 1072); (1120, 1152, 2, 1121);
  (1162, 1214, 2, 1163); (1216, 1216, 1, 1231); (1217, 1229, 2, 1218);
  (1232, 1326, 2, 1233); (1329, 1366, 1, 1377); (4256, 4293, 1, 11520);
  (4295, 4295, 1, 11559); (4301, 4301, 1, 11565); (5024, 5103, 1, 43888);
  (5104, 5109, 1, 5112); (7312, 7354, 1, 4304); (7357, 7359, 1, 4349);
  (7680, 7828, 2, 7681); (7838, 7838, 1, 223); (7840, 7934, 2, 7841);
  (7944, 7951, 1, 7936); (7960, 7965, 1, 7952); (7976, 7983, 1, 7968);
  (7992, 7999, 1, 7984); (8008, 8013, 1, 8000); (8025, 8031, 2, 8017);
  (8040, 8047, 1, 8032); (8072, 8079, 1, 8064); (8088, 8095, 1, 8080);
  (8104, 8111, 1, 8096); (8120, 8121, 1, 8112); (8122, 8123, 1, 8048);
  (8124, 8124, 1, 8115); (8136, 8139, 1, 8050); (8140, 8140, 1, 8131);
  (8152, 8153, 1, 8144); (8154, 8155, 1, 8054); (8168, 8169, 1, 8160);
  (8170, 8171, 1, 8058); (8172, 8172, 1, 8165); (8184, 8185, 1, 8056);
  (8186, 8187, 1, 8060); (8188, 8188, 1, 8179); (8486, 8486, 1, 969);
  (8490, 8490, 1, 107); (8491, 8491, 1, 229); (8498, 8498, 1, 8526);
  (8544, 8559, 1, 8560); (8579, 8579, 1, 8580); (9398, 9423, 1, 9424);
  (11264, 11311, 1, 11312); (11360, 11360, 1, 11361);
  (11362, 11362, 1, 619); (11363, 11363, 1, 7549); (11364, 11364, 1, 637);
  (11367, 11371, 2, 11368); (11373, 11373, 1, 593); (11374, 11374, 1, 625);
  (11375, 11375, 1, 592); (11376, 11376, 1, 594); (11378, 11378, 1, 11379);
  (11381, 11381, 1, 11382); (11390, 11391, 1, 575);
  (11392, 11490, 2, 11393); (11499, 11501, 2, 11500);
  (11506, 11506, 1, 11507); (42560, 42604, 2, 42561);
  (42624, 42650, 2, 42625); (42786, 42798, 2, 42787);
  (42802, 42862, 2, 42803); (42873, 42875, 2, 42874);
  (42877, 42877, 1, 7545); (42878, 42886, 2, 42879);
  (42891, 42891, 1, 42892); (42893, 42893, 1, 613);
  (42896, 42898, 2, 42897); (42902, 42920, 2, 42903);
  (42922, 42922, 1, 614); (42923, 42923, 1, 604); (42924, 42924, 1, 609);
  (42925, 42925, 1, 620); (42926, 42926, 1, 618); (42928, 42928, 1, 670);
  (42929, 42929, 1, 647); (42930, 42930, 1, 669); (42931, 42931, 1, 43859);
  (42932, 42946, 2, 42933); (42948, 42948, 1, 42900);
  (42949, 42949, 1, 642); (42950, 42950, 1, 7566); (42951, 42953, 2, 42952);
  (42960, 42960, 1, 42961); (42966, 42968, 2, 42967);
  (42997, 42997, 1, 42998); (65313, 65338, 1, 65345);
  (66560, 66599, 1, 66600); (66736, 66771, 1, 66776);
  (66928, 66964, 2, 66967); (66929, 66937, 2, 66968);
  (66941, 66953, 2, 66980); (66957, 66961, 2, 66996);
  (66965, 66965, 1, 67004); (68736, 68786, 1, 68800);
  (71840, 71871, 1, 71872); (93760, 93791, 1, 93792);
  (125184, 125217, 1, 125218)
]%N.

Definition case_ignorable_ranges : list (N * N) := [
  (39, 39); (46, 46); (58, 58); (94, 94); (96, 96); (168, 168); (173, 173);
  (175, 175); (180, 180); (183, 184); (688, 879); (884, 885); (890, 890);
  (900, 901); (903, 903); (1155, 1161); (1369, 1369); (1375, 1375);
  (1425, 1469); (1471, 1471); (1473, 1474); (1476, 1477); (1479, 1479);
  (1524, 1524); (1536, 1541); (1552, 1562); (1564, 1564); (1600, 1600);
  (1611, 1631); (1648, 1648); (1750, 1757); (1759, 1768); (1770, 1773);
  (1807, 1807); (1809, 1809); (1840, 1866); (1958, 1968); (2027, 2037);
  (2042, 2042); (2045, 2045); (2070, 2093); (2137, 2139); (2184, 2184);
  (2192, 2193); (2200, 2207); (2249, 2306); (2362, 2362); (2364, 2364);
  (2369, 2376); (2381, 2381); (2385, 2391); (2402, 2403); (2417, 2417);
  (2433, 2433); (2492, 2492); (2497, 2500); (2509, 2509); (2530, 2531);
  (2558, 2558); (2561, 2562); (2620, 2620); (2625, 2626); (2631, 2632);
  (2635, 2637); (2641, 2641); (2672, 2673); (2677, 2677); (2689, 2690);
  (2748, 2748); (2753, 2757); (2759, 2760); (2765, 2765); (2786, 2787);
  (2810, 2815); (2817, 2817); (2876, 2876); (2879, 2879); (2881, 2884);
  (2893, 2893); (2901, 2902); (2914, 2915); (2946, 2946); (3008, 3008);
  (3021, 3021); (3072, 3072); (3076, 3076); (3132, 3132); (3134, 3136);
  (3142, 3144); (3146, 3149); (3157, 3158); (3170, 3171); (3201, 3201);
  (3260, 3260); (3263, 3263); (3270, 3270); (3276, 3277); (3298, 3299);
  (3328, 3329); (3387, 3388); (3393, 3396); (3405, 3405); (3426, 3427);
  (3457, 3457); (3530, 3530); (3538, 3540); (3542, 3542); (3633, 3633);
  (3636, 3642); (3654, 3662); (3761, 3761); (3764, 3772); (3782, 3782);
  (3784, 3789); (3864, 3865); (3893, 3893); (3895, 3895); (3897, 3897);
  (3953, 3966); (3968, 3972); (3974, 3975); (3981, 3991); (3993, 4028);
  (4038, 4038); (4141, 4144); (4146, 4151); (4153, 4154); (4157, 4158);
  (4184, 4185); (4190, 4192); (4209, 4212); (4226, 4226); (4229, 4230);
  (4237, 4237); (4253, 4253); (4348, 4348); (4957, 4959); (5906, 5908);
  (5938, 5939); (5970, 5971); (6002, 6003); (6068, 6069); (6071, 6077);
  (6086, 6086); (6089, 6099); (6103, 6103); (6109, 6109); (6155, 6159);
  (6211, 6211); (6277, 6278); (6313, 6313); (6432, 6434); (6439, 6440);
  (6450, 6450); (6457, 6459); (6679, 6680); (6683, 6683); (6742, 6742);
  (6744, 6750); (6752, 6752); (6754, 6754); (6757, 6764); (6771, 6780);
  (6783, 6783); (6823, 6823); (6832, 6862); (6912, 6915); (6964, 6964);
  (6966, 6970); (6972, 6972); (6978, 6978); (7019, 7027); (7040, 7041);
  (7074, 7077); (7080, 7081); (7083, 7085); (7142, 7142); (7144, 7145);
  (7149, 7149); (7151, 7153); (7212, 7219); (7222, 7223); (7288, 7293);
  (7376, 7378); (7380, 7392); (7394, 7400); (7405, 7405); (7412, 7412);
  (7416, 7417); (7468, 7530); (7544, 7544); (7579, 7679); (8125, 8125);
  (8127, 8129); (8141, 8143); (8157, 8159); (8173, 8175); (8189, 8190);
  (8203, 8207); (8216, 8217); (8228, 8228); (8231, 8231); (8234, 8238);
  (8288, 8292); (8294, 8303); (8305, 8305); (8319, 8319); (8336, 8348);
  (8400, 8432); (11388, 11389); (11503, 11505); (11631, 11631);
  (11647, 11647); (11744, 11775); (11823, 11823); (12293, 12293);
  (12330, 12333); (12337, 12341); (12347, 12347); (12441, 12446);
  (12540, 12542); (40981, 40981); (42232, 42237); (42508, 42508);
  (42607, 42610); (42612, 42621); (42623, 42623); (42652, 42655);
  (42736, 42737); (42752, 42785); (42864, 42864); (42888, 42890);
  (42994, 42996); (43000, 43001); (43010, 43010); (43014, 43014);
  (43019, 43019); (43045, 43046); (43052, 43052); (43204, 43205);
  (43232, 43249); (43263, 43263); (43302, 43309); (43335, 43345);
  (43392, 43394); (43443, 43443); (43446, 43449); (43452, 43453);
  (43471, 43471); (43493, 43494); (43561, 43566); (43569, 43570);
  (43573, 43574); (43587, 43587); (43596, 43596); (43632, 43632);
  (43644, 43644); (43696, 43696); (43698, 43700); (43703, 43704);
  (43710, 43711); (43713, 43713); (43741, 43741); (43756, 43757);
  (43763, 43764); (43766, 43766); (43867, 43871); (43881, 43883);
  (44005, 44005); (44008, 44008); (44013, 44013); (64286, 64286);
  (64434, 64450); (65024, 65039); (65043, 65043); (65056, 65071);
  (65106, 65106); (65109, 65109); (65279, 65279); (65287, 65287);
  (65294, 65294); (65306, 65306); (65342, 65342); (65344, 65344);
  (65392, 65392); (65438, 65439); (65507, 65507); (65529, 65531);
  (66045, 66045); (66272, 66272); (66422, 66426); (67456, 67461);
  (67463, 67504); (67506, 67514); (68097, 68099); (68101, 68102);
  (68108, 68111); (68152, 68154); (68159, 68159); (68325, 68326);
  (68900, 68903); (69291, 69292); (69446, 69456); (69506, 69509);
  (69633, 69633); (69688, 69702); (69744, 69744); (69747, 69748);
  (69759, 69761); (69811, 69814); (69817, 69818); (69821, 69821);
  (69826, 69826); (69837, 69837); (69888, 69890); (69927, 69931);
  (69933, 69940); (70003, 70003); (70016, 70017); (70070, 70078);
  (70089, 70092); (70095, 70095); (70191, 70193); (70196, 70196);
  (70198, 70199); (70206, 70206); (70367, 70367); (70371, 70378);
  (70400, 70401); (70459, 70460); (70464, 70464); (70502, 70508);
  (70512, 70516); (70712, 70719); (70722, 70724); (70726, 70726);
  (70750, 70750); (70835, 70840); (70842, 70842); (70847, 70848);
  (70850, 70851); (71090, 71093); (71100, 71101); (71103, 71104);
  (71132, 71133); (71219, 71226); (71229, 71229); (71231, 71232);
  (71339, 71339); (71341, 71341); (71344, 71349); (71351, 71351);
  (71453, 71455); (71458, 71461); (71463, 71467); (71727, 71735);
  (71737, 71738); (71995, 71996); (71998, 71998); (72003, 72003);
  (72148, 72151); (72154, 72155); (72160, 72160); (72193, 72202);
  (72243, 72248); (72251, 72254); (72263, 72263); (72273, 72278);
  (72281, 72283); (72330, 72342); (72344, 72345); (72752, 72758);
  (72760, 72765); (72767, 72767); (72850, 72871); (72874, 72880);
  (72882, 72883); (72885, 72886); (73009, 73014); (73018, 73018);
  (73020, 73021); (73023, 73029); (73031, 73031); (73104, 73105);
  (73109, 73109); (73111, 73111); (73459, 73460); (78896, 78904);
  (92912, 92916); (92976, 92982); (92992, 92995); (94031, 94031);
  (94095, 94111); (94176, 94177); (94179, 94180); (110576, 110579);
  (110581, 110587); (110589, 110590); (113821, 113822); (113824, 113827);
  (118528, 118573); (118576, 118598); (119143, 119145); (119155, 119170);
  (119173, 119179); (119210, 119213); (119362, 119364); (121344, 121398);
  (121403, 121452); (121461, 121461); (121476, 121476); (121499, 121503);
  (121505, 121519); (122880, 122886); (122888, 122904); (122907, 122913);
  (122915, 122916); (122918, 122922); (123184, 123197); (123566, 123566);
  (123628, 123631); (125136, 125142); (125252, 125259); (127995, 127999);
  (917505, 917505); (917536, 917631); (917760, 917999)
]%N.

Definition cased_ranges : list (N * N) := [
  (65, 90); (97, 122); (170, 170); (181, 181); (186, 186); (192, 214);
  (216, 246); (248, 442); (444, 447); (452, 659); (661, 696); (704, 705);
  (736, 740); (837, 837); (880, 883); (886, 887); (890, 893); (895, 895);
  (902, 902); (904, 906); (908, 908); (910, 929); (931, 1013); (1015, 1153);
  (1162, 1327); (1329, 1366); (1376, 1416); (4256, 4293); (4295, 4295);
  (4301, 4301); (4304, 4346); (4349, 4351); (5024, 5109); (5112, 5117);
  (7296, 7304); (7312, 7354); (7357, 7359); (7424, 7615); (7680, 7957);
  (7960, 7965); (7968, 8005); (8008, 8013); (8016, 8023); (8025, 8025);
  (8027, 8027); (8029, 8029); (8031, 8061); (8064, 8116); (8118, 8124);
  (8126, 8126); (8130, 8132); (8134, 8140); (8144, 8147); (8150, 8155);
  (8160, 8172); (8178, 8180); (8182, 8188); (8305, 8305); (8319, 8319);
  (8336, 8348); (8450, 8450); (8455, 8455); (8458, 8467); (8469, 8469);
  (8473, 8477); (8484, 8484); (8486, 8486); (8488, 8488); (8490, 8493);
  (8495, 8500); (8505, 8505); (8508, 8511); (8517, 8521); (8526, 8526);
  (8544, 8575); (8579, 8580); (9398, 9449); (11264, 11492); (11499, 11502);
  (11506, 11507); (11520, 11557); (11559, 11559); (11565, 11565);
  (42560, 42605); (42624, 42653); (42786, 42887); (42891, 42894);
  (42896, 42954); (42960, 42961); (42963, 42963); (42965, 42969);
  (42997, 42998); (43000, 43002); (43824, 43866); (43868, 43880);
  (43888, 43967); (64256, 64262); (64275, 64279); (65313, 65338);
  (65345, 65370); (66560, 66639); (66736, 66771); (66776, 66811);
  (66928, 66938); (66940, 66954); (66956, 66962); (66964, 66965);
  (66967, 66977); (66979, 66993); (66995, 67001); (67003, 67004);
  (67456, 67456); (67459, 67461); (67463, 67504); (67506, 67514);
  (68736, 68786); (68800, 68850); (71840, 71903); (93760, 93823);
  (119808, 119892); (119894, 119964); (119966, 119967); (119970, 119970);
  (119973, 119974); (119977, 119980); (119982, 119993); (119995, 119995);
  (119997, 120003); (120005, 120069); (120071, 120074); (120077, 120084);
  (120086, 120092); (120094, 120121); (120123, 120126); (120128, 120132);
  (120134, 120134); (120138, 120144); (120146, 120485); (120488, 120512);
  (120514, 120538); (120540, 120570); (120572, 120596); (120598, 120628);
  (120630, 120654); (120656, 120686); (120688, 120712); (120714, 120744);
  (120746, 120770); (120772, 120779); (122624, 122633); (122635, 122654);
  (125184, 125251); (127280, 127305); (127312, 127337); (127344, 127369)
]%N.

Definition in_range (c : N) (r : N * N) : bool :=
  ((fst r <=? c) && (c <=? snd r))%N.

Definition in_entry (c : N) (e : N * N * N * N) : bool :=
  let '(first, last, step, _) := e in
  ((first <=? c) && (c <=? last) && ((c - first) mod step =? 0))%N.

(** [_PyUnicode_ToLowerFull]. *)
Definition to_lower_full (c : N) : list N :=
  if (c =? 304)%N then [105; 775]%N
  else
    match find (in_entry c) lowercase_table with
    | Some (first, _, _, target) => [c - first + target]%N
    | None => [c]
    end.

(** [_PyUnicode_IsCaseIgnorable] and [_PyUnicode_IsCased]. *)
Definition is_case_ignorable (c : N) : bool :=
  existsb (in_range c) case_ignorable_ranges.

Definition is_cased (c : N) : bool := existsb (in_range c) cased_ranges.

End Unicode.

(** The first code point that is not case-ignorable, and what follows. *)
Fixpoint skip_case_ignorable (s : str) : str :=
  match s with
  | [] => []
  | c :: rest =>
      if Unicode.is_case_ignorable c then skip_case_ignorable rest else s
  end.

(** [handle_capital_sigma]: a capital sigma becomes the final small
    sigma U+03C2 when a cased letter stands before it and none after it,
    case-ignorable code points apart; else the small sigma U+03C3.
    [before] holds the code points before the sigma, the nearest one
    first. *)
Definition handle_capital_sigma (before after : str) : char :=
  let final_sigma :=
    match skip_case_ignorable before with
    | [] => false
    | b :: _ =>
        Unicode.is_cased b
        && match skip_case_ignorable after with
           | [] => true
           | a :: _ => negb (Unicode.is_cased a)
           end
    end in
  if final_sigma then 962%N else 963%N.

(** [do_lower], the loop of [str.lower]. *)
Fixpoint do_lower (before s : str) : str :=
  match s with
  | [] => []
  | c :: rest =>
      (if (c =? 931)%N then [handle_capital_sigma before rest]
       else Unicode.to_lower_full c)
      ++ do_lower (c :: before) rest
  end.

(** [str.lower]. *)
Definition lower (s : str) : str := do_lower [] s.

(** [str(n)] for an integer. *)
Definition str_of_int (n : Z) : str :=
  lit (DecimalString.NilZero.string_of_int (Z.to_int n)).

(** [len(s)] as a Python integer. *)
Definition len {A} (l : list A) : Z := Z.of_nat (List.length l).

Definition mem (x : str) (l : list str) : bool := existsb (str_eqb x) l.

(* ------------------------------------------------------------------ *)
(** ** Exceptions *)
(* ------------------------------------------------------------------ *)

Inductive exn : Type :=
| ValueError
| OSError
| UnicodeDecodeError
| GitWildMatchPatternError
| ReError.

Inductive exc (A : Type) : Type :=
| Ok (a : A)
| Raise (e : exn).
Arguments Ok {A} a.
Arguments Raise {A} e.

Definition bind {A B} (m : exc A) (k : A -> exc B) : exc B :=
  match m with
  | Ok a => k a
  | Raise e => Raise e
  end.

Notation "x <- m ;; k" := (bind m (fun x => k))
  (at level 61, m at next level, right associativity).

(* ------------------------------------------------------------------ *)
(** ** Regular expressions, as far as pathspec emits them *)
(* ------------------------------------------------------------------ *)

Module Regex.

Inductive regex : Type :=
| Void
| Eps
| Sym (p : char -> bool)
| Cat (r1 r2 : regex)
| Alt (r1 r2 : regex)
| Star (r : regex).

(** The language of a regular expression. *)
Inductive lang : regex -> str -> Prop :=
| L_eps : lang Eps []
| L_sym p c : p c = true -> lang (Sym p) [c]
| L_cat r1 r2 s1 s2 : lang r1 s1 -> lang r2 s2 -> lang (Cat r1 r2) (s1 ++ s2)
| L_alt_l r1 r2 s : lang r1 s -> lang (Alt r1 r2) s
| L_alt_r r1 r2 s : lang r2 s -> lang (Alt r1 r2) s
| L_star_nil r : lang (Star r) []
| L_star_cons r s1 s2 :
    lang r s1 -> lang (Star r) s2 -> lang (Star r) (s1 ++ s2).

Fixpoint nullable (r : regex) : bool :=
  match r with
  | Void => false
  | Eps => true
  | Sym _ => false
  | Cat r1 r2 => nullable r1 && nullable r2
  | Alt r1 r2 => nullable r1 || nullable r2
  | Star _ => true
  end.

Definition is_void (r : regex) : bool :=
  match r with Void => true | _ => false end.

Definition cat (r1 r2 : regex) : regex :=
  if is_void r1 || is_void r2 then Void else Cat r1 r2.

Definition alt (r1 r2 : regex) : regex :=
  if is_void r1 then r2 else if is_void r2 then r1 else Alt r1 r2.

(** Brzozowski derivative. *)
Fixpoint deriv (c : char) (r : regex) : regex :=
  match r with
  | Void => Void
  | Eps => Void
  | Sym p => if p c then Eps else Void
  | Cat r1 r2 =>
      alt (cat (deriv c r1) r2) (if nullable r1 then deriv c r2 else Void)
  | Alt r1 r2 => alt (deriv c r1) (deriv c r2)
  | Star r1 => cat (deriv c r1) (Star r1)
  end.

(** Whole-string match. *)
Fixpoint fullmatch (r : regex) (s : str) : bool :=
  match s with
  | [] => nullable r
  | c :: s' => fullmatch (deriv c r) s'
  end.

Definition Plus (r : regex) : regex := Cat r (Star r).
Definition Opt (r : regex) : regex := Alt Eps r.
Definition Chr (c : char) : regex := Sym (N.eqb c).
(** [.] without DOTALL: any character but a newline. *)
Definition Dot : regex := Sym (fun c => negb (N.eqb c chr_nl)).
(** [[^/]]. *)
Definition NotSlash : regex := Sym (fun c => negb (N.eqb c chr_slash)).

Fixpoint seq (rs : list regex) : regex :=
  match rs with
  | [] => Eps
  | [r] => r
  | r :: rs' => Cat r (seq rs')
  end.

(** A final [$] outside MULTILINE mode: the end of the string, or just
    before a newline that ends the string. *)
Definition Dollar : regex := Opt (Chr chr_nl).

(** [re.match] of [^ body $]. *)
Definition re_match (body : regex) (s : str) : bool :=
  fullmatch (Cat body Dollar) s.

End Regex.

(* ------------------------------------------------------------------ *)
(** ** The pathspec library: GitWildMatchPattern and PathSpec *)
(* ------------------------------------------------------------------ *)

Module Pathspec.
Import Regex.

Definition is_empty (s : str) : bool :=
  match s with [] => true | _ => false end.

Definition double_star : str := [chr_star; chr_star].

(** *** Bracket expressions *)

(** The text up to the next closing bracket, and what follows it. *)
Fixpoint until_rbracket (s : str) : option (str * str) :=
  match s with
  | [] => None
  | c :: s' =>
      if N.eqb c chr_rbracket then Some ([], s')
      else match until_rbracket s' with
           | Some (body, rest) => Some (c :: body, rest)
           | None => None
           end
  end.

(** After an opening bracket: the negation flag, the text of the
    expression and the rest of the segment, when the bracket closes. *)
Definition find_bracket (rest : str) : option (bool * str * str) :=
  let '(neg, r1) :=
    match rest with
    | c :: r => if N.eqb c chr_bang || N.eqb c chr_caret
                then (true, r) else (false, rest)
    | [] => (false, [])
    end in
  let '(lead, r2) :=
    match r1 with
    | c :: r => if N.eqb c chr_rbracket then ([chr_rbracket], r) else ([], r1)
    | [] => ([], [])
    end in
  match until_rbracket r2 with
  | Some (body, rest') => Some (neg, lead ++ body, rest')
  | None => None
  end.

(** The members of a character set, as [re] reads them: [lo-hi] is a
    range (an error when [hi < lo]), anything else stands for itself. *)
Fixpoint class_items (cs : str) : option (list (char * char)) :=
  match cs with
  | [] => Some []
  | lo :: rest =>
      match rest with
      | d :: hi :: rest' =>
          if N.eqb d chr_dash then
            if N.ltb hi lo then None
            else option_map (cons (lo, hi)) (class_items rest')
          else option_map (cons (lo, lo)) (class_items rest)
      | _ => option_map (cons (lo, lo)) (class_items rest)
      end
  end.

Definition class_pred (neg : bool) (items : list (char * char)) (c : char)
  : bool :=
  xorb neg (existsb (fun r => N.leb (fst r) c && N.leb c (snd r)) items).

(** *** [_translate_segment_glob] *)

(** The pieces of the regular expression of one segment, and whether each
    of its character sets compiles.  [skip] is the number of characters
    the loop index has jumped over: the rest of a bracket expression. *)
Fixpoint translate_loop (skip : nat) (escape : bool) (p : str)
  : exc (list regex * bool) :=
  match p with
  | [] => if escape then Raise ValueError else Ok ([], true)
  | c :: rest =>
      match skip with
      | S skip' => translate_loop skip' escape rest
      | O =>
          let emit r ok skip :=
            out <- translate_loop skip false rest ;;
            Ok (r :: fst out, ok && snd out) in
          if escape then emit (Chr c) true O
          else if N.eqb c chr_backslash then translate_loop O true rest
          else if N.eqb c chr_star then emit (Star NotSlash) true O
          else if N.eqb c chr_question then emit NotSlash true O
          else if N.eqb c chr_lbracket then
            match find_bracket rest with
            | Some (neg, body, after) =>
                let span := (List.length rest - List.length after)%nat in
                match class_items body with
                | Some items => emit (Sym (class_pred neg items)) true span
                | None => emit Void false span
                end
            | None => emit (Chr chr_lbracket) true O
            end
          else emit (Chr c) true O
      end
  end.

Definition _translate_segment_glob (pattern : str) : exc (list regex * bool) :=
  translate_loop O false pattern.

(** *** [GitWildMatchPattern.pattern_to_regex] *)

(** Runs of double-asterisk segments collapse to one. *)
Fixpoint collapse (segs : list str) : list str :=
  match segs with
  | [] => []
  | seg :: rest =>
      match collapse rest with
      | nxt :: rest' =>
          if str_eqb seg double_star && str_eqb nxt double_star
          then nxt :: rest' else seg :: nxt :: rest'
      | [] => [seg]
      end
  end.

Definition slash_if (need_slash : bool) : list regex :=
  if need_slash then [Chr chr_slash] else [].

(** An optional slash and anything after it: added after a last segment
    that is not a double asterisk. *)
Definition dir_tail : regex := Opt (Cat (Chr chr_slash) (Star Dot)).

(** The loop over the normalized segments. *)
Fixpoint build (first need_slash : bool) (segs : list str)
  : exc (list regex * bool) :=
  match segs with
  | [] => Ok ([], true)
  | seg :: rest =>
      let last := match rest with [] => true | _ => false end in
      if str_eqb seg double_star then
        if first && last then
          Ok ([Plus NotSlash; Opt (Cat (Chr chr_slash) (Star Dot))], true)
        else if first then
          out <- build false false rest ;;
          Ok (Opt (Cat (Plus Dot) (Chr chr_slash)) :: fst out, snd out)
        else if last then
          Ok ([Chr chr_slash; Star Dot], true)
        else
          out <- build false true rest ;;
          Ok (Opt (Cat (Chr chr_slash) (Plus Dot)) :: fst out, snd out)
      else if str_eqb seg [chr_star] then
        out <- build false true rest ;;
        Ok (slash_if need_slash ++ [Plus NotSlash]
              ++ (if last then [dir_tail] else []) ++ fst out, snd out)
      else
        match _translate_segment_glob seg with
        | Raise _ => Raise GitWildMatchPatternError
        | Ok g =>
            out <- build false true rest ;;
            Ok (slash_if need_slash ++ fst g
                  ++ (if last then [dir_tail] else []) ++ fst out,
                snd g && snd out)
        end
  end.

(** Replace the last segment by a double asterisk. *)
Fixpoint set_last_double_star (segs : list str) : list str :=
  match segs with
  | [] => []
  | [_] => [double_star]
  | seg :: rest => seg :: set_last_double_star rest
  end.

Definition normalize_segs (segs : list str) : list str :=
  match segs with
  | [] => []
  | first :: rest =>
      if is_empty first then rest
      else
        match rest with
        | [] => if str_eqb first double_star then segs else double_star :: segs
        | [second] =>
            if is_empty second
            then if str_eqb first double_star then segs
                 else double_star :: segs
            else segs
        | _ => segs
        end
  end.

(** A compiled pattern: [include] is [None] for a comment or a blank
    line, and then there is no regular expression. *)
Record Pattern : Type := mkPattern {
  include : option bool;
  regex_body : option regex
}.

Definition null_pattern : Pattern := mkPattern None None.

(** [GitWildMatchPattern(line)]: [pattern_to_regex] and [re.compile]. *)
Definition GitWildMatchPattern (line : str) : exc Pattern :=
  let pattern :=
    if endswith line [chr_backslash; chr_space] then lstrip line
    else strip line in
  if startswith pattern [chr_hash] then Ok null_pattern
  else if str_eqb pattern [chr_slash] then Ok null_pattern
  else if is_empty pattern then Ok null_pattern
  else
    let '(incl, pattern) :=
      if startswith pattern [chr_bang] then (false, tl pattern)
      else (true, pattern) in
    let pattern_segs := collapse (split chr_slash pattern) in
    let override :=
      match pattern_segs with
      | [a; b] => str_eqb a double_star && is_empty b
      | _ => false
      end in
    let pattern_segs := normalize_segs pattern_segs in
    match pattern_segs with
    | [] => Raise GitWildMatchPatternError
    | _ :: more =>
        let pattern_segs :=
          if is_empty (last pattern_segs [chr_star])
             && negb (match more with [] => true | _ => false end)
          then set_last_double_star pattern_segs else pattern_segs in
        if override then
          Ok (mkPattern (Some incl)
                (Some (seq [Plus Dot; Chr chr_slash; Star Dot])))
        else
          out <- build true false pattern_segs ;;
          if snd out then Ok (mkPattern (Some incl) (Some (seq (fst out))))
          else Raise ReError
    end.

(** [pattern.match_file(file) is not None]. *)
Definition pattern_matches (p : Pattern) (file : str) : bool :=
  match include p, regex_body p with
  | Some _, Some r => re_match r file
  | _, _ => false
  end.

Definition PathSpec := list Pattern.

(** [PathSpec.from_lines(GitWildMatchPattern, lines)]. *)
Fixpoint from_lines (lines : list str) : exc PathSpec :=
  match lines with
  | [] => Ok []
  | line :: rest =>
      if is_empty line then from_lines rest
      else
        p <- GitWildMatchPattern line ;;
        ps <- from_lines rest ;;
        Ok (p :: ps)
  end.

(** [util.normalize_file] on a POSIX system. *)
Definition normalize_file (file : str) : str :=
  if startswith file [chr_slash] then tl file
  else if startswith file [chr_dot; chr_slash] then tl (tl file)
  else file.

(** [util.check_match_file]: the include flag of the last pattern that
    matches, starting from [out]. *)
Fixpoint check_match_file (patterns : PathSpec) (file : str)
  (out : option bool) : option bool :=
  match patterns with
  | [] => out
  | p :: rest =>
      check_match_file rest file
        (if pattern_matches p file then include p else out)
  end.

(** [spec.match_file(file)]. *)
Definition match_file (spec : PathSpec) (file : str) : bool :=
  match check_match_file spec (normalize_file file) None with
  | Some true => true
  | _ => false
  end.

End Pathspec.

Import Pathspec.

(* ------------------------------------------------------------------ *)
(** ** Paths *)
(* ------------------------------------------------------------------ *)

(** A path is the list of its parts; an absolute path hangs below [/]. *)
Definition Path := list str.

(** [str(p)] of an absolute path. *)
Definition path_str (p : Path) : str := chr_slash :: join [chr_slash] p.

(** [p.name]. *)
Definition name (p : Path) : str := last p [].

(** [p / child]. *)
Definition div (p : Path) (child : str) : Path := p ++ [child].

Fixpoint path_eqb (p q : Path) : bool :=
  match p, q with
  | [], [] => true
  | a :: p', b :: q' => str_eqb a b && path_eqb p' q'
  | _, _ => false
  end.

(** [p.relative_to(root)]: the parts of [p] below [root], [ValueError]
    when [p] does not start with the parts of [root]. *)
Fixpoint relative_to (p root : Path) {struct root} : exc Path :=
  match root, p with
  | [], _ => Ok p
  | r :: root', a :: p' =>
      if str_eqb r a then relative_to p' root' else Raise ValueError
  | _ :: _, [] => Raise ValueError
  end.

(** [rel.as_posix()] of a relative path. *)
Definition as_posix (rel : Path) : str :=
  match rel with
  | [] => [chr_dot]
  | _ => join [chr_slash] rel
  end.

(** The text from the last dot of [rev_name] read backwards, when that
    dot is neither the first nor the last character of the name. *)
Fixpoint suffix_rev (rev_name : str) (acc : str) : str :=
  match rev_name with
  | [] => []
  | c :: rest =>
      if N.eqb c chr_dot then
        match rest, acc with
        | _ :: _, _ :: _ => chr_dot :: acc
        | _, _ => []
        end
      else suffix_rev rest (c :: acc)
  end.

(** [p.suffix]. *)
Definition suffix (p : Path) : str := suffix_rev (rev (name p)) [].

(* ------------------------------------------------------------------ *)
(** ** Configuration and constants *)
(* ------------------------------------------------------------------ *)

Definition CHARS_PER_TOKEN : Z := 4.
Definition MAX_FILE_SIZE_BYTES : Z := 1000000.

Module LanguageConfig.

Definition EXTENSION_MAP : list (str * str) :=
  map (fun kv => (lit (fst kv), lit (snd kv)))
  [ (".py", "python"); (".pyi", "python"); (".pyx", "python");
    (".ipynb", "json");
    (".js", "javascript"); (".jsx", "javascript"); (".ts", "typescript");
    (".tsx", "typescript");
    (".html", "html"); (".css", "css"); (".scss", "scss"); (".vue", "vue");
    (".svelte", "svelte");
    (".java", "java"); (".kt", "kotlin"); (".scala", "scala");
    (".gradle", "groovy");
    (".c", "c"); (".h", "c"); (".cpp", "cpp"); (".hpp", "cpp");
    (".rs", "rust"); (".go", "go");
    (".sh", "bash"); (".bash", "bash"); (".zsh", "zsh"); (".lua", "lua");
    (".rb", "ruby"); (".php", "php");
    (".json", "json"); (".yaml", "yaml"); (".yml", "yaml");
    (".toml", "toml"); (".xml", "xml");
    (".sql", "sql"); (".md", "markdown"); (".txt", "text");
    ("Dockerfile", "dockerfile");
    (".tf", "hcl") ]%string.

(** The members of the set, in the order of the source text. *)
Definition IGNORE_PATTERNS : list str :=
  map lit
  [ ".git"; ".svn"; ".hg";
    "node_modules"; "venv"; ".venv"; "env"; "dist"; "build"; "target";
    "__pycache__"; ".pytest_cache"; ".mypy_cache"; "vendor";
    "*.png"; "*.jpg"; "*.jpeg"; "*.gif"; "*.ico"; "*.svg"; "*.pdf";
    "*.zip"; "*.tar"; "*.gz"; "*.7z"; "*.rar";
    "*.exe"; "*.dll"; "*.so"; "*.dylib"; "*.class"; "*.jar";
    "*.db"; "*.sqlite"; "*.sqlite3"; "*.pyc";
    "package-lock.json"; "yarn.lock"; "pnpm-lock.yaml"; "Gemfile.lock"
  ]%string.

End LanguageConfig.

(** [d.get(key, default)]. *)
Fixpoint get (d : list (str * str)) (key default : str) : str :=
  match d with
  | [] => default
  | (k, v) :: d' => if str_eqb k key then v else get d' key default
  end.

(* ------------------------------------------------------------------ *)
(** ** Data structures *)
(* ------------------------------------------------------------------ *)

Record FileArtifact : Type := mkFileArtifact {
  path : Path;
  relative_path : str;
  extension : str;
  language : str;
  size : Z;
  lines : Z;
  content : str;
  token_estimate : Z;
  is_truncated : bool
}.

Record ProjectSummary : Type := mkProjectSummary {
  total_files : Z;
  total_lines : Z;
  total_tokens : Z;
  file_tree : str;
  artifacts : list FileArtifact
}.

(* ------------------------------------------------------------------ *)
(** ** The filesystem below the scan root *)
(* ------------------------------------------------------------------ *)

(** What opening and reading a file as UTF-8 text gives. *)
Inductive file_data : Type :=
| Text (s : str)           (** valid UTF-8, read as [s] *)
| Binary (replaced : str)  (** invalid UTF-8: strict decoding raises,
                               [errors='replace'] reads [replaced] *)
| Unreadable.              (** [open] raises [OSError] *)

(** A directory entry.  [st_size] is [None] when [stat] raises; a
    directory whose [listing] is [None] cannot be entered.  The order of
    a listing is the order in which [os.scandir] enumerates it. *)
#[warnings="-register-all"]
Inductive node : Type :=
| File (fname : str) (st_size : option Z) (data : file_data)
| Dir (dname : str) (listing : option (list node)).

Definition node_name (n : node) : str :=
  match n with
  | File f _ _ => f
  | Dir d _ => d
  end.

Fixpoint find_entry (child : str) (entries : list node) : option node :=
  match entries with
  | [] => None
  | e :: rest =>
      if str_eqb (node_name e) child then Some e else find_entry child rest
  end.

(** The node at [rel] below the node [n]. *)
Fixpoint lookup (n : node) (rel : Path) : option node :=
  match rel with
  | [] => Some n
  | child :: rel' =>
      match n with
      | Dir _ (Some entries) =>
          match find_entry child entries with
          | Some e => lookup e rel'
          | None => None
          end
      | _ => None
      end
  end.

(** The part of the world the program reads: the scan root and what is
    there ([None]: nothing exists at that path). *)
Record FS : Type := mkFS {
  fs_root : Path;
  fs_tree : option node
}.

(** The node at an absolute path; paths outside the root are not there. *)
Definition node_at (fs : FS) (p : Path) : option node :=
  match relative_to p (fs_root fs), fs_tree fs with
  | Ok rel, Some n => lookup n rel
  | _, _ => None
  end.

(** [p.exists()]. *)
Definition exists_ (fs : FS) (p : Path) : bool :=
  match node_at fs p with Some _ => true | None => false end.

(** [p.stat().st_size] of a regular file. *)
Definition stat_size (fs : FS) (p : Path) : exc Z :=
  match node_at fs p with
  | Some (File _ (Some sz) _) => Ok sz
  | _ => Raise OSError
  end.

(** [open(p, 'r', encoding='utf-8').read()]. *)
Definition read_text (fs : FS) (p : Path) : exc str :=
  match node_at fs p with
  | Some (File _ _ (Text s)) => Ok s
  | Some (File _ _ (Binary _)) => Raise UnicodeDecodeError
  | _ => Raise OSError
  end.

(** [open(p, 'r', encoding='utf-8', errors='replace').read()]. *)
Definition read_text_replace (fs : FS) (p : Path) : exc str :=
  match node_at fs p with
  | Some (File _ _ (Text s)) => Ok s
  | Some (File _ _ (Binary r)) => Ok r
  | _ => Raise OSError
  end.

(** The lines of a text, each with its newline: [f.readlines()]. *)
Fixpoint readlines (s : str) : list str :=
  match s with
  | [] => []
  | c :: s' =>
      if N.eqb c chr_nl then [c] :: readlines s'
      else match readlines s' with
           | l :: ls => (c :: l) :: ls
           | [] => [[c]]
           end
  end.

(** [l[-n:]] for a positive [n]. *)
Definition last_n {A} (n : nat) (l : list A) : list A :=
  skipn (List.length l - n) l.

(** [sorted(l, key=key)] for string keys: the stable sort. *)
Fixpoint insert_by {A} (key : A -> str) (x : A) (l : list A) : list A :=
  match l with
  | [] => [x]
  | y :: l' =>
      if str_ltb (key y) (key x) then y :: insert_by key x l'
      else x :: l
  end.

Fixpoint sorted {A} (key : A -> str) (l : list A) : list A :=
  match l with
  | [] => []
  | x :: l' => insert_by key x (sorted key l')
  end.

(* ------------------------------------------------------------------ *)
(** ** Component: Project Scanner (Discovery) *)
(* ------------------------------------------------------------------ *)

(** [os.walk(top)] top-down, on the directory node [n] found at [top].
    Each step gives the directory, its sub-directories and its other
    entries; the caller prunes the sub-directory list in place before the
    walk goes on, which is the filter [keep] here.  A directory that
    cannot be listed is skipped without an error. *)
Fixpoint os_walk (keep : Path -> bool) (top : Path) (n : node)
  : list (Path * list str * list str) :=
  match n with
  | Dir _ (Some entries) =>
      let dirs :=
        flat_map (fun e => match e with Dir d _ => [d] | _ => [] end)
          entries in
      let nondirs :=
        flat_map (fun e => match e with File f _ _ => [f] | _ => [] end)
          entries in
      (top, filter (fun d => keep (div top d)) dirs, nondirs)
        :: flat_map
             (fun e =>
                match e with
                | Dir d _ =>
                    if keep (div top d) then os_walk keep (div top d) e
                    else []
                | _ => []
                end)
             entries
  | _ => []
  end.

Record ProjectScanner : Type := mkProjectScanner {
  root_dir : Path;
  git_ignore_spec : PathSpec
}.

(** The lines of the ignore file, when it is there and can be read. *)
Definition gitignore_lines (fs : FS) (root : Path) : list str :=
  let gitignore_path := div root (lit ".gitignore") in
  if exists_ fs gitignore_path then
    match read_text fs gitignore_path with
    | Ok text => readlines text
    | Raise _ => []
    end
  else [].

Definition _load_gitignore (fs : FS) (root : Path) : exc PathSpec :=
  let patterns := LanguageConfig.IGNORE_PATTERNS ++ gitignore_lines fs root in
  from_lines patterns.

(** [ProjectScanner(root_dir)]. *)
Definition new_ProjectScanner (fs : FS) (root : Path) : exc ProjectScanner :=
  spec <- _load_gitignore fs root ;;
  Ok (mkProjectScanner root spec).

Definition should_ignore (self : ProjectScanner) (file_path : Path) : bool :=
  match relative_to file_path (root_dir self) with
  | Ok rel =>
      let rel_path := as_posix rel in
      if mem (name file_path) LanguageConfig.IGNORE_PATTERNS then true
      else if match_file (git_ignore_spec self) rel_path then true
      else false
  | Raise _ => true
  end.

(** The paths the generator yields, in order. *)
Definition scan (self : ProjectScanner) (fs : FS) : list Path :=
  match node_at fs (root_dir self) with
  | Some n =>
      flat_map
        (fun step =>
           let '(root, _, files) := step in
           flat_map
             (fun file =>
                let p := div root file in
                if should_ignore self p then [] else [p])
             files)
        (os_walk (fun d => negb (should_ignore self d)) (root_dir self) n)
  | None => []
  end.

Definition dir_mark : str := [128194; 32]%N.
Definition bar_indent : str := [9474; 32; 32; 32]%N.
Definition branch : str := [9500; 9472; 9472; 32]%N.

Fixpoint repeat_str (s : str) (n : nat) : str :=
  match n with
  | O => []
  | S n' => s ++ repeat_str s n'
  end.

(** The inner loop of [generate_tree]: the directories leading to a
    file, [i] counting from [start]. *)
Fixpoint tree_dirs (parts : Path) (start : nat) (depth : nat)
  (st : list Path * list str) : list Path * list str :=
  match depth with
  | O => st
  | S depth' =>
      let parent_parts := firstn (S start) parts in
      let st' :=
        if existsb (path_eqb parent_parts) (fst st) then st
        else (parent_parts :: fst st,
              snd st ++ [repeat_str bar_indent start ++ branch
                           ++ last parent_parts [] ++ [chr_slash]]) in
      tree_dirs parts (S start) depth' st'
  end.

Definition tree_file (st : list Path * list str) (parts : Path)
  : list Path * list str :=
  let depth := (List.length parts - 1)%nat in
  let st' := tree_dirs parts 0 depth st in
  (fst st', snd st' ++ [repeat_str bar_indent depth ++ branch ++ last parts []]).

(** The paths [generate_tree] renders. *)
Definition tree_paths (self : ProjectScanner) (fs : FS) : list Path :=
  sorted path_str (scan self fs).

Fixpoint all_relative_to (paths : list Path) (root : Path) : exc (list Path) :=
  match paths with
  | [] => Ok []
  | p :: rest =>
      rel <- relative_to p root ;;
      rels <- all_relative_to rest root ;;
      Ok (rel :: rels)
  end.

Definition generate_tree (self : ProjectScanner) (fs : FS) : exc str :=
  let paths := tree_paths self fs in
  match paths with
  | [] => Ok (lit "No files found.")
  | _ =>
      rel_paths <- all_relative_to paths (root_dir self) ;;
      let tree_lines := [dir_mark ++ name (root_dir self) ++ [chr_slash]] in
      let st := fold_left tree_file rel_paths ([], tree_lines) in
      Ok (join [chr_nl] (snd st))
  end.

(* ------------------------------------------------------------------ *)
(** ** Component: File Processor (Extraction) *)
(* ------------------------------------------------------------------ *)

Definition truncation_warning (st_size : Z) : str :=
  lit "<!-- WARNING: File too large (" ++ str_of_int st_size
    ++ lit " bytes). Truncated to last 1000 lines for context. -->"
    ++ [chr_nl; chr_nl].

Definition detect_language (p : Path) : str :=
  let ext := lower (suffix p) in
  let nm := lower (name p) in
  let lang := get LanguageConfig.EXTENSION_MAP ext (lit "text") in
  let lang := if str_eqb nm (lit "dockerfile") then lit "dockerfile" else lang in
  if str_eqb nm (lit "makefile") then lit "makefile" else lang.

(** The body of the outer [try] of [FileProcessor.process]. *)
Definition process_body (fs : FS) (p root : Path) : exc (option FileArtifact) :=
  st_size <- stat_size fs p ;;
  if Z.eqb st_size 0 then Ok None
  else
    rel <- relative_to p root ;;
    let rel_path := as_posix rel in
    let ext := lower (suffix p) in
    let lang := detect_language p in
    let finish (content : str) (is_truncated : bool) :=
      let line_count := (count chr_nl content + 1)%Z in
      let token_est := (len content / CHARS_PER_TOKEN)%Z in
      Ok (Some (mkFileArtifact p rel_path ext lang st_size line_count
                  content token_est is_truncated)) in
    if Z.ltb MAX_FILE_SIZE_BYTES st_size then
      match read_text_replace fs p with
      | Ok text =>
          finish (truncation_warning st_size
                    ++ List.concat (last_n 1000 (readlines text))) true
      | Raise _ => Ok None
      end
    else
      match read_text fs p with
      | Ok text => finish text false
      | Raise UnicodeDecodeError => Ok None
      | Raise e => Raise e
      end.

(** [FileProcessor.process(path, root)]. *)
Definition process (fs : FS) (p root : Path) : option FileArtifact :=
  match process_body fs p root with
  | Ok result => result
  | Raise _ => None
  end.

(* ------------------------------------------------------------------ *)
(** ** Component: Report Generator (Output) *)
(* ------------------------------------------------------------------ *)

(** The order in which [ReportGenerator.generate] renders the files. *)
Definition sorted_artifacts (summary : ProjectSummary) : list FileArtifact :=
  sorted relative_path (artifacts summary).

(** The report, before it is laid out as Markdown: the header counts,
    the tree and the file sections in their order. *)
Record Report : Type := mkReport {
  report_files : Z;
  report_tokens : Z;
  report_tree : str;
  report_sections : list FileArtifact
}.

Definition generate (summary : ProjectSummary) : Report :=
  mkReport (total_files summary) (total_tokens summary)
    (file_tree summary) (sorted_artifacts summary).

(* ------------------------------------------------------------------ *)
(** ** Main execution controller *)
(* ------------------------------------------------------------------ *)

(** How a run ends: [sys.exit(code)], an exception nobody catches, or a
    normal return with the summary and the report when it was written. *)
Inductive Outcome : Type :=
| SysExit (code : Z)
| Uncaught (e : exn)
| Returned (summary : ProjectSummary) (written : option Report).

Definition exit_status (o : Outcome) : Z :=
  match o with
  | SysExit code => code
  | Uncaught _ => 1
  | Returned _ _ => 0
  end.

Fixpoint sum (l : list Z) : Z :=
  match l with
  | [] => 0
  | x :: l' => x + sum l'
  end.

(** [result] of every future in the order of completion, the [None]s
    dropped. *)
Fixpoint collect (fs : FS) (root : Path) (completed : list Path)
  : list FileArtifact :=
  match completed with
  | [] => []
  | f :: rest =>
      match process fs f root with
      | Some result => result :: collect fs root rest
      | None => collect fs root rest
      end
  end.

(** The files handed to the worker pool: the scanned paths other than
    the output path.  The program compares [f.resolve()] with the
    output path; here a scanned path is its own resolution. *)
Definition files_to_process (scanner : ProjectScanner) (fs : FS)
  (output_path : Path) : list Path :=
  filter (fun f => negb (path_eqb f output_path)) (scan scanner fs).

Definition aggregate (file_tree : str) (artifacts : list FileArtifact)
  : ProjectSummary :=
  mkProjectSummary (len artifacts) (sum (map lines artifacts))
    (sum (map token_estimate artifacts)) file_tree artifacts.

Section Main.

(** The order in which the pool completes the submitted files. *)
Variable as_completed : list Path -> list Path.

Definition main (fs : FS) (output_path : Path) (output_writable : bool)
  : Outcome :=
  let root_path := fs_root fs in
  if negb (exists_ fs root_path) then SysExit 1
  else
    match new_ProjectScanner fs root_path with
    | Raise e => Uncaught e
    | Ok scanner =>
        match generate_tree scanner fs with
        | Raise e => Uncaught e
        | Ok tree =>
            let files := files_to_process scanner fs output_path in
            let artifacts :=
              match files with
              | [] => []
              | _ => collect fs root_path (as_completed files)
              end in
            let summary := aggregate tree artifacts in
            let report_content := generate summary in
            Returned summary
              (if output_writable then Some report_content else None)
        end
    end.

End Main.

(* ------------------------------------------------------------------ *)
(** ** Vocabulary of the statements *)
(* ------------------------------------------------------------------ *)

Unset Implicit Arguments.

(** [reach n ds m]: going down from [n] through the names [ds] leads to
    [m]. *)
Inductive reach : node -> Path -> node -> Prop :=
| reach_here n : reach n [] n
| reach_step d entries e ds m :
    In e entries -> reach e ds m ->
    reach (Dir d (Some entries)) (node_name e :: ds) m.

Definition file_names (entries : list node) : list str :=
  flat_map (fun e => match e with File f _ _ => [f] | _ => [] end) entries.

(** [x] is not after [y] in the order of the keys. *)
Definition key_le {A : Type} (key : A -> str) (x y : A) : Prop :=
  str_leb (key x) (key y) = true.

(** A list of keys in ascending order. *)
Fixpoint ascending (ks : list str) : bool :=
  match ks with
  | [] => true
  | k :: ks' => forallb (str_leb k) ks' && ascending ks'
  end.

(** A name as a filesystem has it: no slash inside. *)
Definition slash_free (s : str) : bool := negb (existsb (N.eqb chr_slash) s).

Fixpoint valid_names (n : node) : bool :=
  match n with
  | File f _ _ => slash_free f
  | Dir d None => slash_free d
  | Dir d (Some entries) => slash_free d && forallb valid_names entries
  end.

(** An ordinary directory entry name: not empty, not the single dot, no
    slash and no newline inside. *)
Definition ordinary_name (s : str) : bool :=
  negb (is_empty s) && negb (str_eqb s [chr_dot]) && slash_free s
  && forallb (fun c => negb (N.eqb c chr_nl)) s.

(** The start of the expression of a pattern that may match at any
    depth: optionally, some directories and a slash. *)
Definition lead : Regex.regex :=
  Regex.Opt (Regex.Cat (Regex.Plus Regex.Dot) (Regex.Chr chr_slash)).

(** The compiled built-in rules. *)
Definition builtin_spec : PathSpec :=
  match from_lines LanguageConfig.IGNORE_PATTERNS with
  | Ok spec => spec
  | Raise _ => []
  end.

(* ------------------------------------------------------------------ *)
(** ** Sample trees *)
(* ------------------------------------------------------------------ *)

Module Samples.

Definition text_of (ls : list string) : str :=
  List.concat (map (fun l => lit l ++ [chr_nl]) ls).

Definition small (f : string) (body : string) : node :=
  File (lit f) (Some (len (lit body))) (Text (lit body)).

(** A project with an ignore file that negates one of its own rules and
    a built-in one; the listing order is not alphabetical. *)
Definition proj_root : Path := [lit "home"; lit "proj"].

Definition proj_tree : node :=
  Dir (lit "proj") (Some [
    small "b.txt" "bee";
    Dir (lit "venv") (Some [small "x.py" "import os"]);
    Dir (lit "src") (Some [
      small "main.go" "package main";
      File (lit "empty.txt") (Some 0%Z) (Text [])]);
    small "a.log" "noise";
    small "keep.log" "signal";
    small "a.txt" "ay";
    File (lit ".gitignore") (Some 22%Z)
      (Text (text_of ["*.log"; "!keep.log"; "!venv"]%string))
  ]).

Definition proj : FS := mkFS proj_root (Some proj_tree).

Definition proj_spec : PathSpec :=
  match _load_gitignore proj proj_root with
  | Ok spec => spec
  | Raise _ => []
  end.

Definition proj_scanner : ProjectScanner := mkProjectScanner proj_root proj_spec.

Definition proj_out : Path := [lit "home"; lit "codebase_context.md"].

(** The summary of a run over [proj] for a given order of completion. *)
Definition proj_summary (as_completed : list Path -> list Path)
  : ProjectSummary :=
  match main as_completed proj proj_out true with
  | Returned summary _ => summary
  | _ => aggregate [] []
  end.

(** A tree with a directory that cannot be listed, a binary file, a
    file that cannot be opened, a file whose [stat] fails, an empty file
    and no ignore file. *)
Definition rough_root : Path := [lit "mnt"; lit "rough"].

Definition rough : FS :=
  mkFS rough_root
    (Some (Dir (lit "rough") (Some [
       Dir (lit "locked") None;
       File (lit "blob.dat") (Some 4%Z) (Binary [65533; 65533]%N);
       File (lit "secret.txt") (Some 9%Z) Unreadable;
       File (lit "gone.txt") None (Text (lit "late"));
       File (lit "empty.txt") (Some 0%Z) (Text []);
       small "ok.txt" "fine"
     ]))).

(** A tree whose ignore file has a line that is a lone negation mark. *)
Definition broken : FS :=
  mkFS rough_root
    (Some (Dir (lit "rough") (Some [
       small "ok.txt" "fine";
       File (lit ".gitignore") (Some 2%Z) (Text (text_of ["!"]%string))
     ]))).

(** The ignore file of scenario B next to two log files. *)
Definition logs_root : Path := [lit "var"; lit "logs"].

Definition logs : FS :=
  mkFS logs_root
    (Some (Dir (lit "logs") (Some [
       small "a.log" "noise";
       small "keep.log" "signal";
       File (lit ".gitignore") (Some 16%Z)
         (Text (text_of ["*.log"; "!keep.log"]%string))
     ]))).

Definition logs_scanner : ProjectScanner :=
  match new_ProjectScanner logs logs_root with
  | Ok scanner => scanner
  | Raise _ => mkProjectScanner logs_root []
  end.

(** One file of 1,500,000 bytes in 2,000 lines. *)
Definition big_line : str := repeat 120%N 749 ++ [chr_nl].
Definition big_text : str := List.concat (repeat big_line 2000).
Definition big_root : Path := [lit "srv"; lit "data"].
Definition big_file : Path := [lit "srv"; lit "data"; lit "trace.txt"].
Definition big : FS :=
  mkFS big_root
    (Some (Dir (lit "data")
       (Some [File (lit "trace.txt") (Some 1500000%Z) (Text big_text)]))).

End Samples.

(* ------------------------------------------------------------------ *)
(** ** Vocabulary of the tree *)
(* ------------------------------------------------------------------ *)

(** The first line of the tree. *)
Definition root_line (self : ProjectScanner) : str :=
  dir_mark ++ name (root_dir self) ++ [chr_slash].

(** The line of a file, and the line of a directory, given by their
    paths relative to the root. *)
Definition file_line (rel : Path) : str :=
  repeat_str bar_indent (List.length rel - 1) ++ branch ++ last rel [].

Definition dir_line (d : Path) : str :=
  repeat_str bar_indent (List.length d - 1) ++ branch ++ last d []
    ++ [chr_slash].

(** The directories above a file, from the outermost one. *)
Definition ancestor_dirs (rel : Path) : list Path :=
  map (fun i => firstn (S i) rel) (seq 0 (List.length rel - 1)).

(** A list of names without repetition. *)
Fixpoint distinct (l : list str) : bool :=
  match l with
  | [] => true
  | x :: l' => negb (mem x l') && distinct l'
  end.

(** A tree as a filesystem has it: no two entries of a directory share
    a name. *)
Fixpoint unique_names (n : node) : bool :=
  match n with
  | File _ _ _ => true
  | Dir _ None => true
  | Dir _ (Some entries) =>
      distinct (map node_name entries) && forallb unique_names entries
  end.

(** The directory of a step of the walk. *)
Definition step_root (step : Path * list str * list str) : Path :=
  fst (fst step).

(** An expression that ends with the optional slash and anything after
    it: what follows a last segment that is not a double asterisk. *)
Inductive ends_in_dir_tail : Regex.regex -> Prop :=
| edt_here : ends_in_dir_tail dir_tail
| edt_cat a r : ends_in_dir_tail r -> ends_in_dir_tail (Regex.Cat a r).

(** Two trees that differ only in the order in which each directory
    enumerates its entries. *)
#[warnings="-register-all"]
Inductive same_tree : node -> node -> Prop :=
| same_file f st d : same_tree (File f st d) (File f st d)
| same_unlisted d : same_tree (Dir d None) (Dir d None)
| same_listed d es mid es' :
    Forall2 same_tree es mid -> Permutation mid es' ->
    same_tree (Dir d (Some es)) (Dir d (Some es')).

(** The tree with every listing in the reverse order. *)
Fixpoint mirror (n : node) : node :=
  match n with
  | Dir d (Some entries) => Dir d (Some (rev (map mirror entries)))
  | _ => n
  end.

(** The scan of one directory, written by recursion on the tree: its
    kept files, then the scans of its kept sub-directories. *)
Fixpoint scan_from (ignore : Path -> bool) (top : Path) (n : node)
  : list Path :=
  match n with
  | Dir _ (Some entries) =>
      flat_map
        (fun e =>
           match e with
           | File f _ _ => if ignore (div top f) then [] else [div top f]
           | _ => []
           end) entries
      ++ flat_map
           (fun e =>
              match e with
              | Dir d _ =>
                  if ignore (div top d) then []
                  else scan_from ignore (div top d) e
              | _ => []
              end) entries
  | _ => []
  end.

(* ------------------------------------------------------------------ *)
(** ** More samples *)
(* ------------------------------------------------------------------ *)

Module MoreSamples.

(** The artifact of the file of 1,500,000 bytes, field by field. *)
Definition big_content : str :=
  truncation_warning 1500000
    ++ List.concat (last_n 1000 (readlines Samples.big_text)).

(** The project of [Samples.proj] with every listing reversed. *)
Definition proj_mirrored : FS :=
  mkFS Samples.proj_root (Some (mirror Samples.proj_tree)).

(** The summary of a run over [proj_mirrored] for a given order of
    completion. *)
Definition mirrored_summary (as_completed : list Path -> list Path)
  : ProjectSummary :=
  match main as_completed proj_mirrored Samples.proj_out true with
  | Returned summary _ => summary
  | _ => aggregate [] []
  end.

(** A project that keeps its lock file by a negated rule. *)
Definition locked_root : Path := [lit "srv"; lit "app"].

Definition locked : FS :=
  mkFS locked_root
    (Some (Dir (lit "app") (Some [
       Samples.small "package-lock.json" "{}";
       Samples.small "main.py" "pass";
       File (lit ".gitignore") (Some 19%Z)
         (Text (Samples.text_of ["!package-lock.json"]%string))
     ]))).

Definition locked_scanner : ProjectScanner :=
  match new_ProjectScanner locked locked_root with
  | Ok scanner => scanner
  | Raise _ => mkProjectScanner locked_root []
  end.

(** A project whose ignore file excludes a directory by a rule with a
    trailing slash and takes one file below it back. *)
Definition site_root : Path := [lit "srv"; lit "site"].

Definition site : FS :=
  mkFS site_root
    (Some (Dir (lit "site") (Some [
       Dir (lit "out") (Some [
         Samples.small "keep.txt" "kept";
         Samples.small "drop.txt" "dropped"]);
       Samples.small "index.md" "# site";
       File (lit ".gitignore") (Some 19%Z)
         (Text (Samples.text_of ["out/"; "!out/keep.txt"]%string))
     ]))).

Definition site_scanner : ProjectScanner :=
  match new_ProjectScanner site site_root with
  | Ok scanner => scanner
  | Raise _ => mkProjectScanner site_root []
  end.

Definition site_summary : ProjectSummary :=
  match main (fun l => l) site Samples.proj_out true with
  | Returned summary _ => summary
  | _ => aggregate [] []
  end.

Definition big_artifact : FileArtifact :=
  mkFileArtifact Samples.big_file (lit "trace.txt") (lit ".txt") (lit "text")
    1500000
    (count chr_nl big_content + 1)%Z
    big_content
    (len big_content / CHARS_PER_TOKEN)%Z
    true.

End MoreSamples.

(* ------------------------------------------------------------------ *)
(** ** Strings and paths: basic facts *)
(* ------------------------------------------------------------------ *)

(** [str.lower] beyond ASCII: the Kelvin sign, the capital I with dot
    above, and the capital sigma at the end of a word and alone. *)
Example lower_beyond_ascii :
  lower (lit "x." ++ [8490; 84]%N) = lit "x.kt"
  /\ lower (lit "MA" ++ [8490]%N ++ lit "EFILE") = lit "makefile"
  /\ lower [304]%N = [105; 775]%N
  /\ lower [927; 916; 927; 931]%N = [959; 948; 959; 962]%N
  /\ lower [931]%N = [963]%N.
Proof. repeat split; vm_compute; reflexivity. Qed.

Lemma str_eqb_eq (a b : str) : str_eqb a b = true <-> a = b.
Proof.
  revert b; induction a as [|x a IH]; intros [|y b]; simpl;
    try (split; (discriminate || reflexivity)).
  rewrite andb_true_iff, N.eqb_eq, IH.
  split; [intros [-> ->]; reflexivity | intros H; inversion H; auto].
Qed.

Lemma str_eqb_refl (a : str) : str_eqb a a = true.
Proof. apply str_eqb_eq; reflexivity. Qed.

Lemma path_eqb_eq (p q : Path) : path_eqb p q = true <-> p = q.
Proof.
  revert q; induction p as [|x p IH]; intros [|y q]; simpl;
    try (split; (discriminate || reflexivity)).
  rewrite andb_true_iff, str_eqb_eq, IH.
  split; [intros [-> ->]; reflexivity | intros H; inversion H; auto].
Qed.

(** [relative_to] succeeds exactly on the paths below the root, and the
    only exception it raises is [ValueError]. *)
Lemma relative_to_ok (p root rel : Path) :
  relative_to p root = Ok rel <-> p = root ++ rel.
Proof.
  revert p; induction root as [|r root IH]; intros p; simpl.
  - split; [intros H; inversion H; reflexivity | intros ->; reflexivity].
  - destruct p as [|a p].
    + split; discriminate.
    + destruct (str_eqb r a) eqn:E.
      * apply str_eqb_eq in E; subst a. rewrite IH.
        split; [intros ->; reflexivity | intros H; inversion H; auto].
      * split; [discriminate|].
        intros H; inversion H; subst.
        rewrite str_eqb_refl in E; discriminate.
Qed.

Lemma relative_to_raise (p root : Path) (e : exn) :
  relative_to p root = Raise e -> e = ValueError.
Proof.
  revert p; induction root as [|r root IH]; intros p; simpl.
  - discriminate.
  - destruct p as [|a p]; [intros H; inversion H; reflexivity|].
    destruct (str_eqb r a); [apply IH | intros H; inversion H; reflexivity].
Qed.

Lemma relative_to_app (root rel : Path) : relative_to (root ++ rel) root = Ok rel.
Proof. apply relative_to_ok; reflexivity. Qed.

(* ------------------------------------------------------------------ *)
(** ** should_ignore on paths outside the root *)
(* ------------------------------------------------------------------ *)

(** C10.  A path that does not lie under the scan root, so that no path
    relative to the root can be computed for it, is reported as ignored:
    [should_ignore] returns true instead of raising. *)
Theorem should_ignore_outside_root (self : ProjectScanner) (file_path : Path) :
  (forall rel, file_path <> root_dir self ++ rel) ->
  relative_to file_path (root_dir self) = Raise ValueError
  /\ should_ignore self file_path = true.
Proof.
  intros Hout. unfold should_ignore.
  destruct (relative_to file_path (root_dir self)) as [rel|e] eqn:E.
  - apply relative_to_ok in E. destruct (Hout rel E).
  - rewrite (relative_to_raise _ _ _ E). split; reflexivity.
Qed.

Lemma should_ignore_outside_root_witness :
  should_ignore Samples.proj_scanner [lit "etc"; lit "passwd"] = true.
Proof.
  apply (should_ignore_outside_root Samples.proj_scanner [lit "etc"; lit "passwd"]).
  intros rel H. discriminate H.
Defined.

(* ------------------------------------------------------------------ *)
(** ** The file processor *)
(* ------------------------------------------------------------------ *)

(** What an artifact says about the file it was made from. *)
Lemma process_some (fs : FS) (p root : Path) (a : FileArtifact) :
  process fs p root = Some a ->
  path a = p /\ stat_size fs p = Ok (size a) /\ size a <> 0%Z
  /\ (exists rel, relative_to p root = Ok rel /\ relative_path a = as_posix rel)
  /\ lines a = (count chr_nl (content a) + 1)%Z
  /\ token_estimate a = (len (content a) / 4)%Z.
Proof.
  unfold process, process_body.
  destruct (stat_size fs p) as [sz|e] eqn:Est; simpl; [|discriminate].
  destruct (Z.eqb sz 0) eqn:Ez; [discriminate|].
  apply Z.eqb_neq in Ez.
  destruct (relative_to p root) as [rel|e] eqn:Erel; simpl; [|discriminate].
  destruct (Z.ltb MAX_FILE_SIZE_BYTES sz).
  - destruct (read_text_replace fs p) as [text|e]; [|discriminate].
    intros H; inversion H; subst a; clear H; simpl.
    repeat split; eauto.
  - destruct (read_text fs p) as [text|[]]; try discriminate.
    intros H; inversion H; subst a; clear H; simpl.
    repeat split; eauto.
Qed.

Lemma collect_In (fs : FS) (root : Path) (completed : list Path) (a : FileArtifact) :
  In a (collect fs root completed) <->
  exists f, In f completed /\ process fs f root = Some a.
Proof.
  induction completed as [|f rest IH]; simpl.
  - split; [intros [] | intros [f [[] _]]].
  - destruct (process fs f root) as [r|] eqn:E; simpl; rewrite ?IH.
    + split.
      * intros [<-|[g [Hg Hp]]]; [exists f; auto | exists g; auto].
      * intros [g [[<-|Hg] Hp]]; [left; congruence | right; exists g; auto].
    + split.
      * intros [g [Hg Hp]]; exists g; auto.
      * intros [g [[<-|Hg] Hp]]; [congruence | exists g; auto].
Qed.

(** The artifacts of a run are results of [process] on the root. *)
Lemma main_artifacts (as_completed : list Path -> list Path)
  (fs : FS) (out : Path) (w : bool) (summary : ProjectSummary)
  (written : option Report) :
  main as_completed fs out w = Returned summary written ->
  total_files summary = len (artifacts summary)
  /\ forall a, In a (artifacts summary) ->
       exists f, process fs f (fs_root fs) = Some a.
Proof.
  unfold main.
  destruct (negb (exists_ fs (fs_root fs))); [discriminate|].
  destruct (new_ProjectScanner fs (fs_root fs)) as [sc|]; [|discriminate].
  destruct (generate_tree sc fs) as [tree|]; [|discriminate].
  intros H; inversion H; subst; clear H; simpl. split; [reflexivity|].
  intros a Ha.
  destruct (files_to_process sc fs out); [destruct Ha|].
  apply collect_In in Ha. destruct Ha as [f [_ Hf]]. exists f; exact Hf.
Qed.

(** C9.  A file of zero bytes yields nothing: [process] returns [None]
    for it, no artifact of any run stands for it, and the total file
    count of the summary counts the artifacts only. *)
Theorem empty_file_produces_nothing (fs : FS) (p : Path) :
  stat_size fs p = Ok 0%Z ->
  process fs p (fs_root fs) = None
  /\ forall as_completed out w summary written,
       main as_completed fs out w = Returned summary written ->
       (forall a, In a (artifacts summary) -> path a <> p)
       /\ total_files summary = len (artifacts summary).
Proof.
  intros Hst. split.
  - unfold process, process_body. rewrite Hst. reflexivity.
  - intros ac out w summary written Hm.
    destruct (main_artifacts _ _ _ _ _ _ Hm) as [Htot Hart].
    split; [|exact Htot].
    intros a Ha Hp. destruct (Hart a Ha) as [f Hf].
    destruct (process_some _ _ _ _ Hf) as [Hpath [Hsz [Hnz _]]].
    rewrite Hpath in Hp. subst f. rewrite Hst in Hsz.
    inversion Hsz; congruence.
Qed.

Lemma empty_file_produces_nothing_witness :
  process Samples.proj (Samples.proj_root ++ [lit "src"; lit "empty.txt"])
    Samples.proj_root = None.
Proof.
  apply (empty_file_produces_nothing Samples.proj
           (Samples.proj_root ++ [lit "src"; lit "empty.txt"])).
  reflexivity.
Defined.





Lemma last_n_length {A} (n : nat) (l : list A) :
  List.length (last_n n l) = Nat.min n (List.length l).
Proof. unfold last_n. rewrite length_skipn. lia. Qed.



(** The file of 1,500,000 bytes in 2,000 lines: 1,000 lines are kept and
    the artifact counts 1,003 lines, two of them from the warning. *)
Example big_file_line_count :
  option_map (fun a => (is_truncated a, lines a, len (content a)))
    (process Samples.big Samples.big_file Samples.big_root)
  = Some (true, 1003%Z, 750093%Z).
Proof. vm_compute. reflexivity. Qed.

(* ------------------------------------------------------------------ *)
(** ** Rule evaluation *)
(* ------------------------------------------------------------------ *)

Lemma find_app_first {A} (f : A -> bool) (l1 l2 : list A) :
  find f (l1 ++ l2) =
  match find f l1 with
  | Some x => Some x
  | None => find f l2
  end.
Proof.
  induction l1 as [|x l1 IH]; simpl; [reflexivity|].
  destruct (f x); [reflexivity | exact IH].
Qed.

(** The loop of [check_match_file] ends on the flag of the last pattern
    that matches, or on the flag it started from. *)
Lemma check_match_file_last (spec : PathSpec) (file : str) (out : option bool) :
  check_match_file spec file out =
  match find (fun p => pattern_matches p file) (rev spec) with
  | Some p => include p
  | None => out
  end.
Proof.
  revert out; induction spec as [|p rest IH]; intros out; simpl.
  - reflexivity.
  - rewrite IH, find_app_first.
    destruct (find (fun q => pattern_matches q file) (rev rest)); simpl.
    + reflexivity.
    + destruct (pattern_matches p file); reflexivity.
Qed.

(** [match_file] goes through all compiled rules in the order of their
    declaration and answers with the last rule that matches. *)
Lemma match_file_last_rule (spec : PathSpec) (file : str) :
  match_file spec file =
  match find (fun p => pattern_matches p (normalize_file file)) (rev spec) with
  | Some p =>
      match include p with
      | Some verdict => verdict
      | None => false
      end
  | None => false
  end.
Proof.
  unfold match_file.
  rewrite check_match_file_last.
  destruct (find _ (rev spec)) as [p|]; [|reflexivity].
  destruct (include p) as [[|]|]; reflexivity.
Qed.

(** The verdict of the program is not always that of the last matching
    rule: with the ignore file [!package-lock.json] the last rule that
    matches [package-lock.json] is that negated one, which gives
    "included", yet [should_ignore] excludes the file and the scan does
    not yield it. *)
Lemma negated_last_rule_stays_excluded :
  new_ProjectScanner MoreSamples.locked MoreSamples.locked_root
  = Ok MoreSamples.locked_scanner
  /\ gitignore_lines MoreSamples.locked MoreSamples.locked_root
     = [lit "!package-lock.json" ++ [chr_nl]]
  /\ option_map (@include)
       (find (fun p => pattern_matches p
                         (normalize_file (lit "package-lock.json")))
          (rev (git_ignore_spec MoreSamples.locked_scanner)))
     = Some (Some false)
  /\ should_ignore MoreSamples.locked_scanner
       (MoreSamples.locked_root ++ [lit "package-lock.json"]) = true
  /\ scan MoreSamples.locked_scanner MoreSamples.locked
     = [MoreSamples.locked_root ++ [lit "main.py"];
        MoreSamples.locked_root ++ [lit ".gitignore"]].
Proof.
  repeat split; vm_compute; reflexivity.
Qed.

(** C4.  The rules are compiled in the order of their declaration, the
    built-in patterns first and the lines of the ignore file after them.
    For a path below the root [should_ignore] excludes it when its base
    name is one of the built-in patterns; otherwise its verdict is that
    of the last rule that matches the relative path: excluded when that
    rule is a plain one, included when it is negated, and included when
    no rule matches.  With the ignore file [*.log], [!keep.log] the
    scanner ignores [a.log] and keeps [keep.log]. *)
Theorem last_rule_decides_after_name_check :
  (forall (self : ProjectScanner) (file_path rel : Path),
     relative_to file_path (root_dir self) = Ok rel ->
     should_ignore self file_path =
     (mem (name file_path) LanguageConfig.IGNORE_PATTERNS
      || match find (fun p => pattern_matches p (normalize_file (as_posix rel)))
                 (rev (git_ignore_spec self)) with
         | Some p =>
             match include p with
             | Some verdict => verdict
             | None => false
             end
         | None => false
         end))
  /\ (forall (fs : FS) (root : Path) (self : ProjectScanner),
        new_ProjectScanner fs root = Ok self ->
        from_lines (LanguageConfig.IGNORE_PATTERNS ++ gitignore_lines fs root)
        = Ok (git_ignore_spec self))
  /\ gitignore_lines Samples.logs Samples.logs_root
     = [lit "*.log" ++ [chr_nl]; lit "!keep.log" ++ [chr_nl]]
  /\ new_ProjectScanner Samples.logs Samples.logs_root = Ok Samples.logs_scanner
  /\ should_ignore Samples.logs_scanner (Samples.logs_root ++ [lit "a.log"]) = true
  /\ should_ignore Samples.logs_scanner (Samples.logs_root ++ [lit "keep.log"]) = false
  /\ scan Samples.logs_scanner Samples.logs
     = [Samples.logs_root ++ [lit "keep.log"];
        Samples.logs_root ++ [lit ".gitignore"]].
Proof.
  split; [|split].
  - intros self file_path rel Hrel. unfold should_ignore. rewrite Hrel.
    cbv zeta. rewrite match_file_last_rule.
    destruct (mem (name file_path) LanguageConfig.IGNORE_PATTERNS);
      [reflexivity|].
    cbn [orb].
    match goal with
    | |- (if ?b then true else false) = _ => destruct b; reflexivity
    end.
  - intros fs root self. unfold new_ProjectScanner, _load_gitignore.
    destruct (from_lines (LanguageConfig.IGNORE_PATTERNS
                            ++ gitignore_lines fs root)) as [spec|e];
      cbn [bind]; [|discriminate].
    intros H; inversion H; reflexivity.
  - repeat split; vm_compute; reflexivity.
Qed.

Lemma last_rule_decides_after_name_check_witness :
  should_ignore Samples.logs_scanner (Samples.logs_root ++ [lit "keep.log"])
  = (mem (name (Samples.logs_root ++ [lit "keep.log"]))
       LanguageConfig.IGNORE_PATTERNS
     || match find (fun p => pattern_matches p
                               (normalize_file (as_posix [lit "keep.log"])))
                (rev (git_ignore_spec Samples.logs_scanner)) with
        | Some p =>
            match include p with
            | Some verdict => verdict
            | None => false
            end
        | None => false
        end).
Proof.
  assert (Hrel : relative_to (Samples.logs_root ++ [lit "keep.log"])
                   (root_dir Samples.logs_scanner) = Ok [lit "keep.log"])
    by (vm_compute; reflexivity).
  exact (proj1 last_rule_decides_after_name_check Samples.logs_scanner
           (Samples.logs_root ++ [lit "keep.log"]) [lit "keep.log"] Hrel).
Defined.

(* ------------------------------------------------------------------ *)
(** ** The walk *)
(* ------------------------------------------------------------------ *)

(** Induction on a tree, with the hypothesis on every entry of a listing. *)
Lemma node_induction (P : node -> Prop) :
  (forall f st d, P (File f st d)) ->
  (forall d, P (Dir d None)) ->
  (forall d entries, Forall P entries -> P (Dir d (Some entries))) ->
  forall n, P n.
Proof.
  intros HF HN HD. fix IH 1. intros [f st d | d [entries|]].
  - apply HF.
  - apply HD.
    induction entries as [|e entries IHe]; constructor; [apply IH | exact IHe].
  - apply HN.
Qed.

(** Every step of the walk is a listed directory below the top, and the
    walk went through directories that were kept only. *)
Lemma os_walk_step (keep : Path -> bool) (n : node) :
  forall top r dirs files,
    In (r, dirs, files) (os_walk keep top n) ->
    exists ds dn entries,
      r = top ++ ds
      /\ reach n ds (Dir dn (Some entries))
      /\ files = file_names entries
      /\ forall pre post, ds = pre ++ post -> pre <> [] ->
           keep (top ++ pre) = true.
Proof.
  induction n as [f st d | d | d entries IH] using node_induction;
    intros top r dirs files Hin; simpl in Hin; try contradiction.
  destruct Hin as [Heq | Hin].
  - inversion Heq; subst; clear Heq.
    exists [], d, entries. rewrite app_nil_r.
    repeat split; [constructor|].
    intros pre post Hds Hpre. destruct pre; [congruence | discriminate].
  - apply in_flat_map in Hin. destruct Hin as [e [He Hin]].
    rewrite Forall_forall in IH. specialize (IH e He).
    destruct e as [f st dt | d' l']; [contradiction|].
    destruct (keep (div top d')) eqn:Hkeep; [|contradiction].
    destruct (IH _ _ _ _ Hin) as [ds [dn [es [Hr [Hreach [Hfiles Hpre]]]]]].
    exists (d' :: ds), dn, es.
    repeat split.
    + rewrite Hr. unfold div. rewrite <- app_assoc. reflexivity.
    + apply (reach_step d entries (Dir d' l') ds _ He Hreach).
    + exact Hfiles.
    + intros pre post Hds Hne.
      destruct pre as [|x pre]; [congruence|].
      simpl in Hds. inversion Hds; subst x.
      destruct pre as [|y pre].
      * exact Hkeep.
      * replace (top ++ d' :: y :: pre) with (div top d' ++ y :: pre)
          by (unfold div; rewrite <- app_assoc; reflexivity).
        apply (Hpre (y :: pre) post); [assumption | discriminate].
Qed.

(** What [scan] yields: a file of a listed directory below the root,
    not ignored, under directories none of which is ignored. *)
Lemma scan_In (self : ProjectScanner) (fs : FS) (p : Path) :
  In p (scan self fs) ->
  exists n ds dn entries f,
    node_at fs (root_dir self) = Some n
    /\ p = root_dir self ++ ds ++ [f]
    /\ reach n ds (Dir dn (Some entries))
    /\ In f (file_names entries)
    /\ should_ignore self p = false
    /\ forall pre post, ds = pre ++ post -> pre <> [] ->
         should_ignore self (root_dir self ++ pre) = false.
Proof.
  unfold scan. destruct (node_at fs (root_dir self)) as [n|]; [|contradiction].
  intros Hin. apply in_flat_map in Hin.
  destruct Hin as [[[r dirs] files] [Hstep Hin]].
  apply in_flat_map in Hin. destruct Hin as [f [Hf Hin]].
  destruct (should_ignore self (div r f)) eqn:Hig; [contradiction|].
  destruct Hin as [<-|[]].
  destruct (os_walk_step _ _ _ _ _ _ Hstep)
    as [ds [dn [es [Hr [Hreach [Hfiles Hpre]]]]]].
  exists n, ds, dn, es, f. subst r files.
  repeat split; auto.
  - unfold div. rewrite <- app_assoc. reflexivity.
  - intros pre post Hds Hne.
    specialize (Hpre pre post Hds Hne).
    apply negb_true_iff in Hpre. exact Hpre.
Qed.

(** No directory above a scanned file is ignored. *)
Lemma scan_never_enters_ignored (self : ProjectScanner) (fs : FS)
  (p rel_dir rest : Path) :
  In p (scan self fs) ->
  p = root_dir self ++ rel_dir ++ rest ->
  rel_dir <> [] -> rest <> [] ->
  should_ignore self (root_dir self ++ rel_dir) = false.
Proof.
  intros Hin Hp Hdir Hrest.
  destruct (scan_In _ _ _ Hin) as [n [ds [dn [es [f [_ [Hp' [_ [_ [_ Hpre]]]]]]]]]].
  rewrite Hp in Hp'. apply app_inv_head in Hp'.
  destruct (exists_last Hrest) as [rest' [x Hx]]. subst rest.
  rewrite app_assoc in Hp'. apply app_inj_tail in Hp'.
  destruct Hp' as [Hds _].
  apply (Hpre rel_dir rest'); [symmetry; exact Hds | exact Hdir].
Qed.

(** A run that returns went through every stage. *)
Lemma main_returned (as_completed : list Path -> list Path)
  (fs : FS) (out : Path) (w : bool) (summary : ProjectSummary)
  (written : option Report) :
  main as_completed fs out w = Returned summary written ->
  exists scanner tree,
    exists_ fs (fs_root fs) = true
    /\ new_ProjectScanner fs (fs_root fs) = Ok scanner
    /\ generate_tree scanner fs = Ok tree
    /\ summary =
         aggregate tree
           match files_to_process scanner fs out with
           | [] => []
           | _ => collect fs (fs_root fs)
                    (as_completed (files_to_process scanner fs out))
           end
    /\ written = if w then Some (generate summary) else None.
Proof.
  unfold main.
  destruct (exists_ fs (fs_root fs)); [|discriminate]. cbn [negb].
  destruct (new_ProjectScanner fs (fs_root fs)) as [sc|]; [|discriminate].
  destruct (generate_tree sc fs) as [tree|] eqn:Et; [|discriminate].
  intros H; inversion H; subst; clear H.
  exists sc, tree. repeat (split; [reflexivity || exact Et|]). reflexivity.
Qed.

Lemma new_ProjectScanner_root (fs : FS) (root : Path) (scanner : ProjectScanner) :
  new_ProjectScanner fs root = Ok scanner -> root_dir scanner = root.
Proof.
  unfold new_ProjectScanner.
  destruct (_load_gitignore fs root); simpl; [|discriminate].
  intros H; inversion H; reflexivity.
Qed.

Section Completion.

Variable as_completed : list Path -> list Path.
Hypothesis as_completed_perm : forall l, Permutation l (as_completed l).

(** The artifacts of a run stand for scanned files. *)
Lemma artifacts_scanned (fs : FS) (out : Path) (scanner : ProjectScanner)
  (a : FileArtifact) :
  In a (match files_to_process scanner fs out with
        | [] => []
        | _ => collect fs (fs_root fs)
                 (as_completed (files_to_process scanner fs out))
        end) ->
  In (path a) (scan scanner fs)
  /\ path a <> out
  /\ process fs (path a) (fs_root fs) = Some a.
Proof.
  intros Ha.
  assert (Hc : In a (collect fs (fs_root fs)
                       (as_completed (files_to_process scanner fs out)))).
  { destruct (files_to_process scanner fs out); [destruct Ha | exact Ha]. }
  apply collect_In in Hc. destruct Hc as [f [Hf Hp]].
  apply (Permutation_in _ (Permutation_sym (as_completed_perm _))) in Hf.
  unfold files_to_process in Hf. apply filter_In in Hf.
  destruct Hf as [Hscan Hne].
  destruct (process_some _ _ _ _ Hp) as [Hpath _]. rewrite Hpath.
  repeat split; auto.
  intros ->. rewrite (proj2 (path_eqb_eq out out) eq_refl) in Hne.
  discriminate.
Qed.

(** C8.  The walk does not go into a directory that [should_ignore],
    called as the walk calls it on the path of the directory without a
    trailing slash, reports as ignored: no artifact of a run has such a
    directory among the directories above it, at any depth below the
    root. *)
Theorem ignored_directory_never_entered (fs : FS) (out : Path) (w : bool)
  (scanner : ProjectScanner) (summary : ProjectSummary)
  (written : option Report) (a : FileArtifact) (rel_dir rest : Path) :
  new_ProjectScanner fs (fs_root fs) = Ok scanner ->
  main as_completed fs out w = Returned summary written ->
  In a (artifacts summary) ->
  path a = fs_root fs ++ rel_dir ++ rest ->
  rel_dir <> [] -> rest <> [] ->
  In (path a) (scan scanner fs)
  /\ should_ignore scanner (fs_root fs ++ rel_dir) = false.
Proof.
  intros Hsc Hm Ha Hp Hdir Hrest.
  destruct (main_returned _ _ _ _ _ _ Hm) as [sc [tree [_ [Hsc' [_ [Hs _]]]]]].
  rewrite Hsc in Hsc'. inversion Hsc'; subst sc; clear Hsc'.
  subst summary. unfold aggregate in Ha. cbn [artifacts] in Ha.
  destruct (artifacts_scanned _ _ _ _ Ha) as [Hscan _].
  split; [exact Hscan|].
  pose proof (new_ProjectScanner_root _ _ _ Hsc) as Hroot.
  rewrite <- Hroot.
  apply (scan_never_enters_ignored scanner fs (path a) rel_dir rest);
    try assumption.
  rewrite Hroot. exact Hp.
Qed.

End Completion.

Lemma ignored_directory_never_entered_witness :
  should_ignore Samples.proj_scanner (Samples.proj_root ++ [lit "src"]) = false.
Proof.
  eapply proj2.
  eapply (ignored_directory_never_entered (@rev Path) (@Permutation_rev Path)
            Samples.proj Samples.proj_out true Samples.proj_scanner
            _ _ _ [lit "src"] [lit "main.go"]).
  - vm_compute; reflexivity.
  - vm_compute; reflexivity.
  - vm_compute. left; reflexivity.
  - reflexivity.
  - discriminate.
  - discriminate.
Defined.

(** A rule that names a directory with a trailing slash marks the
    directory ignored when it is tested as a directory, but the walk
    tests the path without the slash, enters the directory and leaves
    its files to the rules: with [out/] and [!out/keep.txt] the run
    produces an artifact for [out/keep.txt]. *)
Lemma directory_rule_does_not_prune :
  new_ProjectScanner MoreSamples.site MoreSamples.site_root
  = Ok MoreSamples.site_scanner
  /\ gitignore_lines MoreSamples.site MoreSamples.site_root
     = [lit "out/" ++ [chr_nl]; lit "!out/keep.txt" ++ [chr_nl]]
  /\ match_file (git_ignore_spec MoreSamples.site_scanner) (lit "out/") = true
  /\ should_ignore MoreSamples.site_scanner
       (MoreSamples.site_root ++ [lit "out"]) = false
  /\ scan MoreSamples.site_scanner MoreSamples.site
     = [MoreSamples.site_root ++ [lit "index.md"];
        MoreSamples.site_root ++ [lit ".gitignore"];
        MoreSamples.site_root ++ [lit "out"; lit "keep.txt"]]
  /\ main (fun l => l) MoreSamples.site Samples.proj_out true
     = Returned MoreSamples.site_summary
         (Some (generate MoreSamples.site_summary))
  /\ map relative_path (artifacts MoreSamples.site_summary)
     = [lit "index.md"; lit ".gitignore"; lit "out/keep.txt"].
Proof.
  repeat split; vm_compute; reflexivity.
Qed.

(* ------------------------------------------------------------------ *)
(** ** The order of strings and the stable sort *)
(* ------------------------------------------------------------------ *)

Lemma str_ltb_irrefl (a : str) : str_ltb a a = false.
Proof.
  induction a as [|x a IH]; simpl; [reflexivity|].
  rewrite N.ltb_irrefl, N.eqb_refl. exact IH.
Qed.

Lemma str_trichotomy (a b : str) :
  str_ltb a b = true \/ a = b \/ str_ltb b a = true.
Proof.
  revert b; induction a as [|x a IH]; intros [|y b]; simpl; auto.
  destruct (N.ltb_spec x y) as [Hxy|Hxy]; [auto|].
  destruct (N.eqb_spec x y) as [->|Hne].
  - rewrite N.ltb_irrefl, N.eqb_refl.
    destruct (IH b) as [H|[->|H]]; auto.
  - right; right.
    destruct (N.ltb_spec y x) as [_|Hyx]; [reflexivity | lia].
Qed.

Lemma str_ltb_trans (a b c : str) :
  str_ltb a b = true -> str_ltb b c = true -> str_ltb a c = true.
Proof.
  revert b c; induction a as [|x a IH]; intros [|y b] [|z c]; simpl;
    try discriminate; auto.
  destruct (N.ltb_spec x y) as [Hxy|Hxy];
    destruct (N.ltb_spec y z) as [Hyz|Hyz];
    destruct (N.ltb_spec x z) as [Hxz|Hxz]; auto; try lia;
    destruct (N.eqb_spec x y); destruct (N.eqb_spec y z);
    destruct (N.eqb_spec x z); try discriminate; try lia; auto.
  apply IH.
Qed.

Lemma str_ltb_asym (a b : str) : str_ltb a b = true -> str_ltb b a = false.
Proof.
  intros H. destruct (str_ltb b a) eqn:E; [|reflexivity].
  pose proof (str_ltb_trans _ _ _ H E) as Hc.
  rewrite str_ltb_irrefl in Hc. discriminate.
Qed.

Lemma str_leb_total (a b : str) : str_leb a b = true \/ str_leb b a = true.
Proof.
  unfold str_leb.
  destruct (str_ltb b a) eqn:E; [right | left; reflexivity].
  rewrite (str_ltb_asym _ _ E). reflexivity.
Qed.

Lemma str_leb_trans (a b c : str) :
  str_leb a b = true -> str_leb b c = true -> str_leb a c = true.
Proof.
  unfold str_leb. rewrite !negb_true_iff. intros Hba Hcb.
  destruct (str_ltb c a) eqn:Hca; [|reflexivity].
  destruct (str_trichotomy a b) as [Hab|[->|Hab]].
  - rewrite (str_ltb_trans _ _ _ Hca Hab) in Hcb. discriminate.
  - congruence.
  - congruence.
Qed.

Lemma str_leb_antisym (a b : str) :
  str_leb a b = true -> str_leb b a = true -> a = b.
Proof.
  unfold str_leb. rewrite !negb_true_iff. intros Hba Hab.
  destruct (str_trichotomy a b) as [H|[H|H]]; congruence.
Qed.

Section StableSort.

Context {A : Type} (key : A -> str).

Lemma key_le_trans : Transitive (key_le key).
Proof. intros x y z. apply str_leb_trans. Qed.

Lemma insert_by_perm (x : A) (l : list A) :
  Permutation (insert_by key x l) (x :: l).
Proof.
  induction l as [|y l IH]; simpl; [reflexivity|].
  destruct (str_ltb (key y) (key x)); [|reflexivity].
  rewrite IH. apply perm_swap.
Qed.

Lemma sorted_perm (l : list A) : Permutation (sorted key l) l.
Proof.
  induction l as [|x l IH]; simpl; [reflexivity|].
  rewrite insert_by_perm, IH. reflexivity.
Qed.

Lemma insert_by_sorted (x : A) (l : list A) :
  StronglySorted (key_le key) l -> StronglySorted (key_le key) (insert_by key x l).
Proof.
  induction 1 as [|y l Hl IH Hy]; simpl.
  - constructor; constructor.
  - destruct (str_ltb (key y) (key x)) eqn:E.
    + constructor; [exact IH|].
      rewrite Forall_forall in *. intros z Hz.
      apply (Permutation_in _ (insert_by_perm x l)) in Hz.
      destruct Hz as [<-|Hz]; [|auto].
      unfold key_le, str_leb. rewrite (str_ltb_asym _ _ E). reflexivity.
    + assert (Hxy : (key_le key) x y) by (unfold key_le, str_leb; rewrite E; reflexivity).
      constructor; [constructor; assumption|].
      constructor; [exact Hxy|].
      rewrite Forall_forall in *. intros z Hz.
      apply (key_le_trans _ _ _ Hxy). auto.
Qed.

Lemma sorted_sorted (l : list A) : StronglySorted (key_le key) (sorted key l).
Proof.
  induction l as [|x l IH]; simpl; [constructor | apply insert_by_sorted; exact IH].
Qed.

(** Two sorted arrangements of the same elements are the same list when
    equal keys mean equal elements. *)
Lemma sorted_arrangement_unique (l1 l2 : list A) :
  (forall x y, In x l1 -> In y l1 -> key x = key y -> x = y) ->
  StronglySorted (key_le key) l1 -> StronglySorted (key_le key) l2 ->
  Permutation l1 l2 -> l1 = l2.
Proof.
  intros Hinj H1; revert l2; induction H1 as [|x l1 Hl1 IH Hx];
    intros l2 H2 Hp.
  - apply Permutation_nil in Hp. auto.
  - destruct H2 as [|y l2 Hl2 Hy].
    + apply Permutation_sym, Permutation_nil in Hp. discriminate.
    + assert (Hxy : x = y).
      { assert (Hyin : In y (x :: l1))
          by (apply (Permutation_in _ (Permutation_sym Hp)); left; reflexivity).
        assert (Hxin : In x (y :: l2))
          by (apply (Permutation_in _ Hp); left; reflexivity).
        destruct Hyin as [->|Hyin]; [reflexivity|].
        destruct Hxin as [->|Hxin]; [reflexivity|].
        rewrite Forall_forall in Hx, Hy.
        apply Hinj; [left; reflexivity | right; exact Hyin|].
        apply str_leb_antisym; [apply Hx; exact Hyin | apply Hy; exact Hxin]. }
      subst y. f_equal.
      apply IH.
      * intros a b Ha Hb. apply Hinj; right; assumption.
      * exact Hl2.
      * apply Permutation_cons_inv in Hp. exact Hp.
Qed.

(** The stable sort of two arrangements of the same elements. *)
Lemma sorted_of_permutation (l1 l2 : list A) :
  (forall x y, In x l1 -> In y l1 -> key x = key y -> x = y) ->
  Permutation l1 l2 -> sorted key l1 = sorted key l2.
Proof.
  intros Hinj Hp.
  apply sorted_arrangement_unique.
  - intros x y Hx Hy. apply Hinj; apply (Permutation_in _ (sorted_perm l1)); assumption.
  - apply sorted_sorted.
  - apply sorted_sorted.
  - rewrite !sorted_perm. exact Hp.
Qed.

End StableSort.

Lemma strongly_sorted_ascending {A} (key : A -> str) (l : list A) :
  StronglySorted (key_le key) l <-> ascending (map key l) = true.
Proof.
  induction l as [|x l IH]; simpl.
  - split; [reflexivity | constructor].
  - rewrite andb_true_iff, forallb_forall, <- IH. split.
    + intros H; inversion H as [|? ? Hl Hx]; subst. split; [|exact Hl].
      rewrite Forall_forall in Hx. intros k Hk.
      apply in_map_iff in Hk. destruct Hk as [y [<- Hy]]. apply Hx; exact Hy.
    + intros [Hx Hl]. constructor; [exact Hl|].
      rewrite Forall_forall. intros y Hy. apply Hx. apply in_map; exact Hy.
Qed.

Lemma Permutation_filter {A} (f : A -> bool) (l1 l2 : list A) :
  Permutation l1 l2 -> Permutation (filter f l1) (filter f l2).
Proof.
  induction 1 as [|x l1 l2 _ IH|x y l|l1 l2 l3 _ IH1 _ IH2]; simpl.
  - constructor.
  - destruct (f x); [constructor|]; exact IH.
  - destruct (f x), (f y); try reflexivity. apply perm_swap.
  - rewrite IH1. exact IH2.
Qed.

(* ------------------------------------------------------------------ *)
(** ** Order of the path lists *)
(* ------------------------------------------------------------------ *)

(** C3, as the claim states it, fails: with a listing that enumerates
    [b.txt] before [a.txt] the list handed to the worker pool is in that
    order. *)
Lemma ingestion_list_unsorted :
  files_to_process Samples.proj_scanner Samples.proj Samples.proj_out
  = map (fun rel => Samples.proj_root ++ map lit rel)
      [ ["b.txt"]; ["keep.log"]; ["a.txt"]; [".gitignore"];
        ["src"; "main.go"]; ["src"; "empty.txt"] ]%string
  /\ ~ (StronglySorted (key_le path_str)
          (tree_paths Samples.proj_scanner Samples.proj)
        /\ StronglySorted (key_le path_str)
             (files_to_process Samples.proj_scanner Samples.proj
                Samples.proj_out)).
Proof.
  split; [vm_compute; reflexivity|].
  intros [_ H]. apply strongly_sorted_ascending in H.
  vm_compute in H. discriminate.
Qed.

(** C3, amended.  The path list that the tree is rendered from is
    sorted by the string form of the paths, whatever the order of the
    listings; the list handed to the worker pool holds the same paths,
    less the output file, in the order of the walk. *)
Theorem tree_paths_sorted (scanner : ProjectScanner) (fs : FS) (out : Path) :
  StronglySorted (key_le path_str) (tree_paths scanner fs)
  /\ Permutation (tree_paths scanner fs) (scan scanner fs)
  /\ files_to_process scanner fs out
     = filter (fun f => negb (path_eqb f out)) (scan scanner fs)
  /\ Permutation (files_to_process scanner fs out)
       (filter (fun f => negb (path_eqb f out)) (tree_paths scanner fs)).
Proof.
  unfold tree_paths. repeat split.
  - apply sorted_sorted.
  - apply sorted_perm.
  - unfold files_to_process. apply Permutation_filter.
    symmetry. apply sorted_perm.
Qed.

(* ------------------------------------------------------------------ *)
(** ** Names and relative paths *)
(* ------------------------------------------------------------------ *)

Lemma split_slash_free (s : str) :
  slash_free s = true -> split chr_slash s = [s].
Proof.
  unfold slash_free.
  induction s as [|c s IH]; cbn [existsb split app]; [reflexivity|].
  rewrite negb_orb, andb_true_iff. intros [Hc Hs].
  rewrite N.eqb_sym. apply negb_true_iff in Hc. rewrite Hc.
  rewrite (IH Hs). reflexivity.
Qed.

Lemma split_app_slash (s rest : str) :
  slash_free s = true ->
  split chr_slash (s ++ chr_slash :: rest) = s :: split chr_slash rest.
Proof.
  unfold slash_free.
  induction s as [|c s IH]; cbn [existsb split app]; [reflexivity|].
  rewrite negb_orb, andb_true_iff. intros [Hc Hs].
  rewrite N.eqb_sym. apply negb_true_iff in Hc. rewrite Hc.
  rewrite (IH Hs). reflexivity.
Qed.

Lemma split_join (rel : Path) :
  rel <> [] -> forallb slash_free rel = true ->
  split chr_slash (join [chr_slash] rel) = rel.
Proof.
  induction rel as [|s rel IH]; [congruence|]. intros _.
  simpl. rewrite andb_true_iff. intros [Hs Hrel].
  destruct rel as [|t rel].
  - apply split_slash_free; exact Hs.
  - simpl app. rewrite (split_app_slash _ _ Hs). f_equal.
    apply IH; [discriminate | exact Hrel].
Qed.

Lemma as_posix_inj (rel1 rel2 : Path) :
  rel1 <> [] -> rel2 <> [] ->
  forallb slash_free rel1 = true -> forallb slash_free rel2 = true ->
  as_posix rel1 = as_posix rel2 -> rel1 = rel2.
Proof.
  intros N1 N2 V1 V2 H.
  rewrite <- (split_join rel1 N1 V1), <- (split_join rel2 N2 V2).
  destruct rel1; [congruence|]. destruct rel2; [congruence|].
  unfold as_posix in H. rewrite H. reflexivity.
Qed.

Lemma reach_valid (n m : node) (ds : Path) :
  reach n ds m -> valid_names n = true ->
  forallb slash_free ds = true /\ valid_names m = true.
Proof.
  induction 1 as [n | d entries e ds m He Hreach IH]; intros Hv.
  - split; [reflexivity | exact Hv].
  - simpl in Hv. apply andb_true_iff in Hv. destruct Hv as [_ Hes].
    rewrite forallb_forall in Hes. specialize (Hes e He).
    destruct (IH Hes) as [Hds Hm]. split; [|exact Hm].
    simpl. rewrite Hds, andb_true_r.
    destruct e as [f st dt | d' [l|]]; simpl in *; auto.
    apply andb_true_iff in Hes. tauto.
Qed.

Lemma file_names_valid (d : str) (entries : list node) (f : str) :
  valid_names (Dir d (Some entries)) = true ->
  In f (file_names entries) -> slash_free f = true.
Proof.
  simpl. rewrite andb_true_iff, forallb_forall. intros [_ Hes] Hf.
  apply in_flat_map in Hf. destruct Hf as [e [He Hf]].
  specialize (Hes e He).
  destruct e as [g st dt | d' l]; [|destruct Hf].
  destruct Hf as [<-|[]]. exact Hes.
Qed.

Lemma node_at_root (fs : FS) (n : node) :
  fs_tree fs = Some n -> node_at fs (fs_root fs) = Some n.
Proof.
  intros H. unfold node_at.
  replace (relative_to (fs_root fs) (fs_root fs)) with (@Ok Path []).
  - rewrite H. reflexivity.
  - symmetry. apply relative_to_ok. rewrite app_nil_r. reflexivity.
Qed.

(** A scanned path, relative to the root. *)
Lemma scan_relative (self : ProjectScanner) (fs : FS) (p : Path) :
  In p (scan self fs) ->
  exists rel, p = root_dir self ++ rel /\ rel <> []
    /\ relative_to p (root_dir self) = Ok rel.
Proof.
  intros Hin.
  destruct (scan_In _ _ _ Hin) as [n [ds [dn [es [f [_ [Hp _]]]]]]].
  exists (ds ++ [f]). repeat split.
  - exact Hp.
  - destruct ds; discriminate.
  - rewrite Hp. apply relative_to_app.
Qed.

Lemma scan_slash_free (self : ProjectScanner) (fs : FS) (n : node)
  (p rel : Path) :
  root_dir self = fs_root fs ->
  fs_tree fs = Some n -> valid_names n = true ->
  In p (scan self fs) -> p = fs_root fs ++ rel ->
  forallb slash_free rel = true.
Proof.
  intros Hroot Htree Hv Hin Hp.
  destruct (scan_In _ _ _ Hin)
    as [n' [ds [dn [es [f [Hn [Hp' [Hreach [Hf _]]]]]]]]].
  rewrite Hroot, (node_at_root _ _ Htree) in Hn.
  inversion Hn; subst n'; clear Hn.
  rewrite Hroot, Hp in Hp'. apply app_inv_head in Hp'. subst rel.
  destruct (reach_valid _ _ _ Hreach Hv) as [Hds Hm].
  rewrite forallb_app, Hds. simpl.
  rewrite (file_names_valid _ _ _ Hm Hf). reflexivity.
Qed.

Lemma collect_perm (fs : FS) (root : Path) (l1 l2 : list Path) :
  Permutation l1 l2 ->
  Permutation (collect fs root l1) (collect fs root l2).
Proof.
  induction 1 as [|x l1 l2 _ IH|x y l|l1 l2 l3 _ IH1 _ IH2]; simpl.
  - constructor.
  - destruct (process fs x root); [constructor|]; exact IH.
  - destruct (process fs x root), (process fs y root); try reflexivity.
    apply perm_swap.
  - rewrite IH1. exact IH2.
Qed.

Lemma sum_perm (l1 l2 : list Z) : Permutation l1 l2 -> sum l1 = sum l2.
Proof.
  induction 1; simpl; lia.
Qed.

Lemma len_perm {A} (l1 l2 : list A) : Permutation l1 l2 -> len l1 = len l2.
Proof.
  intros H. unfold len. rewrite (Permutation_length H). reflexivity.
Qed.

(* ------------------------------------------------------------------ *)
(** ** Aggregation and the order of the artifacts *)
(* ------------------------------------------------------------------ *)

(** C1, as the claim states it, fails: the summary keeps the artifacts
    in the order of completion.  When the files complete in the order of
    their submission the list is not sorted, and it differs from the
    list of a run that completes them in the reverse order. *)
Lemma summary_artifacts_in_completion_order :
  main (fun l => l) Samples.proj Samples.proj_out true
  = Returned (Samples.proj_summary (fun l => l))
      (Some (generate (Samples.proj_summary (fun l => l))))
  /\ map relative_path (artifacts (Samples.proj_summary (fun l => l)))
     = map lit ["b.txt"; "keep.log"; "a.txt"; ".gitignore"; "src/main.go"]%string
  /\ ~ StronglySorted (key_le relative_path)
         (artifacts (Samples.proj_summary (fun l => l)))
  /\ artifacts (Samples.proj_summary (fun l => l))
     <> artifacts (Samples.proj_summary (@rev Path)).
Proof.
  split; [vm_compute; reflexivity|].
  split; [vm_compute; reflexivity|].
  split.
  - intros H. apply strongly_sorted_ascending in H.
    vm_compute in H. discriminate.
  - intros H. apply (f_equal (map relative_path)) in H.
    vm_compute in H. discriminate.
Qed.

Section TwoRuns.

Variables as_completed1 as_completed2 : list Path -> list Path.
Hypothesis perm1 : forall l, Permutation l (as_completed1 l).
Hypothesis perm2 : forall l, Permutation l (as_completed2 l).

(** Artifacts of one run with the same relative path are the same
    artifact, in a tree whose names have no slash. *)
Lemma artifact_keys_distinct (fs : FS) (out : Path) (n : node)
  (scanner : ProjectScanner) (a b : FileArtifact) :
  fs_tree fs = Some n -> valid_names n = true ->
  root_dir scanner = fs_root fs ->
  In (path a) (scan scanner fs) -> process fs (path a) (fs_root fs) = Some a ->
  In (path b) (scan scanner fs) -> process fs (path b) (fs_root fs) = Some b ->
  relative_path a = relative_path b -> a = b.
Proof.
  intros Htree Hv Hroot Ha Hpa Hb Hpb Hkey.
  destruct (scan_relative _ _ _ Ha) as [ra [Hra [Nra _]]].
  destruct (scan_relative _ _ _ Hb) as [rb [Hrb [Nrb _]]].
  rewrite Hroot in Hra, Hrb.
  pose proof (scan_slash_free _ _ _ _ _ Hroot Htree Hv Ha Hra) as Va.
  pose proof (scan_slash_free _ _ _ _ _ Hroot Htree Hv Hb Hrb) as Vb.
  destruct (process_some _ _ _ _ Hpa) as [_ [_ [_ [[ra' [Hra' Hka]] _]]]].
  destruct (process_some _ _ _ _ Hpb) as [_ [_ [_ [[rb' [Hrb' Hkb]] _]]]].
  apply relative_to_ok in Hra', Hrb'.
  rewrite Hra in Hra'. apply app_inv_head in Hra'. subst ra'.
  rewrite Hrb in Hrb'. apply app_inv_head in Hrb'. subst rb'.
  rewrite Hka, Hkb in Hkey.
  pose proof (as_posix_inj _ _ Nra Nrb Va Vb Hkey) as Hrel.
  assert (Hp : path a = path b) by congruence.
  rewrite Hp in Hpa. congruence.
Qed.

(** C1, amended.  The artifact list of the summary is the list in the
    order of completion; the list that the report is rendered from is
    that list sorted by relative path.  In a tree whose names hold no
    slash, two runs over the same tree render the same list, artifact by
    artifact, and have the same totals and the same report, however the
    files completed. *)
Theorem report_order_independent (fs : FS) (out : Path) (w : bool) (n : node)
  (s1 s2 : ProjectSummary) (r1 r2 : option Report) :
  fs_tree fs = Some n -> valid_names n = true ->
  main as_completed1 fs out w = Returned s1 r1 ->
  main as_completed2 fs out w = Returned s2 r2 ->
  StronglySorted (key_le relative_path) (sorted_artifacts s1)
  /\ Permutation (sorted_artifacts s1) (artifacts s1)
  /\ Permutation (artifacts s1) (artifacts s2)
  /\ sorted_artifacts s1 = sorted_artifacts s2
  /\ total_files s1 = total_files s2
  /\ total_lines s1 = total_lines s2
  /\ total_tokens s1 = total_tokens s2
  /\ r1 = r2
  /\ exists scanner,
       new_ProjectScanner fs (fs_root fs) = Ok scanner
       /\ artifacts s1
          = match files_to_process scanner fs out with
            | [] => []
            | _ => collect fs (fs_root fs)
                     (as_completed1 (files_to_process scanner fs out))
            end.
Proof.
  intros Htree Hv Hm1 Hm2.
  destruct (main_returned _ _ _ _ _ _ Hm1) as [sc [tree [_ [Hsc [Ht [Hs1 Hr1]]]]]].
  destruct (main_returned _ _ _ _ _ _ Hm2) as [sc' [tree' [_ [Hsc' [Ht' [Hs2 Hr2]]]]]].
  rewrite Hsc in Hsc'. inversion Hsc'; subst sc'; clear Hsc'.
  rewrite Ht in Ht'. inversion Ht'; subst tree'; clear Ht'.
  pose proof (new_ProjectScanner_root _ _ _ Hsc) as Hroot.
  set (files := files_to_process sc fs out) in *.
  set (l1 := match files with
             | [] => []
             | _ => collect fs (fs_root fs) (as_completed1 files)
             end) in *.
  set (l2 := match files with
             | [] => []
             | _ => collect fs (fs_root fs) (as_completed2 files)
             end) in *.
  assert (Hperm : Permutation l1 l2).
  { subst l1 l2. destruct files as [|f files']; [reflexivity|].
    apply collect_perm.
    rewrite <- (perm1 (f :: files')). apply perm2. }
  assert (Hinj : forall a b, In a l1 -> In b l1 ->
                   relative_path a = relative_path b -> a = b).
  { intros a b Ha Hb.
    destruct (artifacts_scanned as_completed1 perm1 fs out sc a Ha) as [Hsa [_ Hpa]].
    destruct (artifacts_scanned as_completed1 perm1 fs out sc b Hb) as [Hsb [_ Hpb]].
    apply (artifact_keys_distinct fs out n sc a b); assumption. }
  assert (Hsorted : sorted relative_path l1 = sorted relative_path l2)
    by (apply sorted_of_permutation; assumption).
  assert (Hfiles : len l1 = len l2) by (apply len_perm; exact Hperm).
  assert (Hlines : sum (map lines l1) = sum (map lines l2))
    by (apply sum_perm, Permutation_map; exact Hperm).
  assert (Htokens : sum (map token_estimate l1) = sum (map token_estimate l2))
    by (apply sum_perm, Permutation_map; exact Hperm).
  subst s1 s2. unfold sorted_artifacts, aggregate in *.
  cbn [artifacts total_files total_lines total_tokens] in *.
  repeat split; try assumption.
  - apply sorted_sorted.
  - apply sorted_perm.
  - subst r1 r2. destruct w; [|reflexivity].
    unfold generate, sorted_artifacts.
    cbn [artifacts total_files total_tokens file_tree].
    rewrite Hsorted, Hfiles, Htokens. reflexivity.
  - exists sc. split; [exact Hsc | reflexivity].
Qed.

End TwoRuns.

Lemma report_order_independent_witness :
  sorted_artifacts (Samples.proj_summary (fun l => l))
  = sorted_artifacts (Samples.proj_summary (@rev Path)).
Proof.
  eapply (report_order_independent (fun l => l) (@rev Path)
            (fun l => Permutation_refl l) (@Permutation_rev Path)
            Samples.proj Samples.proj_out true Samples.proj_tree
            (Samples.proj_summary (fun l => l))
            (Samples.proj_summary (@rev Path))).
  - reflexivity.
  - vm_compute; reflexivity.
  - vm_compute; reflexivity.
  - vm_compute; reflexivity.
Defined.

(* ------------------------------------------------------------------ *)
(** ** How a run ends *)
(* ------------------------------------------------------------------ *)

Lemma from_lines_app (l1 l2 : list str) :
  from_lines (l1 ++ l2) =
  (ps1 <- from_lines l1 ;; ps2 <- from_lines l2 ;; Ok (ps1 ++ ps2)).
Proof.
  induction l1 as [|line l1 IH]; cbn [app from_lines bind].
  - destruct (from_lines l2); reflexivity.
  - destruct (is_empty line); [exact IH|].
    destruct (GitWildMatchPattern line) as [pat|e]; cbn [bind]; [|reflexivity].
    rewrite IH.
    destruct (from_lines l1) as [ps1|]; cbn [bind]; [|reflexivity].
    destruct (from_lines l2); reflexivity.
Qed.

Lemma builtin_compiles :
  from_lines LanguageConfig.IGNORE_PATTERNS = Ok builtin_spec.
Proof. vm_compute. reflexivity. Qed.

Lemma load_gitignore_ok (fs : FS) (root : Path) (project_rules : PathSpec) :
  from_lines (gitignore_lines fs root) = Ok project_rules ->
  _load_gitignore fs root = Ok (builtin_spec ++ project_rules).
Proof.
  intros H. unfold _load_gitignore.
  rewrite from_lines_app, builtin_compiles, H. reflexivity.
Qed.

Lemma all_relative_to_ok (paths : list Path) (root : Path) :
  (forall p, In p paths -> exists rel, relative_to p root = Ok rel) ->
  exists rels, all_relative_to paths root = Ok rels.
Proof.
  induction paths as [|p paths IH]; intros H; cbn [all_relative_to].
  - eexists; reflexivity.
  - destruct (H p (or_introl eq_refl)) as [rel ->].
    destruct IH as [rels ->]; [intros q Hq; apply H; right; exact Hq|].
    eexists; reflexivity.
Qed.

(** Rendering the tree raises nothing: every scanned path is below the
    root. *)
Lemma generate_tree_ok (scanner : ProjectScanner) (fs : FS) :
  exists tree, generate_tree scanner fs = Ok tree.
Proof.
  unfold generate_tree.
  destruct (tree_paths scanner fs) as [|p paths] eqn:E; [eexists; reflexivity|].
  destruct (all_relative_to_ok (p :: paths) (root_dir scanner)) as [rels ->].
  - intros q Hq. rewrite <- E in Hq. unfold tree_paths in Hq.
    apply (Permutation_in _ (sorted_perm path_str (scan scanner fs))) in Hq.
    destruct (scan_relative _ _ _ Hq) as [rel [_ [_ Hrel]]].
    exists rel; exact Hrel.
  - eexists; reflexivity.
Qed.

(** C5.  The run is to end with a non-zero status when the output
    cannot be written, as it does when the root is missing.  It does
    not: the failure is logged and [main] returns, so that the status is
    zero. *)
Lemma unwritable_output_status_zero :
  exists_ Samples.proj Samples.proj_root = true
  /\ exit_status (main (fun l => l) Samples.proj Samples.proj_out false) = 0%Z
  /\ ~ (exit_status (main (fun l => l) Samples.proj Samples.proj_out false)
          <> 0%Z
        <-> (exists_ Samples.proj Samples.proj_root = false \/ false = false)).
Proof.
  assert (E : exit_status (main (fun l => l) Samples.proj Samples.proj_out false)
              = 0%Z) by (vm_compute; reflexivity).
  split; [reflexivity|]. split; [exact E|].
  intros [_ H]. apply H; [right; reflexivity | exact E].
Qed.

(** What the run does on such a tree: with an ignore file that is
    absent, unreadable or made of lines the pattern compiler accepts, it
    ends with a non-zero status exactly when the root path does not
    exist.  When the root
    exists the run returns a summary with status zero whatever the
    files and directories below it are like, and whether or not the
    output can be written; the report is written only in the latter
    case.  A missing ignore file leaves the built-in rules alone. *)
Theorem nonzero_status_iff_root_missing (as_completed : list Path -> list Path)
  (fs : FS) (out : Path) (w : bool) (project_rules : PathSpec) :
  from_lines (gitignore_lines fs (fs_root fs)) = Ok project_rules ->
  (exit_status (main as_completed fs out w) <> 0%Z
   <-> exists_ fs (fs_root fs) = false)
  /\ (exists_ fs (fs_root fs) = false ->
      main as_completed fs out w = SysExit 1)
  /\ (exists_ fs (fs_root fs) = true ->
      exists summary,
        main as_completed fs out w
        = Returned summary (if w then Some (generate summary) else None))
  /\ (exists_ fs (div (fs_root fs) (lit ".gitignore")) = false ->
      _load_gitignore fs (fs_root fs) = Ok builtin_spec).
Proof.
  intros Hrules.
  assert (Hmissing : exists_ fs (fs_root fs) = false ->
                     main as_completed fs out w = SysExit 1).
  { intros E. unfold main. rewrite E. reflexivity. }
  assert (Hthere : exists_ fs (fs_root fs) = true ->
            exists summary,
              main as_completed fs out w
              = Returned summary (if w then Some (generate summary) else None)).
  { intros E. unfold main. rewrite E. cbn [negb].
    unfold new_ProjectScanner.
    rewrite (load_gitignore_ok _ _ _ Hrules). cbn [bind].
    destruct (generate_tree_ok
                (mkProjectScanner (fs_root fs) (builtin_spec ++ project_rules)) fs)
      as [tree ->].
    eexists. reflexivity. }
  repeat split.
  - intros Hst. destruct (exists_ fs (fs_root fs)) eqn:E; [|reflexivity].
    destruct (Hthere eq_refl) as [summary Hm].
    rewrite Hm in Hst. contradiction Hst. reflexivity.
  - intros E. rewrite (Hmissing E). discriminate.
  - exact Hmissing.
  - exact Hthere.
  - intros E. unfold _load_gitignore, gitignore_lines. rewrite E.
    rewrite app_nil_r. apply builtin_compiles.
Qed.

Lemma nonzero_status_iff_root_missing_witness :
  exists summary,
    main (@rev Path) Samples.rough Samples.proj_out false
    = Returned summary None.
Proof.
  eapply (nonzero_status_iff_root_missing (@rev Path) Samples.rough
            Samples.proj_out false []).
  - reflexivity.
  - reflexivity.
Defined.

(** The run over the rough tree keeps the one file that can be read. *)
Example rough_tree_run :
  match main (@rev Path) Samples.rough Samples.proj_out true with
  | Returned summary (Some _) =>
      map relative_path (artifacts summary) = [lit "ok.txt"]
      /\ total_files summary = 1%Z
  | _ => False
  end.
Proof. vm_compute. split; reflexivity. Qed.

(** An ignore file with a line the pattern compiler rejects: the
    exception leaves [main]. *)
Example rejected_ignore_line :
  main (@rev Path) Samples.broken Samples.proj_out true
  = Uncaught GitWildMatchPatternError.
Proof. vm_compute. reflexivity. Qed.

(* ------------------------------------------------------------------ *)
(** ** The derivative matcher decides the language *)
(* ------------------------------------------------------------------ *)

Module RegexFacts.
Import Regex.

Lemma lang_void (s : str) : ~ lang Void s.
Proof. intros H; inversion H. Qed.

Lemma eps_inv (s : str) : lang Eps s -> s = [].
Proof. intros H; inversion H; reflexivity. Qed.

Lemma sym_inv (p : char -> bool) (s : str) :
  lang (Sym p) s -> exists c, s = [c] /\ p c = true.
Proof. intros H; inversion H; subst; eauto. Qed.

Lemma cat_inv (r1 r2 : regex) (s : str) :
  lang (Cat r1 r2) s ->
  exists s1 s2, s = s1 ++ s2 /\ lang r1 s1 /\ lang r2 s2.
Proof. intros H; inversion H; subst; eauto. Qed.

Lemma alt_inv (r1 r2 : regex) (s : str) :
  lang (Alt r1 r2) s -> lang r1 s \/ lang r2 s.
Proof. intros H; inversion H; subst; auto. Qed.

Lemma lang_cat (a b : regex) (s : str) : lang (cat a b) s <-> lang (Cat a b) s.
Proof.
  unfold cat.
  destruct (is_void a) eqn:Ea.
  { destruct a; try discriminate. cbn [orb]. split; intros H.
    - destruct (lang_void _ H).
    - destruct (cat_inv _ _ _ H) as [s1 [s2 [_ [H1 _]]]].
      destruct (lang_void _ H1). }
  destruct (is_void b) eqn:Eb.
  { destruct b; try discriminate. cbn [orb]. split; intros H.
    - destruct (lang_void _ H).
    - destruct (cat_inv _ _ _ H) as [s1 [s2 [_ [_ H2]]]].
      destruct (lang_void _ H2). }
  reflexivity.
Qed.

Lemma lang_alt (a b : regex) (s : str) : lang (alt a b) s <-> lang (Alt a b) s.
Proof.
  unfold alt.
  destruct (is_void a) eqn:Ea.
  { destruct a; try discriminate. split; intros H.
    - apply L_alt_r; exact H.
    - destruct (alt_inv _ _ _ H) as [H'|H']; [destruct (lang_void _ H') | exact H']. }
  destruct (is_void b) eqn:Eb.
  { destruct b; try discriminate. split; intros H.
    - apply L_alt_l; exact H.
    - destruct (alt_inv _ _ _ H) as [H'|H']; [exact H' | destruct (lang_void _ H')]. }
  reflexivity.
Qed.

Lemma nullable_lang (r : regex) : nullable r = true <-> lang r [].
Proof.
  induction r as [| |p|r1 IH1 r2 IH2|r1 IH1 r2 IH2|r IH]; cbn [nullable].
  - split; [discriminate | intros H; destruct (lang_void _ H)].
  - split; [constructor | reflexivity].
  - split; [discriminate|].
    intros H. destruct (sym_inv _ _ H) as [c [E _]]. discriminate.
  - rewrite andb_true_iff, IH1, IH2. split.
    + intros [H1 H2]. apply (@L_cat r1 r2 [] [] H1 H2).
    + intros H. destruct (cat_inv _ _ _ H) as [s1 [s2 [E [H1 H2]]]].
      symmetry in E. apply app_eq_nil in E. destruct E; subst. auto.
  - rewrite orb_true_iff, IH1, IH2. split.
    + intros [H|H]; [apply L_alt_l | apply L_alt_r]; exact H.
    + apply alt_inv.
  - split; [constructor | reflexivity].
Qed.

Lemma star_cons_inv_gen (r' : regex) (s' : str) :
  lang r' s' ->
  forall r c s, r' = Star r -> s' = c :: s ->
  exists s1 s2, s = s1 ++ s2 /\ lang r (c :: s1) /\ lang (Star r) s2.
Proof.
  induction 1 as [|p0 c0 Hp|a b t1 t2 Ha IHa Hb IHb|a b t Ha IHa|a b t Hb IHb
                 |a|a t1 t2 H1 IH1 H2 IH2];
    intros r c s Er Es; try discriminate.
  inversion Er; subst a; clear Er.
  destruct t1 as [|c1 t1].
  - simpl in Es. apply (IH2 r c s eq_refl Es).
  - simpl in Es. inversion Es; subst c1 s; clear Es.
    exists t1, t2. auto.
Qed.

Lemma star_cons_inv (r : regex) (c : char) (s : str) :
  lang (Star r) (c :: s) ->
  exists s1 s2, s = s1 ++ s2 /\ lang r (c :: s1) /\ lang (Star r) s2.
Proof. intros H. apply (star_cons_inv_gen _ _ H r c s eq_refl eq_refl). Qed.

Lemma deriv_lang (r : regex) (c : char) :
  forall s, lang (deriv c r) s <-> lang r (c :: s).
Proof.
  induction r as [| |p|r1 IH1 r2 IH2|r1 IH1 r2 IH2|r IH]; intros s;
    cbn [deriv].
  - split; intros H; destruct (lang_void _ H).
  - split; intros H; [destruct (lang_void _ H)|].
    apply eps_inv in H. discriminate.
  - split; intros H.
    + destruct (p c) eqn:Ep; [|destruct (lang_void _ H)].
      apply eps_inv in H. subst s. constructor; exact Ep.
    + destruct (sym_inv _ _ H) as [c' [E Hp]]. inversion E; subst c' s.
      rewrite Hp. constructor.
  - rewrite lang_alt. split; intros H.
    + destruct (alt_inv _ _ _ H) as [HL|HR].
      * apply lang_cat in HL.
        destruct (cat_inv _ _ _ HL) as [s1 [s2 [-> [H1 H2]]]].
        apply IH1 in H1. apply (@L_cat r1 r2 (c :: s1) s2 H1 H2).
      * destruct (nullable r1) eqn:En; [|destruct (lang_void _ HR)].
        apply nullable_lang in En. apply IH2 in HR.
        apply (@L_cat r1 r2 [] (c :: s) En HR).
    + destruct (cat_inv _ _ _ H) as [s1 [s2 [E [H1 H2]]]].
      destruct s1 as [|c1 s1]; simpl in E.
      * subst s2. apply L_alt_r.
        apply nullable_lang in H1. rewrite H1. apply IH2; exact H2.
      * inversion E; subst c1 s; clear E. apply L_alt_l.
        apply lang_cat. apply L_cat; [apply IH1; exact H1 | exact H2].
  - rewrite lang_alt. split; intros H.
    + destruct (alt_inv _ _ _ H) as [H'|H'];
        [apply L_alt_l, IH1 | apply L_alt_r, IH2]; exact H'.
    + destruct (alt_inv _ _ _ H) as [H'|H'];
        [apply L_alt_l, IH1 | apply L_alt_r, IH2]; exact H'.
  - rewrite lang_cat. split; intros H.
    + destruct (cat_inv _ _ _ H) as [s1 [s2 [-> [H1 H2]]]].
      apply IH in H1. apply (@L_star_cons r (c :: s1) s2 H1 H2).
    + destruct (star_cons_inv _ _ _ H) as [s1 [s2 [-> [H1 H2]]]].
      apply L_cat; [apply IH; exact H1 | exact H2].
Qed.

Theorem fullmatch_lang (r : regex) (s : str) :
  fullmatch r s = true <-> lang r s.
Proof.
  revert r; induction s as [|c s IH]; intros r; cbn [fullmatch].
  - apply nullable_lang.
  - rewrite IH. apply deriv_lang.
Qed.

(** A run of characters other than newlines is matched by a dot star. *)
Lemma lang_star_dot (s : str) :
  forallb (fun c => negb (N.eqb c chr_nl)) s = true -> lang (Star Dot) s.
Proof.
  induction s as [|c s IH]; cbn [forallb]; intros H.
  - constructor.
  - apply andb_true_iff in H. destruct H as [Hc Hs].
    apply (@L_star_cons Dot [c] s); [constructor; exact Hc | apply IH; exact Hs].
Qed.

End RegexFacts.

(* ------------------------------------------------------------------ *)
(** ** The exact-name check and the full rule set *)
(* ------------------------------------------------------------------ *)

(** C2, as the claim states it, fails: an ignore file that negates a
    built-in name re-includes it for the full rule set, while the
    exact-name check still excludes it. *)
Lemma fast_path_overrides_negation :
  new_ProjectScanner Samples.proj Samples.proj_root = Ok Samples.proj_scanner
  /\ relative_to (Samples.proj_root ++ [lit "venv"]) Samples.proj_root
     = Ok [lit "venv"]
  /\ should_ignore Samples.proj_scanner (Samples.proj_root ++ [lit "venv"]) = true
  /\ match_file (git_ignore_spec Samples.proj_scanner) (as_posix [lit "venv"])
     = false
  /\ should_ignore Samples.proj_scanner (Samples.proj_root ++ [lit "venv"])
     <> match_file (git_ignore_spec Samples.proj_scanner) (as_posix [lit "venv"]).
Proof.
  repeat split; try (vm_compute; reflexivity).
  vm_compute. discriminate.
Qed.

(** Every built-in pattern compiles to a plain rule that may match at
    any depth, and the pattern taken as a name is matched by its own
    expression. *)
Lemma builtin_shape :
  Forall
    (fun b =>
       is_empty b = false
       /\ exists rest,
            GitWildMatchPattern b
            = Ok (mkPattern (Some true) (Some (Regex.Cat lead rest)))
            /\ Regex.fullmatch rest b = true)
    LanguageConfig.IGNORE_PATTERNS.
Proof.
  unfold LanguageConfig.IGNORE_PATTERNS. cbn [map].
  repeat (apply Forall_cons;
          [split; [reflexivity|];
           eexists; split; [vm_compute; reflexivity | vm_compute; reflexivity]|]).
  apply Forall_nil.
Qed.

Lemma from_lines_In (ls : list str) (spec : PathSpec) (l : str) :
  from_lines ls = Ok spec -> In l ls -> is_empty l = false ->
  exists p, GitWildMatchPattern l = Ok p /\ In p spec.
Proof.
  revert spec; induction ls as [|x ls IH]; intros spec Hc Hin Hne;
    [destruct Hin|].
  cbn [from_lines] in Hc.
  destruct Hin as [->|Hin].
  - rewrite Hne in Hc.
    destruct (GitWildMatchPattern l) as [p|]; cbn [bind] in Hc; [|discriminate].
    destruct (from_lines ls) as [ps|]; cbn [bind] in Hc; [|discriminate].
    inversion Hc; subst. exists p. split; [reflexivity | left; reflexivity].
  - destruct (is_empty x).
    + apply (IH spec Hc Hin Hne).
    + destruct (GitWildMatchPattern x) as [px|]; cbn [bind] in Hc; [|discriminate].
      destruct (from_lines ls) as [ps|]; cbn [bind] in Hc; [|discriminate].
      inversion Hc; subst.
      destruct (IH ps eq_refl Hin Hne) as [p [Hp Hps]].
      exists p. split; [exact Hp | right; exact Hps].
Qed.

Lemma mem_In (x : str) (l : list str) : mem x l = true <-> In x l.
Proof.
  unfold mem. rewrite existsb_exists. split.
  - intros [y [Hy E]]. apply str_eqb_eq in E. subst; exact Hy.
  - intros H. exists x. split; [exact H | apply str_eqb_refl].
Qed.

Lemma join_snoc (sep : str) (dirs : list str) (b : str) :
  dirs <> [] -> join sep (dirs ++ [b]) = join sep dirs ++ sep ++ b.
Proof.
  induction dirs as [|d dirs IH]; [congruence|]. intros _.
  destruct dirs as [|d' dirs].
  - reflexivity.
  - change (join sep ((d :: d' :: dirs) ++ [b]))
      with (d ++ sep ++ join sep ((d' :: dirs) ++ [b])).
    rewrite IH by discriminate.
    change (join sep (d :: d' :: dirs)) with (d ++ sep ++ join sep (d' :: dirs)).
    rewrite <- !app_assoc. reflexivity.
Qed.

Lemma join_cons (sep : str) (d : str) (rest : list str) :
  exists tail, join sep (d :: rest) = d ++ tail
    /\ (tail = [] \/ exists tail', tail = sep ++ tail').
Proof.
  destruct rest as [|d' rest].
  - exists []. rewrite app_nil_r. auto.
  - exists (sep ++ join sep (d' :: rest)). split; [reflexivity|].
    right. eexists; reflexivity.
Qed.

Lemma ordinary_name_parts (s : str) :
  ordinary_name s = true ->
  s <> [] /\ s <> [chr_dot] /\ slash_free s = true
  /\ forallb (fun c => negb (N.eqb c chr_nl)) s = true.
Proof.
  unfold ordinary_name. rewrite !andb_true_iff, !negb_true_iff.
  intros [[[H1 H2] H3] H4]. repeat split; auto.
  - intros ->. discriminate.
  - intros ->. discriminate.
Qed.

Lemma join_no_newline (dirs : list str) :
  forallb ordinary_name dirs = true ->
  forallb (fun c => negb (N.eqb c chr_nl)) (join [chr_slash] dirs) = true.
Proof.
  induction dirs as [|d dirs IH]; [reflexivity|].
  cbn [forallb]. rewrite andb_true_iff. intros [Hd Hdirs].
  destruct (ordinary_name_parts _ Hd) as [_ [_ [_ Hnl]]].
  destruct dirs as [|d' dirs]; [exact Hnl|].
  change (join [chr_slash] (d :: d' :: dirs))
    with (d ++ [chr_slash] ++ join [chr_slash] (d' :: dirs)).
  rewrite !forallb_app.
  apply andb_true_iff; split; [exact Hnl|].
  apply andb_true_iff; split; [reflexivity | exact (IH Hdirs)].
Qed.

(** The relative path of ordinary names is what the matcher sees. *)
Lemma normalize_file_ordinary (rel : Path) :
  rel <> [] -> forallb ordinary_name rel = true ->
  normalize_file (as_posix rel) = as_posix rel.
Proof.
  destruct rel as [|d rest]; [congruence|]. intros _.
  cbn [forallb]. rewrite andb_true_iff. intros [Hd _].
  destruct (ordinary_name_parts _ Hd) as [Hne [Hdot [Hsl _]]].
  unfold as_posix.
  destruct (join_cons [chr_slash] d rest) as [tail [-> Htail]].
  destruct d as [|c d]; [congruence|].
  unfold slash_free in Hsl. cbn [existsb] in Hsl.
  rewrite negb_orb, andb_true_iff in Hsl. destruct Hsl as [Hc Hd'].
  apply negb_true_iff in Hc.
  unfold normalize_file. cbn [app startswith].
  rewrite Hc. cbn [andb].
  destruct (N.eqb chr_dot c) eqn:Edot; [|reflexivity].
  apply N.eqb_eq in Edot. subst c.
  destruct d as [|c2 d].
  - congruence.
  - cbn [existsb] in Hd'. rewrite negb_orb, andb_true_iff in Hd'.
    destruct Hd' as [Hc2 _]. apply negb_true_iff in Hc2.
    cbn [app startswith]. rewrite Hc2. reflexivity.
Qed.

(** A rule that may match at any depth matches a path of ordinary
    directory names that ends in a name its own expression matches. *)
Lemma lead_rest_matches (rest : Regex.regex) (b : str) (dirs : list str) :
  Regex.fullmatch rest b = true ->
  forallb ordinary_name dirs = true ->
  Regex.re_match (Regex.Cat lead rest) (join [chr_slash] (dirs ++ [b])) = true.
Proof.
  intros Hb Hdirs. unfold Regex.re_match.
  apply RegexFacts.fullmatch_lang in Hb.
  apply RegexFacts.fullmatch_lang.
  rewrite <- (app_nil_r (join [chr_slash] (dirs ++ [b]))).
  apply Regex.L_cat; [|apply Regex.L_alt_l; constructor].
  destruct dirs as [|d dirs].
  - apply (@Regex.L_cat lead rest [] b); [|exact Hb].
    apply Regex.L_alt_l. constructor.
  - rewrite join_snoc by discriminate. rewrite app_assoc.
    apply Regex.L_cat; [|exact Hb].
    apply Regex.L_alt_r. apply Regex.L_cat.
    + pose proof (join_no_newline _ Hdirs) as Hnl.
      destruct (join_cons [chr_slash] d dirs) as [tail [E _]].
      cbn [forallb] in Hdirs. apply andb_true_iff in Hdirs.
      destruct (ordinary_name_parts _ (proj1 Hdirs)) as [Hne _].
      destruct d as [|c d]; [congruence|].
      rewrite E in *. cbn [app forallb] in *.
      apply andb_true_iff in Hnl. destruct Hnl as [Hc Hrest].
      apply (@Regex.L_cat Regex.Dot (Regex.Star Regex.Dot) [c] (d ++ tail)).
      * constructor. exact Hc.
      * apply RegexFacts.lang_star_dot. exact Hrest.
    + constructor. apply N.eqb_refl.
Qed.

(** A matching plain rule and no matching negated rule: excluded. *)
Lemma match_file_true (spec : PathSpec) (file : str) (p : Pattern) :
  In p spec -> pattern_matches p (normalize_file file) = true ->
  (forall q, In q spec -> include q = Some false ->
     pattern_matches q (normalize_file file) = false) ->
  match_file spec file = true.
Proof.
  intros Hp Hm Hneg. unfold match_file. rewrite check_match_file_last.
  destruct (find _ (rev spec)) as [q|] eqn:Ef.
  - apply find_some in Ef. destruct Ef as [Hq Hqm].
    apply in_rev in Hq.
    destruct (include q) as [[|]|] eqn:Ei; [reflexivity| |].
    + rewrite (Hneg q Hq Ei) in Hqm. discriminate.
    + unfold pattern_matches in Hqm. rewrite Ei in Hqm. discriminate.
  - assert (Hin : In p (rev spec)) by (apply in_rev in Hp; exact Hp).
    pose proof (find_none _ _ Ef p Hin) as Hf. cbv beta in Hf.
    rewrite Hm in Hf. discriminate.
Qed.

Lemma name_app (root rel : Path) : rel <> [] -> name (root ++ rel) = name rel.
Proof.
  intros H. unfold name.
  destruct (exists_last H) as [rel' [x ->]].
  rewrite app_assoc, !last_last. reflexivity.
Qed.

(** C2, amended.  For a path of ordinary names below the root, the
    verdict of [should_ignore] and the verdict of the full rule set
    differ in one direction only: whatever the rule set excludes,
    [should_ignore] excludes.  They are equal when the base name is not
    a built-in pattern, and when no negated rule matches the path.  A
    built-in name that a negated rule of the ignore file matches stays
    excluded. *)
Theorem fast_path_agrees_without_negation (fs : FS) (root : Path)
  (self : ProjectScanner) (file_path rel : Path) :
  new_ProjectScanner fs root = Ok self ->
  relative_to file_path root = Ok rel ->
  rel <> [] ->
  forallb ordinary_name rel = true ->
  (match_file (git_ignore_spec self) (as_posix rel) = true ->
   should_ignore self file_path = true)
  /\ (mem (name file_path) LanguageConfig.IGNORE_PATTERNS = false ->
      should_ignore self file_path
      = match_file (git_ignore_spec self) (as_posix rel))
  /\ (mem (name file_path) LanguageConfig.IGNORE_PATTERNS = true ->
      should_ignore self file_path = true)
  /\ ((forall q, In q (git_ignore_spec self) -> include q = Some false ->
         pattern_matches q (as_posix rel) = false) ->
      should_ignore self file_path
      = match_file (git_ignore_spec self) (as_posix rel)).
Proof.
  intros Hnew Hrel Hne Hord.
  pose proof (new_ProjectScanner_root _ _ _ Hnew) as Hroot.
  assert (Hsi : should_ignore self file_path
                = if mem (name file_path) LanguageConfig.IGNORE_PATTERNS
                  then true
                  else match_file (git_ignore_spec self) (as_posix rel)).
  { unfold should_ignore. rewrite Hroot, Hrel.
    destruct (mem _ _); [reflexivity|].
    destruct (match_file _ _); reflexivity. }
  rewrite Hsi.
  split; [intros ->; destruct (mem _ _); reflexivity|].
  split; [intros ->; reflexivity|].
  split; [intros ->; reflexivity|].
  intros Hneg.
  destruct (mem (name file_path) LanguageConfig.IGNORE_PATTERNS) eqn:Hmem;
    [|reflexivity].
  symmetry.
  (* the base name is a built-in pattern, and that pattern is a rule *)
  apply mem_In in Hmem.
  pose proof builtin_shape as Hshape. rewrite Forall_forall in Hshape.
  destruct (Hshape _ Hmem) as [Hnonempty [rest [Hcompile Hself]]].
  unfold new_ProjectScanner, _load_gitignore in Hnew.
  destruct (from_lines (LanguageConfig.IGNORE_PATTERNS
                          ++ gitignore_lines fs root)) as [spec|] eqn:Hspec;
    cbn [bind] in Hnew; [|discriminate].
  inversion Hnew; subst self; clear Hnew. cbn [git_ignore_spec] in *.
  destruct (from_lines_In _ _ (name file_path) Hspec
              (in_or_app _ _ _ (or_introl Hmem)) Hnonempty) as [p [Hp Hin]].
  rewrite Hcompile in Hp. inversion Hp; subst p; clear Hp.
  (* that rule matches the relative path *)
  apply relative_to_ok in Hrel.
  assert (Hname : name file_path = name rel)
    by (rewrite Hrel; apply name_app; exact Hne).
  destruct (exists_last Hne) as [dirs [b Hb]].
  assert (Hbn : name rel = b) by (rewrite Hb; unfold name; apply last_last).
  assert (Hdirs : forallb ordinary_name dirs = true).
  { rewrite Hb, forallb_app in Hord. apply andb_true_iff in Hord. tauto. }
  pose proof (normalize_file_ordinary rel Hne Hord) as Hnorm.
  assert (Hposix : as_posix rel = join [chr_slash] (dirs ++ [b])).
  { rewrite Hb. unfold as_posix. destruct (dirs ++ [b]) eqn:E; [|reflexivity].
    destruct dirs; discriminate. }
  apply (match_file_true spec (as_posix rel)
           (mkPattern (Some true) (Some (Regex.Cat lead rest)))).
  - exact Hin.
  - rewrite Hnorm, Hposix. unfold pattern_matches. cbn [include regex_body].
    apply lead_rest_matches; [|exact Hdirs].
    rewrite <- Hbn, <- Hname. exact Hself.
  - rewrite Hnorm. exact Hneg.
Qed.

Lemma fast_path_agrees_without_negation_witness :
  should_ignore Samples.logs_scanner
    (Samples.logs_root ++ [lit "sub"; lit "node_modules"])
  = match_file (git_ignore_spec Samples.logs_scanner)
      (as_posix [lit "sub"; lit "node_modules"]).
Proof.
  eapply (fast_path_agrees_without_negation Samples.logs Samples.logs_root
            Samples.logs_scanner
            (Samples.logs_root ++ [lit "sub"; lit "node_modules"])
            [lit "sub"; lit "node_modules"]).
  - vm_compute; reflexivity.
  - reflexivity.
  - discriminate.
  - vm_compute; reflexivity.
  - assert (H : forallb
                  (fun q =>
                     match include q with
                     | Some false =>
                         negb (pattern_matches q
                                 (as_posix [lit "sub"; lit "node_modules"]))
                     | _ => true
                     end) (git_ignore_spec Samples.logs_scanner) = true)
      by (vm_compute; reflexivity).
    rewrite forallb_forall in H.
    intros q Hq Hi. specialize (H q Hq). rewrite Hi in H.
    apply negb_true_iff in H. exact H.
Defined.

(* ------------------------------------------------------------------ *)
(** ** The order of the built-in set *)
(* ------------------------------------------------------------------ *)

(** [list(IGNORE_PATTERNS)] enumerates a set, in an order the program
    does not control.  The verdicts do not depend on it: the built-in
    rules are all plain and come before the rules of the ignore file. *)

Lemma check_match_file_app (a b : PathSpec) (file : str) (out : option bool) :
  check_match_file (a ++ b) file out
  = check_match_file b file (check_match_file a file out).
Proof.
  revert out; induction a as [|p a IH]; intros out; cbn [app check_match_file].
  - reflexivity.
  - apply IH.
Qed.

Lemma check_match_file_plain (rules : PathSpec) (file : str) (out : option bool) :
  (forall p, In p rules -> include p = Some true) ->
  check_match_file rules file out
  = if existsb (fun p => pattern_matches p file) rules then Some true else out.
Proof.
  revert out; induction rules as [|p rules IH]; intros out Hplain;
    cbn [check_match_file existsb].
  - reflexivity.
  - rewrite IH by (intros q Hq; apply Hplain; right; exact Hq).
    rewrite (Hplain p (or_introl eq_refl)).
    destruct (pattern_matches p file); cbn [orb];
      destruct (existsb _ rules); reflexivity.
Qed.

Lemma existsb_perm {A} (f : A -> bool) (l1 l2 : list A) :
  Permutation l1 l2 -> existsb f l1 = existsb f l2.
Proof.
  induction 1 as [|x l1 l2 _ IH|x y l|l1 l2 l3 _ IH1 _ IH2]; cbn [existsb].
  - reflexivity.
  - rewrite IH; reflexivity.
  - destruct (f x), (f y); reflexivity.
  - rewrite IH1; exact IH2.
Qed.

Lemma from_lines_perm (l1 l2 : list str) :
  Permutation l1 l2 ->
  forall s1, from_lines l1 = Ok s1 ->
  exists s2, from_lines l2 = Ok s2 /\ Permutation s1 s2.
Proof.
  induction 1 as [|x l1 l2 _ IH|x y l|l1 l2 l3 _ IH1 _ IH2];
    intros s1 H1; cbn [from_lines] in *.
  - exists s1. split; [exact H1 | reflexivity].
  - destruct (is_empty x); [apply IH; exact H1|].
    destruct (GitWildMatchPattern x) as [px|]; cbn [bind] in *; [|discriminate].
    destruct (from_lines l1) as [ps|]; cbn [bind] in *; [|discriminate].
    inversion H1; subst s1; clear H1.
    destruct (IH ps eq_refl) as [ps2 [-> Hp]]. cbn [bind].
    exists (px :: ps2). split; [reflexivity | constructor; exact Hp].
  - destruct (is_empty x), (is_empty y);
      try (exists s1; split; [exact H1 | reflexivity]).
    destruct (GitWildMatchPattern y) as [py|]; cbn [bind] in *; [|discriminate].
    destruct (GitWildMatchPattern x) as [px|]; cbn [bind] in *; [|discriminate].
    destruct (from_lines l) as [ps|]; cbn [bind] in *; [|discriminate].
    inversion H1; subst s1; clear H1.
    exists (px :: py :: ps). split; [reflexivity | apply perm_swap].
  - destruct (IH1 s1 H1) as [s2 [H2 Hp12]].
    destruct (IH2 s2 H2) as [s3 [H3 Hp23]].
    exists s3. split; [exact H3 | rewrite Hp12; exact Hp23].
Qed.

Lemma builtin_plain : forall p, In p builtin_spec -> include p = Some true.
Proof.
  assert (H : forallb
                (fun p => match include p with Some true => true | _ => false end)
                builtin_spec = true) by (vm_compute; reflexivity).
  rewrite forallb_forall in H. intros p Hp. specialize (H p Hp). clear Hp.
  destruct (include p) as [[|]|]; [reflexivity | discriminate H | discriminate H].
Qed.

(** Whatever the order in which the built-in set is enumerated, the
    rule set compiles and gives the same verdict on every file. *)
Lemma builtin_order_irrelevant (order lines : list str) (spec : PathSpec) :
  Permutation LanguageConfig.IGNORE_PATTERNS order ->
  from_lines (LanguageConfig.IGNORE_PATTERNS ++ lines) = Ok spec ->
  exists spec',
    from_lines (order ++ lines) = Ok spec'
    /\ forall file, match_file spec' file = match_file spec file.
Proof.
  intros Hperm Hspec.
  rewrite from_lines_app, builtin_compiles in Hspec. cbn [bind] in Hspec.
  destruct (from_lines lines) as [project|] eqn:Hproject;
    cbn [bind] in Hspec; [|discriminate].
  assert (E : spec = builtin_spec ++ project) by congruence.
  subst spec; clear Hspec.
  destruct (from_lines_perm _ _ Hperm _ builtin_compiles) as [b' [Hb' Hp]].
  exists (b' ++ project). split.
  - rewrite from_lines_app, Hb', Hproject. reflexivity.
  - intros file. unfold match_file. rewrite !check_match_file_app.
    rewrite (check_match_file_plain builtin_spec) by apply builtin_plain.
    rewrite (check_match_file_plain b').
    + rewrite (existsb_perm _ _ _ Hp). reflexivity.
    + intros p Hin. apply builtin_plain.
      apply (Permutation_in _ (Permutation_sym Hp)). exact Hin.
Qed.

(* ------------------------------------------------------------------ *)
(** ** More on the file processor *)
(* ------------------------------------------------------------------ *)

Lemma count_nonneg (c : char) (s : str) : (0 <= count c s)%Z.
Proof. unfold count. lia. Qed.

Lemma count_app (c : char) (s t : str) :
  count c (s ++ t) = (count c s + count c t)%Z.
Proof.
  unfold count. rewrite filter_app, length_app, Nat2Z.inj_add. reflexivity.
Qed.

Lemma len_nonneg {A} (l : list A) : (0 <= len l)%Z.
Proof. unfold len. lia. Qed.

(** X1.  Whatever [process] returns as an artifact describes the file it
    was given: the path, the size that [stat] reported, which is not
    zero, and a relative path below the root.  The artifact is flagged
    as truncated exactly when the size is above 1,000,000 bytes; it has
    at least one line, and four times the token estimate never exceeds
    the length of the content. *)
Theorem artifact_invariants (fs : FS) (p root : Path) (a : FileArtifact) :
  process fs p root = Some a ->
  path a = p
  /\ stat_size fs p = Ok (size a)
  /\ size a <> 0%Z
  /\ (exists rel, p = root ++ rel /\ relative_path a = as_posix rel)
  /\ (is_truncated a = true <-> (1000000 < size a)%Z)
  /\ (1 <= lines a)%Z
  /\ (0 <= token_estimate a)%Z
  /\ (4 * token_estimate a <= len (content a))%Z
  /\ extension a = lower (suffix p)
  /\ language a = detect_language p.
Proof.
  unfold process, process_body.
  destruct (stat_size fs p) as [sz|e] eqn:Est; cbn [bind]; [|discriminate].
  destruct (Z.eqb sz 0) eqn:Ez; [discriminate|].
  apply Z.eqb_neq in Ez.
  destruct (relative_to p root) as [rel|e] eqn:Erel; cbn [bind]; [|discriminate].
  apply relative_to_ok in Erel.
  unfold MAX_FILE_SIZE_BYTES, CHARS_PER_TOKEN.
  destruct (Z.ltb 1000000 sz) eqn:Elt.
  - apply Z.ltb_lt in Elt.
    destruct (read_text_replace fs p) as [text|e]; [|discriminate].
    intros H; inversion H; subst a; clear H.
    cbn [path size relative_path is_truncated lines token_estimate content
         extension language].
    match goal with
    | |- context [count chr_nl ?c] =>
        pose proof (count_nonneg chr_nl c); pose proof (len_nonneg c);
        pose proof (Z.mul_div_le (len c) 4 eq_refl);
        pose proof (Z.div_pos (len c) 4)
    end.
    repeat split; try lia; eauto.
  - apply Z.ltb_ge in Elt.
    destruct (read_text fs p) as [text|[]]; try discriminate.
    intros H; inversion H; subst a; clear H.
    cbn [path size relative_path is_truncated lines token_estimate content
         extension language].
    pose proof (count_nonneg chr_nl text). pose proof (len_nonneg text).
    pose proof (Z.mul_div_le (len text) 4 eq_refl).
    pose proof (Z.div_pos (len text) 4).
    repeat split; try lia; eauto; try discriminate.
Qed.

Lemma artifact_invariants_witness :
  exists a,
    process Samples.proj (Samples.proj_root ++ [lit "a.txt"]) Samples.proj_root
    = Some a
    /\ path a = Samples.proj_root ++ [lit "a.txt"]
    /\ (is_truncated a = true <-> (1000000 < size a)%Z).
Proof.
  eexists. split; [vm_compute; reflexivity|].
  split.
  - eapply (artifact_invariants Samples.proj
              (Samples.proj_root ++ [lit "a.txt"]) Samples.proj_root).
    vm_compute; reflexivity.
  - eapply (artifact_invariants Samples.proj
              (Samples.proj_root ++ [lit "a.txt"]) Samples.proj_root).
    vm_compute; reflexivity.
Defined.

(** X2.  A file that is not valid UTF-8 is dropped when it has at most
    1,000,000 bytes, and kept when it has more: the oversized branch
    reads with replacement characters, so the artifact holds the warning
    and the last lines of the replaced text. *)
Theorem binary_file_skipped_unless_oversized (fs : FS) (p rel : Path)
  (fname : str) (sz : Z) (replaced : str) :
  node_at fs p = Some (File fname (Some sz) (Binary replaced)) ->
  relative_to p (fs_root fs) = Ok rel ->
  sz <> 0%Z ->
  ((sz <= 1000000)%Z -> process fs p (fs_root fs) = None)
  /\ ((1000000 < sz)%Z ->
      exists a,
        process fs p (fs_root fs) = Some a
        /\ is_truncated a = true
        /\ content a
           = truncation_warning sz
               ++ List.concat (last_n 1000 (readlines replaced))).
Proof.
  intros Hnode Hrel Hnz.
  assert (Hst : stat_size fs p = Ok sz) by (unfold stat_size; rewrite Hnode; reflexivity).
  assert (Hrd : read_text fs p = Raise UnicodeDecodeError)
    by (unfold read_text; rewrite Hnode; reflexivity).
  assert (Hrr : read_text_replace fs p = Ok replaced)
    by (unfold read_text_replace; rewrite Hnode; reflexivity).
  unfold process, process_body. rewrite Hst; cbn [bind].
  destruct (Z.eqb sz 0) eqn:Ez; [apply Z.eqb_eq in Ez; contradiction|].
  rewrite Hrel; cbn [bind]. unfold MAX_FILE_SIZE_BYTES.
  split; intros Hsz.
  - assert (E : Z.ltb 1000000 sz = false) by (apply Z.ltb_ge; lia).
    rewrite E, Hrd. reflexivity.
  - assert (E : Z.ltb 1000000 sz = true) by (apply Z.ltb_lt; lia).
    rewrite E, Hrr. eexists. split; [reflexivity|]. split; reflexivity.
Qed.

Lemma binary_file_skipped_unless_oversized_witness :
  process Samples.rough (Samples.rough_root ++ [lit "blob.dat"])
    Samples.rough_root = None.
Proof.
  eapply (binary_file_skipped_unless_oversized Samples.rough
            (Samples.rough_root ++ [lit "blob.dat"]) [lit "blob.dat"]
            (lit "blob.dat") 4%Z [65533; 65533]%N).
  - reflexivity.
  - reflexivity.
  - discriminate.
  - vm_compute; discriminate.
Defined.

Lemma readlines_one_newline (s : str) :
  Forall (fun l => (count chr_nl l <= 1)%Z) (readlines s).
Proof.
  induction s as [|c s IH]; cbn [readlines]; [constructor|].
  destruct (N.eqb c chr_nl) eqn:Ec.
  - apply N.eqb_eq in Ec. subst c.
    constructor; [|exact IH]. vm_compute. discriminate.
  - assert (Hc : forall l, count chr_nl (c :: l) = count chr_nl l).
    { intros l. unfold count. cbn [filter].
      rewrite N.eqb_sym, Ec. reflexivity. }
    destruct (readlines s) as [|l ls].
    + constructor; [|constructor]. rewrite Hc. vm_compute. discriminate.
    + inversion IH; subst. constructor; [rewrite Hc; assumption | assumption].
Qed.

Lemma count_concat_bound (ls : list str) :
  Forall (fun l => (count chr_nl l <= 1)%Z) ls ->
  (count chr_nl (List.concat ls) <= Z.of_nat (List.length ls))%Z.
Proof.
  induction 1 as [|l ls Hl _ IH]; cbn [List.concat List.length].
  - vm_compute. discriminate.
  - rewrite count_app. lia.
Qed.

Lemma Forall_skipn {A} (P : A -> Prop) (n : nat) (l : list A) :
  Forall P l -> Forall P (skipn n l).
Proof.
  revert l; induction n as [|n IH]; intros l H; [exact H|].
  destruct l as [|x l]; [constructor|]. inversion H; subst.
  cbn [skipn]. apply IH; assumption.
Qed.

Lemma uint_no_newline (d : Decimal.uint) :
  count chr_nl (lit (DecimalString.NilEmpty.string_of_uint d)) = 0%Z.
Proof.
  induction d; cbn [DecimalString.NilEmpty.string_of_uint]; try reflexivity;
    unfold lit in *; cbn [list_ascii_of_string map];
    match goal with
    | |- count _ (?c :: ?l) = _ =>
        change (c :: l) with ([c] ++ l); rewrite count_app, IHd; reflexivity
    end.
Qed.

Lemma str_of_int_no_newline (n : Z) : count chr_nl (str_of_int n) = 0%Z.
Proof.
  unfold str_of_int, DecimalString.NilZero.string_of_int.
  destruct (Z.to_int n) as [d|d];
    unfold DecimalString.NilZero.string_of_uint.
  - destruct d; try reflexivity; apply uint_no_newline.
  - unfold lit. cbn [list_ascii_of_string map].
    match goal with
    | |- count _ (?c :: ?l) = _ => change (c :: l) with ([c] ++ l)
    end.
    rewrite count_app.
    destruct d; try reflexivity;
      match goal with
      | |- (_ + count _ (map _ (list_ascii_of_string ?s)))%Z = _ =>
          change (map N_of_ascii (list_ascii_of_string s)) with (lit s)
      end; rewrite uint_no_newline; reflexivity.
Qed.

Lemma truncation_warning_newlines (sz : Z) :
  count chr_nl (truncation_warning sz) = 2%Z.
Proof.
  unfold truncation_warning. rewrite !count_app, str_of_int_no_newline.
  reflexivity.
Qed.

(** X3.  A truncated artifact counts at least three lines and at most
    1,003 lines: the two newlines of the warning, at most one newline
    for each of the at most 1,000 lines kept, and one. *)
Theorem truncated_artifact_line_bound (fs : FS) (p root : Path)
  (a : FileArtifact) :
  process fs p root = Some a ->
  is_truncated a = true ->
  (3 <= lines a <= 1003)%Z.
Proof.
  unfold process, process_body.
  destruct (stat_size fs p) as [sz|e]; cbn [bind]; [|discriminate].
  destruct (Z.eqb sz 0); [discriminate|].
  destruct (relative_to p root) as [rel|e]; cbn [bind]; [|discriminate].
  destruct (Z.ltb MAX_FILE_SIZE_BYTES sz).
  - destruct (read_text_replace fs p) as [text|e]; [|discriminate].
    intros H _.
    pose proof (f_equal (fun o => match o with
                                  | Some x => lines x
                                  | None => 0%Z
                                  end) H) as Hl.
    cbv beta iota in Hl. cbn [lines] in Hl. rewrite <- Hl. clear H Hl.
    rewrite count_app, truncation_warning_newlines.
    pose proof (count_nonneg chr_nl
                  (List.concat (last_n 1000 (readlines text)))).
    pose proof (count_concat_bound (last_n 1000 (readlines text))
                  (Forall_skipn _ _ _ (readlines_one_newline text))).
    pose proof (last_n_length 1000 (readlines text)).
    lia.
  - destruct (read_text fs p) as [text|[]]; try discriminate.
    intros H Ht; inversion H; subst a. discriminate Ht.
Qed.

Lemma truncated_artifact_line_bound_witness :
  (3 <= lines MoreSamples.big_artifact <= 1003)%Z.
Proof.
  apply (truncated_artifact_line_bound Samples.big Samples.big_file
           Samples.big_root MoreSamples.big_artifact).
  - reflexivity.
  - reflexivity.
Defined.

(* ------------------------------------------------------------------ *)
(** ** Language detection *)
(* ------------------------------------------------------------------ *)

Lemma suffix_rev_shape (rev_name acc : str) :
  suffix_rev rev_name acc = [] \/ exists t, suffix_rev rev_name acc = chr_dot :: t.
Proof.
  revert acc; induction rev_name as [|c rest IH]; intros acc;
    cbn [suffix_rev]; [left; reflexivity|].
  destruct (N.eqb c chr_dot); [|apply IH].
  destruct rest; [left; reflexivity|].
  destruct acc; [left; reflexivity | right; eexists; reflexivity].
Qed.

(** A suffix is empty or starts with a dot. *)
Lemma suffix_shape (p : Path) :
  suffix p = [] \/ exists t, suffix p = chr_dot :: t.
Proof. apply suffix_rev_shape. Qed.

Lemma get_found (d : list (str * str)) (key default v : str) :
  get d key default = v ->
  v = default \/ In (key, v) d.
Proof.
  induction d as [|[k w] d IH]; cbn [get]; intros H; [left; congruence|].
  destruct (str_eqb k key) eqn:E.
  - apply str_eqb_eq in E. subst. right; left; reflexivity.
  - destruct (IH H) as [Hd|Hin]; [left; exact Hd | right; right; exact Hin].
Qed.

(** X4.  The tags [dockerfile] and [makefile] are given by the base
    name alone, compared without regard to case: the table is looked up
    with a suffix, which is empty or starts with a dot, so that its
    [Dockerfile] key is never the one found. *)
Theorem fixed_tags_by_name_only (p : Path) :
  (detect_language p = lit "dockerfile" <-> lower (name p) = lit "dockerfile")
  /\ (detect_language p = lit "makefile" <-> lower (name p) = lit "makefile")
  /\ get LanguageConfig.EXTENSION_MAP (lower (suffix p)) (lit "text")
     <> lit "dockerfile".
Proof.
  assert (Htable : forall k v, In (k, v) LanguageConfig.EXTENSION_MAP ->
            v <> lit "makefile"
            /\ (v = lit "dockerfile" -> k = lit "Dockerfile")).
  { assert (H : forallb
                  (fun kv =>
                     negb (str_eqb (snd kv) (lit "makefile"))
                     && (negb (str_eqb (snd kv) (lit "dockerfile"))
                         || str_eqb (fst kv) (lit "Dockerfile")))
                  LanguageConfig.EXTENSION_MAP = true)
      by (vm_compute; reflexivity).
    rewrite forallb_forall in H. intros k v Hin.
    specialize (H (k, v) Hin). cbn [fst snd] in H.
    apply andb_true_iff in H. destruct H as [Hm Hd]. split.
    - intros ->. rewrite str_eqb_refl in Hm. discriminate.
    - intros ->. rewrite str_eqb_refl in Hd. cbn [negb orb] in Hd.
      apply str_eqb_eq in Hd. exact Hd. }
  assert (Hext : lower (suffix p) <> lit "Dockerfile").
  { destruct (suffix_shape p) as [->|[t ->]]; discriminate. }
  assert (Hget : get LanguageConfig.EXTENSION_MAP (lower (suffix p)) (lit "text")
                 <> lit "dockerfile"
                 /\ get LanguageConfig.EXTENSION_MAP (lower (suffix p)) (lit "text")
                    <> lit "makefile").
  { split; intros H; apply get_found in H;
      (destruct H as [H|H]; [discriminate H|]);
      destruct (Htable _ _ H) as [Hm Hd]; auto. }
  destruct Hget as [Hgd Hgm].
  unfold detect_language.
  destruct (str_eqb (lower (name p)) (lit "makefile")) eqn:Em;
    destruct (str_eqb (lower (name p)) (lit "dockerfile")) eqn:Ed;
    try (apply str_eqb_eq in Em); try (apply str_eqb_eq in Ed).
  - rewrite Em in Ed. discriminate.
  - repeat split; try (intros _; assumption || reflexivity);
      try (intros H; rewrite Em in H; discriminate H);
      try discriminate; assumption.
  - repeat split; try (intros _; assumption || reflexivity);
      try (intros H; rewrite Ed in H; discriminate H);
      try discriminate; assumption.
  - repeat split; try assumption; intros H; try contradiction;
      try (apply str_eqb_eq in H; congruence).
Qed.

(* ------------------------------------------------------------------ *)
(** ** What the scan yields *)
(* ------------------------------------------------------------------ *)

Lemma reach_dir_source (n m : node) (ds : Path) (dn : str) (es : list node) :
  reach n ds m -> m = Dir dn (Some es) -> exists d l, n = Dir d l.
Proof.
  intros H. destruct H as [n|d entries e ds m He Hr]; intros Hm.
  - subst n. eauto.
  - eauto.
Qed.

(** A listed directory that is reached through kept directories is a
    step of the walk. *)
Lemma os_walk_reach (keep : Path -> bool) (n m : node) (ds : Path) :
  reach n ds m ->
  forall top dn es, m = Dir dn (Some es) ->
    (forall pre post, ds = pre ++ post -> pre <> [] ->
       keep (top ++ pre) = true) ->
    exists dirs, In (top ++ ds, dirs, file_names es) (os_walk keep top n).
Proof.
  induction 1 as [n | d entries e ds m He Hreach IH]; intros top dn es Hm Hkeep.
  - subst n. cbn [os_walk]. rewrite app_nil_r.
    eexists. left. reflexivity.
  - destruct (reach_dir_source _ _ _ _ _ Hreach Hm) as [d' [l' He']].
    subst e. cbn [node_name] in *.
    assert (Hk : keep (div top d') = true).
    { apply (Hkeep [d'] ds); [reflexivity | discriminate]. }
    destruct (IH (div top d') dn es Hm) as [dirs Hin].
    { intros pre post Hds Hne. unfold div. rewrite <- app_assoc.
      apply (Hkeep (d' :: pre) post); [rewrite Hds; reflexivity | discriminate]. }
    exists dirs. cbn [os_walk]. right.
    apply in_flat_map. exists (Dir d' l'). split; [exact He|].
    rewrite Hk.
    replace (top ++ d' :: ds) with (div top d' ++ ds)
      by (unfold div; rewrite <- app_assoc; reflexivity).
    exact Hin.
Qed.

(** X5.  [scan] yields a path exactly when it names a non-directory
    entry of a listed directory that is reached from the root, the path
    is not ignored, and no directory between the root and the entry is
    ignored.  Entries of directories that cannot be listed are never
    yielded. *)
Theorem scan_characterization (self : ProjectScanner) (fs : FS) (p : Path) :
  In p (scan self fs) <->
  exists n ds dn entries f,
    node_at fs (root_dir self) = Some n
    /\ p = root_dir self ++ ds ++ [f]
    /\ reach n ds (Dir dn (Some entries))
    /\ In f (file_names entries)
    /\ should_ignore self p = false
    /\ forall pre post, ds = pre ++ post -> pre <> [] ->
         should_ignore self (root_dir self ++ pre) = false.
Proof.
  split; [apply scan_In|].
  intros [n [ds [dn [es [f [Hn [Hp [Hreach [Hf [Hig Hpre]]]]]]]]]].
  unfold scan. rewrite Hn.
  destruct (os_walk_reach (fun d => negb (should_ignore self d)) n _ ds Hreach
              (root_dir self) dn es eq_refl) as [dirs Hstep].
  { intros pre post Hds Hne. rewrite (Hpre pre post Hds Hne). reflexivity. }
  apply in_flat_map. exists (root_dir self ++ ds, dirs, file_names es).
  split; [exact Hstep|].
  apply in_flat_map. exists f. split; [exact Hf|].
  assert (E : div (root_dir self ++ ds) f = p)
    by (unfold div; rewrite Hp, <- app_assoc; reflexivity).
  rewrite E, Hig. left. reflexivity.
Qed.

(* ------------------------------------------------------------------ *)
(** ** What a run ingests and counts *)
(* ------------------------------------------------------------------ *)

Lemma collect_length (fs : FS) (root : Path) (l : list Path) :
  (len (collect fs root l) <= len l)%Z.
Proof.
  unfold len. induction l as [|f l IH]; cbn [collect List.length]; [lia|].
  destruct (process fs f root); cbn [List.length]; lia.
Qed.

Lemma sum_lower_bound (f : FileArtifact -> Z) (b : Z) (l : list FileArtifact) :
  (forall a, In a l -> (b <= f a)%Z) ->
  (b * len l <= sum (map f l))%Z.
Proof.
  unfold len. induction l as [|a l IH]; intros H; cbn [map sum List.length].
  - lia.
  - pose proof (H a (or_introl eq_refl)).
    assert (b * Z.of_nat (List.length l) <= sum (map f l))%Z
      by (apply IH; intros x Hx; apply H; right; exact Hx).
    lia.
Qed.

Section Ingestion.

Variable as_completed : list Path -> list Path.
Hypothesis as_completed_perm : forall l, Permutation l (as_completed l).

Lemma run_artifacts (fs : FS) (out : Path) (scanner : ProjectScanner) :
  Permutation
    match files_to_process scanner fs out with
    | [] => []
    | _ => collect fs (fs_root fs)
             (as_completed (files_to_process scanner fs out))
    end
    (collect fs (fs_root fs) (files_to_process scanner fs out)).
Proof.
  destruct (files_to_process scanner fs out) as [|f files] eqn:E.
  - reflexivity.
  - apply collect_perm. symmetry. apply as_completed_perm.
Qed.

(** X6.  The output file of a run is never ingested: no artifact
    stands for the output path, and every artifact is what [process]
    made of a scanned path, whatever the order of completion. *)
Theorem output_file_never_ingested (fs : FS) (out : Path) (w : bool)
  (summary : ProjectSummary) (written : option Report)
  (scanner : ProjectScanner) :
  main as_completed fs out w = Returned summary written ->
  new_ProjectScanner fs (fs_root fs) = Ok scanner ->
  forall a, In a (artifacts summary) ->
    path a <> out
    /\ In (path a) (scan scanner fs)
    /\ process fs (path a) (fs_root fs) = Some a.
Proof.
  intros Hm Hsc a Ha.
  destruct (main_returned _ _ _ _ _ _ Hm) as [sc [tree [_ [Hsc' [_ [Hs _]]]]]].
  rewrite Hsc in Hsc'. inversion Hsc'; subst sc; clear Hsc'.
  subst summary. unfold aggregate in Ha. cbn [artifacts] in Ha.
  destruct (artifacts_scanned as_completed as_completed_perm fs out scanner a Ha)
    as [Hscan [Hne Hp]].
  split; [exact Hne|]. split; [exact Hscan | exact Hp].
Qed.

(** X7.  The summary counts what was collected: its artifacts are the
    results of [process] on the submitted files, each once, in some
    order; the file count is their number and is at most the number of
    submitted files; the line total is at least the file count and the
    token total is not negative.  A report that is written shows that
    count over that many sections. *)
Theorem summary_counts (fs : FS) (out : Path) (w : bool)
  (summary : ProjectSummary) (written : option Report)
  (scanner : ProjectScanner) :
  main as_completed fs out w = Returned summary written ->
  new_ProjectScanner fs (fs_root fs) = Ok scanner ->
  Permutation (artifacts summary)
    (collect fs (fs_root fs) (files_to_process scanner fs out))
  /\ total_files summary = len (artifacts summary)
  /\ total_lines summary = sum (map lines (artifacts summary))
  /\ total_tokens summary = sum (map token_estimate (artifacts summary))
  /\ (total_files summary <= len (files_to_process scanner fs out))%Z
  /\ (total_files summary <= total_lines summary)%Z
  /\ (0 <= total_tokens summary)%Z
  /\ (forall r, written = Some r ->
        report_files r = len (report_sections r)
        /\ Permutation (report_sections r) (artifacts summary)).
Proof.
  intros Hm Hsc.
  destruct (main_returned _ _ _ _ _ _ Hm) as [sc [tree [_ [Hsc' [_ [Hs Hw]]]]]].
  rewrite Hsc in Hsc'. inversion Hsc'; subst sc; clear Hsc'.
  pose proof (run_artifacts fs out scanner) as Hperm.
  set (l := match files_to_process scanner fs out with
            | [] => []
            | _ => collect fs (fs_root fs)
                     (as_completed (files_to_process scanner fs out))
            end) in *.
  assert (Hproc : forall a, In a l -> exists f, process fs f (fs_root fs) = Some a).
  { intros a Ha. apply (Permutation_in _ Hperm) in Ha.
    apply collect_In in Ha. destruct Ha as [f [_ Hp]]. exists f; exact Hp. }
  assert (Hlines : (1 * len l <= sum (map lines l))%Z).
  { apply sum_lower_bound. intros a Ha. destruct (Hproc a Ha) as [f Hp].
    destruct (process_some _ _ _ _ Hp) as [_ [_ [_ [_ [Hl _]]]]].
    rewrite Hl. pose proof (count_nonneg chr_nl (content a)). lia. }
  assert (Htokens : (0 * len l <= sum (map token_estimate l))%Z).
  { apply sum_lower_bound. intros a Ha. destruct (Hproc a Ha) as [f Hp].
    destruct (process_some _ _ _ _ Hp) as [_ [_ [_ [_ [_ Ht]]]]].
    rewrite Ht. apply Z.div_pos; [apply len_nonneg | lia]. }
  assert (Hlen : (len l <= len (files_to_process scanner fs out))%Z).
  { rewrite (len_perm _ _ Hperm). apply collect_length. }
  subst summary. unfold aggregate.
  cbn [artifacts total_files total_lines total_tokens].
  repeat (split; [first [assumption | reflexivity | lia]|]).
  intros r Hr. subst written. destruct w; [|discriminate].
  inversion Hr; subst r; clear Hr.
  unfold generate, aggregate, sorted_artifacts.
  cbn [report_files report_sections total_files artifacts]. split.
  - apply len_perm. symmetry. apply sorted_perm.
  - apply sorted_perm.
Qed.

End Ingestion.

Lemma output_file_never_ingested_witness :
  Forall
    (fun a => path a <> Samples.proj_out
              /\ In (path a) (scan Samples.proj_scanner Samples.proj)
              /\ process Samples.proj (path a) (fs_root Samples.proj) = Some a)
    (artifacts (Samples.proj_summary (@rev Path))).
Proof.
  apply Forall_forall.
  assert (Hm : main (@rev Path) Samples.proj Samples.proj_out true
               = Returned (Samples.proj_summary (@rev Path))
                   (Some (generate (Samples.proj_summary (@rev Path)))))
    by (vm_compute; reflexivity).
  assert (Hs : new_ProjectScanner Samples.proj (fs_root Samples.proj)
               = Ok Samples.proj_scanner) by (vm_compute; reflexivity).
  exact (output_file_never_ingested (@rev Path) (@Permutation_rev Path)
           Samples.proj Samples.proj_out true _ _ _ Hm Hs).
Defined.

Lemma summary_counts_witness :
  (total_files (Samples.proj_summary (@rev Path))
   <= total_lines (Samples.proj_summary (@rev Path)))%Z.
Proof.
  assert (Hm : main (@rev Path) Samples.proj Samples.proj_out true
               = Returned (Samples.proj_summary (@rev Path))
                   (Some (generate (Samples.proj_summary (@rev Path)))))
    by (vm_compute; reflexivity).
  assert (Hs : new_ProjectScanner Samples.proj (fs_root Samples.proj)
               = Ok Samples.proj_scanner) by (vm_compute; reflexivity).
  pose proof (summary_counts (@rev Path) (@Permutation_rev Path)
                Samples.proj Samples.proj_out true _ _ _ Hm Hs) as H.
  exact (proj1 (proj2 (proj2 (proj2 (proj2 (proj2 H)))))).
Defined.

(* ------------------------------------------------------------------ *)
(** ** The ignore file *)
(* ------------------------------------------------------------------ *)

(** X8.  An ignore file that is absent, or that is there but cannot be
    read as UTF-8 text (it cannot be opened, it is not valid UTF-8, it
    is a directory), leaves the scanner with the built-in rules alone:
    the constructor raises nothing. *)
Theorem unreadable_ignore_file_falls_back (fs : FS) (root : Path) :
  (exists_ fs (div root (lit ".gitignore")) = false
   \/ exists e, read_text fs (div root (lit ".gitignore")) = Raise e) ->
  gitignore_lines fs root = []
  /\ new_ProjectScanner fs root = Ok (mkProjectScanner root builtin_spec).
Proof.
  intros H.
  assert (Hlines : gitignore_lines fs root = []).
  { unfold gitignore_lines. destruct H as [E|[e E]]; rewrite E.
    - reflexivity.
    - destruct (exists_ fs (div root (lit ".gitignore"))); reflexivity. }
  split; [exact Hlines|].
  unfold new_ProjectScanner, _load_gitignore.
  rewrite Hlines, app_nil_r, builtin_compiles. reflexivity.
Qed.

Lemma unreadable_ignore_file_falls_back_witness :
  new_ProjectScanner Samples.rough Samples.rough_root
  = Ok (mkProjectScanner Samples.rough_root builtin_spec).
Proof.
  apply (unreadable_ignore_file_falls_back Samples.rough Samples.rough_root).
  left. reflexivity.
Defined.

Lemma builtin_order_irrelevant_witness :
  exists spec',
    from_lines (rev LanguageConfig.IGNORE_PATTERNS ++ [lit "!keep.log"])
    = Ok spec'
    /\ forall file,
         match_file spec' file
         = match_file (builtin_spec ++ [mkPattern (Some false)
                                          (regex_body
                                             (match GitWildMatchPattern (lit "!keep.log") with
                                              | Ok pat => pat
                                              | Raise _ => null_pattern
                                              end))]) file.
Proof.
  apply (builtin_order_irrelevant (rev LanguageConfig.IGNORE_PATTERNS)
           [lit "!keep.log"]).
  - apply Permutation_rev.
  - vm_compute; reflexivity.
Defined.

(* ------------------------------------------------------------------ *)
(** ** The rendered tree *)
(* ------------------------------------------------------------------ *)

Lemma existsb_path_In (d : Path) (l : list Path) :
  existsb (path_eqb d) l = true <-> In d l.
Proof.
  rewrite existsb_exists. split.
  - intros [x [Hx E]]. apply path_eqb_eq in E. subst; exact Hx.
  - intros H. exists d. split; [exact H | apply path_eqb_eq; reflexivity].
Qed.

(** The inner loop adds each directory it has not seen, with its line. *)
Lemma tree_dirs_spec (parts : Path) (depth : nat) :
  forall start st,
    (start + depth <= List.length parts - 1)%nat ->
    exists extra,
      snd (tree_dirs parts start depth st) = snd st ++ extra
      /\ List.length (fst (tree_dirs parts start depth st))
         = (List.length (fst st) + List.length extra)%nat
      /\ (NoDup (fst st) -> NoDup (fst (tree_dirs parts start depth st)))
      /\ (forall d, In d (fst (tree_dirs parts start depth st)) <->
            In d (fst st)
            \/ In d (map (fun i => firstn (S i) parts) (seq start depth)))
      /\ (forall d, In d (fst (tree_dirs parts start depth st)) ->
            In d (fst st) \/ In (dir_line d) extra).
Proof.
  induction depth as [|depth IH]; intros start st Hb; cbn [tree_dirs seq map].
  - exists []. rewrite app_nil_r.
    split; [reflexivity|]. split; [cbn [List.length]; lia|].
    split; [auto|].
    split; [intros d; cbn [In]; tauto | intros d H; left; exact H].
  - set (parent := firstn (S start) parts).
    assert (Hlen : List.length parent = S start).
    { unfold parent. rewrite length_firstn. lia. }
    destruct (existsb (path_eqb parent) (fst st)) eqn:Ein.
    + apply existsb_path_In in Ein.
      destruct (IH (S start) st) as [extra [Hs [Hl [Hn [Hi Hd]]]]]; [lia|].
      exists extra.
      split; [exact Hs|]. split; [exact Hl|]. split; [exact Hn|].
      split; [|exact Hd].
      intros d. rewrite Hi. cbn [In]. split.
      * intros [H|H]; auto.
      * intros [H|[H|H]]; auto. subst d. left; exact Ein.
    + assert (Hnot : ~ In parent (fst st)).
      { intros H. apply existsb_path_In in H. congruence. }
      set (line := repeat_str bar_indent start ++ branch ++ last parent []
                     ++ [chr_slash]).
      assert (Hline : line = dir_line parent).
      { unfold line, dir_line. rewrite Hlen.
        replace (S start - 1)%nat with start by lia. reflexivity. }
      destruct (IH (S start) (parent :: fst st, snd st ++ [line]))
        as [extra [Hs [Hl [Hn [Hi Hd]]]]]; [lia|].
      cbn [fst snd] in *.
      exists (line :: extra).
      split; [rewrite Hs, <- app_assoc; reflexivity|].
      split; [rewrite Hl; cbn [List.length]; lia|].
      split; [intros Hnd; apply Hn; constructor; assumption|].
      split.
      * intros d. rewrite Hi. cbn [In]. tauto.
      * intros d H. apply Hd in H. destruct H as [[H|H]|H].
        -- right. left. rewrite Hline. subst d. reflexivity.
        -- left; exact H.
        -- right; right; exact H.
Qed.

(** The loop over the files. *)
Lemma tree_fold_spec (rels : list Path) :
  forall st,
    exists extra,
      snd (fold_left tree_file rels st) = snd st ++ extra
      /\ (List.length extra + List.length (fst st)
          = List.length rels + List.length (fst (fold_left tree_file rels st)))%nat
      /\ (NoDup (fst st) -> NoDup (fst (fold_left tree_file rels st)))
      /\ (forall d, In d (fst (fold_left tree_file rels st)) <->
            In d (fst st)
            \/ exists rel, In rel rels /\ In d (ancestor_dirs rel))
      /\ (forall d, In d (fst (fold_left tree_file rels st)) ->
            In d (fst st) \/ In (dir_line d) extra)
      /\ (forall rel, In rel rels -> In (file_line rel) extra).
Proof.
  induction rels as [|rel rels IH]; intros st; cbn [fold_left].
  - exists []. rewrite app_nil_r.
    split; [reflexivity|]. split; [reflexivity|]. split; [auto|].
    split; [|split].
    + intros d. split; [auto|]. intros [H|[rel [[] _]]]; exact H.
    + intros d H. left; exact H.
    + intros rel [].
  - destruct (tree_dirs_spec rel (List.length rel - 1) 0 st)
      as [e1 [Hs1 [Hl1 [Hn1 [Hi1 Hd1]]]]]; [lia|].
    destruct (IH (tree_file st rel)) as [e2 [Hs2 [Hl2 [Hn2 [Hi2 [Hd2 Hf2]]]]]].
    assert (Efst : fst (tree_file st rel)
                   = fst (tree_dirs rel 0 (List.length rel - 1) st))
      by reflexivity.
    assert (Esnd : snd (tree_file st rel)
                   = snd (tree_dirs rel 0 (List.length rel - 1) st)
                       ++ [file_line rel])
      by reflexivity.
    exists (e1 ++ [file_line rel] ++ e2).
    split; [rewrite Hs2, Esnd, Hs1, <- !app_assoc; reflexivity|].
    split; [rewrite Efst, Hl1 in Hl2; rewrite !length_app;
            cbn [List.length]; lia|].
    split; [intros Hnd; apply Hn2; rewrite Efst; apply Hn1, Hnd|].
    split; [|split].
    + intros d. rewrite Hi2, Efst, Hi1. fold (ancestor_dirs rel). split.
      * intros [[H|H]|[r [Hr Hd]]].
        -- left; exact H.
        -- right. exists rel. split; [left; reflexivity | exact H].
        -- right. exists r. split; [right; exact Hr | exact Hd].
      * intros [H|[r [[<-|Hr] Hd]]].
        -- left; left; exact H.
        -- left; right; exact Hd.
        -- right. exists r. split; assumption.
    + intros d H. apply Hd2 in H. destruct H as [H|H].
      * rewrite Efst in H. apply Hd1 in H. destruct H as [H|H]; [left; exact H|].
        right. apply in_or_app. left; exact H.
      * right. apply in_or_app. right. right. exact H.
    + intros r [<-|Hr].
      * apply in_or_app. right. left. reflexivity.
      * apply in_or_app. right. right. apply Hf2. exact Hr.
Qed.

Lemma all_relative_to_spec (paths rels : list Path) (root : Path) :
  all_relative_to paths root = Ok rels -> paths = map (app root) rels.
Proof.
  revert rels; induction paths as [|p paths IH]; intros rels;
    cbn [all_relative_to].
  - intros H; inversion H; reflexivity.
  - destruct (relative_to p root) as [rel|] eqn:E; cbn [bind]; [|discriminate].
    destruct (all_relative_to paths root) as [rs|]; cbn [bind]; [|discriminate].
    intros H; inversion H; subst rels; clear H.
    apply relative_to_ok in E. cbn [map]. rewrite (IH rs eq_refl), E.
    reflexivity.
Qed.

(** What the tree holds when the scan yields something. *)
Lemma generate_tree_lines (self : ProjectScanner) (fs : FS) :
  scan self fs <> [] ->
  exists lines dirs,
    generate_tree self fs = Ok (join [chr_nl] lines)
    /\ (exists more, lines = root_line self :: more)
    /\ NoDup dirs
    /\ List.length lines
       = (1 + List.length (scan self fs) + List.length dirs)%nat
    /\ (forall d, In d dirs <->
          exists rel, In (root_dir self ++ rel) (scan self fs)
                      /\ In d (ancestor_dirs rel))
    /\ (forall d, In d dirs -> In (dir_line d) lines)
    /\ (forall rel, In (root_dir self ++ rel) (scan self fs) ->
          In (file_line rel) lines).
Proof.
  intros Hne.
  pose proof (sorted_perm path_str (scan self fs)) as Hperm.
  fold (tree_paths self fs) in Hperm.
  unfold generate_tree.
  destruct (tree_paths self fs) as [|p0 paths] eqn:Etp.
  { apply Permutation_nil in Hperm. contradiction. }
  destruct (all_relative_to_ok (p0 :: paths) (root_dir self)) as [rels Hrels].
  { intros q Hq. apply (Permutation_in _ Hperm) in Hq.
    destruct (scan_relative _ _ _ Hq) as [rel [_ [_ Hrel]]].
    exists rel; exact Hrel. }
  rewrite Hrels. cbn [bind].
  pose proof (all_relative_to_spec _ _ _ Hrels) as Hmap.
  assert (Hin : forall rel,
            In rel rels <-> In (root_dir self ++ rel) (scan self fs)).
  { intros rel. split; intros H.
    - apply (Permutation_in _ Hperm). rewrite Hmap. apply in_map. exact H.
    - apply (Permutation_in _ (Permutation_sym Hperm)) in H.
      rewrite Hmap in H. apply in_map_iff in H.
      destruct H as [r [Hr Hin]]. apply app_inv_head in Hr. subst r. exact Hin. }
  assert (Hlen : List.length rels = List.length (scan self fs)).
  { rewrite <- (Permutation_length Hperm), Hmap, length_map. reflexivity. }
  destruct (tree_fold_spec rels ([], [root_line self]))
    as [extra [Hs [Hl [Hn [Hi [Hd Hf]]]]]].
  cbn [fst snd] in *. unfold root_line in *.
  match type of Hs with
  | snd ?X = _ => exists (snd X), (fst X)
  end.
  split; [reflexivity|].
  split; [exists extra; exact Hs|].
  split; [apply Hn; constructor|].
  split; [rewrite Hs; cbn [app List.length] in *; rewrite <- Hlen; lia|].
  split; [|split].
  - intros d. rewrite Hi. split.
    + intros [[]|[rel [Hr Ha]]].
      exists rel. split; [apply Hin; exact Hr | exact Ha].
    + intros [rel [Hr Ha]]. right. exists rel.
      split; [apply Hin; exact Hr | exact Ha].
  - intros d H. apply Hd in H. destruct H as [[]|H].
    rewrite Hs. right. exact H.
  - intros rel H. rewrite Hs. right. apply Hf, Hin. exact H.
Qed.

(** X9.  When the scan yields at least one file, the tree starts with
    the line of the root, has one line for every scanned file and one
    line for every directory that lies above a scanned file, each
    directory once, and nothing else. *)
Theorem tree_rendering (self : ProjectScanner) (fs : FS) :
  scan self fs <> [] ->
  exists lines dirs,
    generate_tree self fs = Ok (join [chr_nl] lines)
    /\ (exists more, lines = root_line self :: more)
    /\ NoDup dirs
    /\ List.length lines
       = (1 + List.length (scan self fs) + List.length dirs)%nat
    /\ (forall d, In d dirs <->
          exists rel, In (root_dir self ++ rel) (scan self fs)
                      /\ In d (ancestor_dirs rel))
    /\ (forall d, In d dirs -> In (dir_line d) lines)
    /\ (forall rel, In (root_dir self ++ rel) (scan self fs) ->
          In (file_line rel) lines).
Proof. apply generate_tree_lines. Qed.

Lemma tree_rendering_witness :
  exists lines dirs,
    generate_tree Samples.proj_scanner Samples.proj
    = Ok (join [chr_nl] lines)
    /\ (exists more, lines = root_line Samples.proj_scanner :: more)
    /\ NoDup dirs
    /\ List.length lines
       = (1 + List.length (scan Samples.proj_scanner Samples.proj)
          + List.length dirs)%nat
    /\ (forall d, In d dirs <->
          exists rel,
            In (root_dir Samples.proj_scanner ++ rel)
              (scan Samples.proj_scanner Samples.proj)
            /\ In d (ancestor_dirs rel))
    /\ (forall d, In d dirs -> In (dir_line d) lines)
    /\ (forall rel,
          In (root_dir Samples.proj_scanner ++ rel)
            (scan Samples.proj_scanner Samples.proj) ->
          In (file_line rel) lines).
Proof.
  apply (tree_rendering Samples.proj_scanner Samples.proj).
  vm_compute. discriminate.
Defined.

(** X10.  The tree is the marker [No files found.] exactly when the scan
    yields no file; rendering never raises. *)
Theorem no_files_marker (self : ProjectScanner) (fs : FS) :
  (generate_tree self fs = Ok (lit "No files found.") <-> scan self fs = [])
  /\ exists tree, generate_tree self fs = Ok tree.
Proof.
  split; [|apply generate_tree_ok].
  split; intros H.
  - destruct (scan self fs) as [|p ps] eqn:E; [reflexivity|].
    destruct (generate_tree_lines self fs) as [lines [dirs [Hg [[more Hl] _]]]].
    { rewrite E. discriminate. }
    rewrite Hg in H. subst lines. unfold root_line, dir_mark in H.
    destruct more; cbn [join app] in H; inversion H.
  - unfold generate_tree, tree_paths. rewrite H. reflexivity.
Qed.

(* ------------------------------------------------------------------ *)
(** ** Every file once *)
(* ------------------------------------------------------------------ *)

Lemma distinct_NoDup (l : list str) : distinct l = true -> NoDup l.
Proof.
  induction l as [|x l IH]; cbn [distinct]; intros H; constructor.
  - apply andb_true_iff in H. destruct H as [H _].
    apply negb_true_iff in H. intros Hin. apply mem_In in Hin. congruence.
  - apply IH. apply andb_true_iff in H. tauto.
Qed.

Lemma map_flat_map {A B C} (f : B -> C) (g : A -> list B) (l : list A) :
  map f (flat_map g l) = flat_map (fun x => map f (g x)) l.
Proof.
  induction l as [|x l IH]; cbn [flat_map map]; [reflexivity|].
  rewrite map_app, IH. reflexivity.
Qed.

(** Lists produced from distinct keys, each without repetition and each
    carrying its key, chain into a list without repetition. *)
Lemma NoDup_flat_map_keyed {A B K} (key : B -> K) (kof : A -> K)
  (g : A -> list B) (l : list A) :
  (forall a b, In a l -> In b (g a) -> key b = kof a) ->
  NoDup (map kof l) ->
  (forall a, In a l -> NoDup (g a)) ->
  NoDup (flat_map g l).
Proof.
  induction l as [|a l IH]; intros Hkey Hk Hg; cbn [flat_map]; [constructor|].
  cbn [map] in Hk. inversion Hk as [|? ? Hnotin Hk']; subst.
  apply NoDup_app.
  - apply Hg. left; reflexivity.
  - apply IH.
    + intros a' b Ha' Hb. apply Hkey; [right; exact Ha' | exact Hb].
    + exact Hk'.
    + intros a' Ha'. apply Hg. right; exact Ha'.
  - intros b Hb Hb'. apply in_flat_map in Hb'. destruct Hb' as [a' [Ha' Hb']].
    apply Hnotin. apply in_map_iff. exists a'. split; [|exact Ha'].
    rewrite <- (Hkey a b (or_introl eq_refl) Hb).
    rewrite <- (Hkey a' b (or_intror Ha') Hb'). reflexivity.
Qed.

(** The walk visits every directory once. *)
Lemma os_walk_roots_NoDup (keep : Path -> bool) (n : node) :
  unique_names n = true ->
  forall top, NoDup (map step_root (os_walk keep top n)).
Proof.
  induction n as [f st d | d | d entries IH] using node_induction;
    intros Hu top; cbn [os_walk map]; try constructor.
  - (* the top itself is not below one of its sub-directories *)
    intros Hin. rewrite map_flat_map in Hin. apply in_flat_map in Hin.
    destruct Hin as [e [He Hin]].
    destruct e as [f st dt | d' l']; [destruct Hin|].
    destruct (keep (div top d')); [|destruct Hin].
    apply in_map_iff in Hin. destruct Hin as [[[r dirs] files] [Hr Hin]].
    cbn [step_root fst] in Hr. subst r.
    destruct (os_walk_step _ _ _ _ _ _ Hin) as [ds [_ [_ [Hr _]]]].
    unfold div in Hr. rewrite <- app_assoc in Hr.
    rewrite <- (app_nil_r top) in Hr at 1.
    apply app_inv_head in Hr. discriminate.
  - rewrite map_flat_map.
    cbn [unique_names] in Hu. apply andb_true_iff in Hu.
    destruct Hu as [Hd Hall]. rewrite forallb_forall in Hall.
    apply (NoDup_flat_map_keyed (fun r => nth (List.length top) r []) node_name).
    + intros e r He Hr.
      destruct e as [f st dt | d' l']; [destruct Hr|].
      destruct (keep (div top d')); [|destruct Hr].
      apply in_map_iff in Hr. destruct Hr as [[[r' dirs] files] [Hr Hin]].
      cbn [step_root fst] in Hr. subst r'.
      destruct (os_walk_step _ _ _ _ _ _ Hin) as [ds [_ [_ [Hr _]]]].
      rewrite Hr. unfold div. rewrite <- app_assoc. cbn [app node_name].
      apply nth_middle.
    + apply distinct_NoDup. exact Hd.
    + intros e He.
      destruct e as [f st dt | d' l']; [constructor|].
      destruct (keep (div top d')); [|constructor].
      rewrite Forall_forall in IH. apply (IH _ He). apply Hall. exact He.
Qed.

Lemma reach_unique (n m : node) (ds : Path) :
  reach n ds m -> unique_names n = true -> unique_names m = true.
Proof.
  induction 1 as [n | d entries e ds m He Hreach IH]; intros Hu; [exact Hu|].
  cbn [unique_names] in Hu. apply andb_true_iff in Hu. destruct Hu as [_ Hall].
  rewrite forallb_forall in Hall. apply IH, Hall, He.
Qed.

Lemma file_names_NoDup (entries : list node) :
  NoDup (map node_name entries) -> NoDup (file_names entries).
Proof.
  unfold file_names.
  induction entries as [|e entries IH]; cbn [map flat_map]; intros H;
    [constructor|].
  inversion H as [|? ? Hnotin H']; subst.
  destruct e as [f st dt | d l]; cbn [app]; [|apply IH; exact H'].
  constructor; [|apply IH; exact H'].
  intros Hin. apply Hnotin. cbn [node_name].
  apply in_flat_map in Hin. destruct Hin as [e' [He' Hf]].
  destruct e' as [f' st' dt' | d' l']; [|destruct Hf].
  destruct Hf as [<-|[]]. apply (in_map node_name) in He'. exact He'.
Qed.

Lemma kept_files_NoDup (ignore : Path -> bool) (r : Path) (files : list str) :
  NoDup files ->
  NoDup (flat_map (fun file => if ignore (div r file) then [] else [div r file])
           files).
Proof.
  induction 1 as [|f files Hnotin _ IH]; cbn [flat_map]; [constructor|].
  destruct (ignore (div r f)); cbn [app]; [exact IH|].
  constructor; [|exact IH].
  intros Hin. apply in_flat_map in Hin. destruct Hin as [g [Hg Hin]].
  destruct (ignore (div r g)); [destruct Hin|].
  destruct Hin as [E|[]]. unfold div in E. apply app_inj_tail in E.
  destruct E as [_ E]. subst g. contradiction.
Qed.

(** In a tree without repeated names the scan yields no path twice. *)
Lemma scan_NoDup (self : ProjectScanner) (fs : FS) (n : node) :
  node_at fs (root_dir self) = Some n -> unique_names n = true ->
  NoDup (scan self fs).
Proof.
  intros Hn Hu. unfold scan. rewrite Hn.
  apply (NoDup_flat_map_keyed (@removelast str) step_root).
  - intros [[r dirs] files] p _ Hp. cbn [step_root fst].
    apply in_flat_map in Hp. destruct Hp as [f [_ Hp]].
    destruct (should_ignore self (div r f)); [destruct Hp|].
    destruct Hp as [<-|[]]. unfold div. apply removelast_last.
  - apply os_walk_roots_NoDup. exact Hu.
  - intros [[r dirs] files] Hstep.
    destruct (os_walk_step _ _ _ _ _ _ Hstep)
      as [ds [dn [es [_ [Hreach [Hfiles _]]]]]].
    apply kept_files_NoDup. subst files.
    pose proof (reach_unique _ _ _ Hreach Hu) as Hm.
    cbn [unique_names] in Hm. apply andb_true_iff in Hm.
    apply file_names_NoDup, distinct_NoDup. tauto.
Qed.

Lemma collect_paths_NoDup (fs : FS) (root : Path) (l : list Path) :
  NoDup l -> NoDup (map path (collect fs root l)).
Proof.
  induction 1 as [|f l Hnotin _ IH]; cbn [collect map]; [constructor|].
  destruct (process fs f root) as [a|] eqn:E; [|exact IH].
  cbn [map]. constructor; [|exact IH].
  destruct (process_some _ _ _ _ E) as [Hp _]. rewrite Hp.
  intros Hin. apply in_map_iff in Hin. destruct Hin as [b [Hb Hin]].
  apply collect_In in Hin. destruct Hin as [g [Hg Hpg]].
  destruct (process_some _ _ _ _ Hpg) as [Hpb _].
  apply Hnotin. congruence.
Qed.

Section Uniqueness.

Variable as_completed : list Path -> list Path.
Hypothesis as_completed_perm : forall l, Permutation l (as_completed l).

(** X11.  In a tree where no two entries of a directory share a name and
    no name holds a slash, the scan yields every path once and the
    artifacts of a run have pairwise distinct relative paths; the path
    of an artifact is the root followed by the parts of its relative
    path. *)
Theorem relative_paths_unique (fs : FS) (out : Path) (w : bool) (n : node)
  (scanner : ProjectScanner) (summary : ProjectSummary)
  (written : option Report) :
  fs_tree fs = Some n ->
  valid_names n = true ->
  unique_names n = true ->
  new_ProjectScanner fs (fs_root fs) = Ok scanner ->
  main as_completed fs out w = Returned summary written ->
  NoDup (scan scanner fs)
  /\ NoDup (map relative_path (artifacts summary))
  /\ forall a, In a (artifacts summary) ->
       path a = fs_root fs ++ split chr_slash (relative_path a).
Proof.
  intros Htree Hv Hu Hsc Hm.
  pose proof (new_ProjectScanner_root _ _ _ Hsc) as Hroot.
  assert (Hscan : NoDup (scan scanner fs)).
  { apply (scan_NoDup scanner fs n); [|exact Hu].
    rewrite Hroot. apply node_at_root. exact Htree. }
  destruct (main_returned _ _ _ _ _ _ Hm) as [sc [tree [_ [Hsc' [_ [Hs _]]]]]].
  rewrite Hsc in Hsc'. inversion Hsc'; subst sc; clear Hsc'.
  subst summary. unfold aggregate. cbn [artifacts].
  pose proof (run_artifacts as_completed as_completed_perm fs out scanner) as Hperm.
  set (l := match files_to_process scanner fs out with
            | [] => []
            | _ => collect fs (fs_root fs)
                     (as_completed (files_to_process scanner fs out))
            end) in *.
  assert (Hfrom : forall a, In a l ->
            In (path a) (scan scanner fs)
            /\ process fs (path a) (fs_root fs) = Some a).
  { intros a Ha.
    destruct (artifacts_scanned as_completed as_completed_perm fs out scanner a Ha)
      as [H1 [_ H2]]. split; assumption. }
  split; [exact Hscan|]. split.
  - apply (Permutation_NoDup (l := map relative_path
                                     (collect fs (fs_root fs)
                                        (files_to_process scanner fs out)))).
    { apply Permutation_map. symmetry. exact Hperm. }
    apply NoDup_map_NoDup_ForallPairs.
    + intros a b Ha Hb Hkey.
      apply (Permutation_in _ (Permutation_sym Hperm)) in Ha, Hb.
      destruct (Hfrom a Ha) as [Hsa Hpa]. destruct (Hfrom b Hb) as [Hsb Hpb].
      apply (artifact_keys_distinct fs out n scanner a b); assumption.
    + apply (NoDup_map_inv path). apply collect_paths_NoDup.
      unfold files_to_process. apply NoDup_filter. exact Hscan.
  - intros a Ha. destruct (Hfrom a Ha) as [Hsa Hpa].
    destruct (scan_relative _ _ _ Hsa) as [rel [Hrel [Hne _]]].
    rewrite Hroot in Hrel.
    pose proof (scan_slash_free _ _ _ _ _ Hroot Htree Hv Hsa Hrel) as Hfree.
    destruct (process_some _ _ _ _ Hpa) as [_ [_ [_ [[rel' [Hrel' Hkey]] _]]]].
    apply relative_to_ok in Hrel'. rewrite Hrel in Hrel' at 1.
    apply app_inv_head in Hrel'. subst rel'.
    rewrite Hkey, Hrel. f_equal.
    unfold as_posix. destruct rel as [|x rel]; [congruence|].
    symmetry. apply split_join; [discriminate | exact Hfree].
Qed.

End Uniqueness.

Lemma relative_paths_unique_witness :
  NoDup (map relative_path (artifacts (Samples.proj_summary (@rev Path)))).
Proof.
  assert (Hm : main (@rev Path) Samples.proj Samples.proj_out true
               = Returned (Samples.proj_summary (@rev Path))
                   (Some (generate (Samples.proj_summary (@rev Path)))))
    by (vm_compute; reflexivity).
  assert (Hs : new_ProjectScanner Samples.proj (fs_root Samples.proj)
               = Ok Samples.proj_scanner) by (vm_compute; reflexivity).
  assert (Hv : valid_names Samples.proj_tree = true) by (vm_compute; reflexivity).
  assert (Hu : unique_names Samples.proj_tree = true) by (vm_compute; reflexivity).
  exact (proj1 (proj2 (relative_paths_unique (@rev Path) (@Permutation_rev Path)
                         Samples.proj Samples.proj_out true Samples.proj_tree
                         _ _ _ eq_refl Hv Hu Hs Hm))).
Defined.

(* ------------------------------------------------------------------ *)
(** ** Built-in names at any depth *)
(* ------------------------------------------------------------------ *)

Module TailFacts.
Import Regex RegexFacts.

Lemma star_app (r : regex) (s t : str) :
  lang (Star r) s -> lang (Star r) t -> lang (Star r) (s ++ t).
Proof.
  intros Hs Ht. remember (Star r) as r' eqn:Er.
  induction Hs as [|p0 c0 Hp|a b t1 t2 Ha IHa Hb IHb|a b u Ha IHa|a b u Hb IHb
                  |a|a t1 t2 H1 IH1 H2 IH2]; try discriminate.
  - exact Ht.
  - inversion Er; subst a. rewrite <- app_assoc.
    apply L_star_cons; [exact H1 | apply IH2; [reflexivity | exact Ht]].
Qed.

(** After a name that the expression matches, a slash and anything on
    one line may follow. *)
Lemma lang_extend_tail (r : regex) :
  ends_in_dir_tail r ->
  forall s post,
    lang r s ->
    forallb (fun c => negb (N.eqb c chr_nl)) post = true ->
    lang r (s ++ chr_slash :: post).
Proof.
  induction 1 as [|a r Hr IH]; intros s post Hs Hpost.
  - unfold dir_tail, Opt in *.
    destruct (alt_inv _ _ _ Hs) as [He|Hc].
    + apply eps_inv in He. subst s. cbn [app].
      apply L_alt_r.
      apply (@L_cat (Chr chr_slash) (Star Dot) [chr_slash] post).
      * constructor. apply N.eqb_refl.
      * apply lang_star_dot. exact Hpost.
    + destruct (cat_inv _ _ _ Hc) as [s1 [s2 [-> [H1 H2]]]].
      apply L_alt_r. rewrite <- app_assoc. apply L_cat; [exact H1|].
      apply star_app; [exact H2|].
      apply lang_star_dot. cbn [forallb]. rewrite Hpost. reflexivity.
  - destruct (cat_inv _ _ _ Hs) as [s1 [s2 [-> [H1 H2]]]].
    rewrite <- app_assoc. apply L_cat; [exact H1|].
    apply IH; assumption.
Qed.

Lemma lead_inv (s : str) :
  lang lead s -> s = [] \/ exists t, s = t ++ [chr_slash].
Proof.
  intros H. unfold lead, Opt in H.
  destruct (alt_inv _ _ _ H) as [He|Hc].
  - left. apply eps_inv. exact He.
  - right. destruct (cat_inv _ _ _ Hc) as [s1 [s2 [-> [_ H2]]]].
    destruct (sym_inv _ _ H2) as [c [-> Hc']].
    apply N.eqb_eq in Hc'. subst c. exists s1. reflexivity.
Qed.

Lemma dollar_inv (s : str) : lang Dollar s -> s = [] \/ s = [chr_nl].
Proof.
  intros H. unfold Dollar, Opt in H.
  destruct (alt_inv _ _ _ H) as [He|Hc].
  - left. apply eps_inv. exact He.
  - right. destruct (sym_inv _ _ Hc) as [c [-> Hc']].
    apply N.eqb_eq in Hc'. subst c. reflexivity.
Qed.

End TailFacts.

(** Every built-in rule is a plain rule that may match at any depth and
    that lets a slash and more follow the name it matches. *)
Lemma builtin_spec_shape :
  Forall
    (fun p =>
       include p = Some true
       /\ exists rest,
            regex_body p = Some (Regex.Cat lead rest)
            /\ ends_in_dir_tail rest)
    builtin_spec.
Proof.
  let v := eval vm_compute in builtin_spec in change builtin_spec with v.
  repeat (apply Forall_cons;
          [split; [reflexivity|];
           eexists; split;
             [reflexivity | repeat apply edt_cat; apply edt_here]|]).
  apply Forall_nil.
Qed.

Lemma join_app (sep : str) (a b : list str) :
  a <> [] -> b <> [] -> join sep (a ++ b) = join sep a ++ sep ++ join sep b.
Proof.
  induction a as [|x a IH]; [congruence|]. intros _ Hb.
  destruct a as [|y a].
  - destruct b as [|z b]; [congruence|]. reflexivity.
  - change (join sep ((x :: y :: a) ++ b))
      with (x ++ sep ++ join sep ((y :: a) ++ b)).
    rewrite IH by (discriminate || exact Hb).
    change (join sep (x :: y :: a)) with (x ++ sep ++ join sep (y :: a)).
    rewrite <- !app_assoc. reflexivity.
Qed.

Lemma slash_free_no_slash (a b : str) :
  slash_free (a ++ chr_slash :: b) = false.
Proof.
  unfold slash_free. rewrite existsb_app. cbn [existsb].
  rewrite N.eqb_refl, orb_true_r. reflexivity.
Qed.

(** A built-in rule that matches an ordinary name matches it with its
    own expression, without the leading directories. *)
Lemma builtin_rule_on_name (rest : Regex.regex) (seg : str) :
  ordinary_name seg = true ->
  Regex.re_match (Regex.Cat lead rest) seg = true ->
  Regex.lang rest seg.
Proof.
  intros Hord Hm. unfold Regex.re_match in Hm.
  apply RegexFacts.fullmatch_lang in Hm.
  destruct (ordinary_name_parts _ Hord) as [_ [_ [Hsl Hnl]]].
  destruct (RegexFacts.cat_inv _ _ _ Hm) as [s12 [s3 [E [H12 H3]]]].
  destruct (RegexFacts.cat_inv _ _ _ H12) as [s1 [s2 [E2 [H1 H2]]]].
  subst s12.
  destruct (TailFacts.dollar_inv _ H3) as [-> | ->].
  - rewrite app_nil_r in E.
    destruct (TailFacts.lead_inv _ H1) as [->|[t ->]].
    + cbn [app] in E. subst seg. exact H2.
    + subst seg. rewrite <- app_assoc in Hsl. cbn [app] in Hsl.
      rewrite slash_free_no_slash in Hsl. discriminate.
  - subst seg. rewrite forallb_app in Hnl. cbn [forallb] in Hnl.
    rewrite N.eqb_refl in Hnl. cbn [negb andb] in Hnl.
    rewrite andb_false_r in Hnl. discriminate.
Qed.

(** The rules of a scanner are the built-in rules followed by the rules
    of the ignore file. *)
Lemma scanner_rules (fs : FS) (root : Path) (self : ProjectScanner) :
  new_ProjectScanner fs root = Ok self ->
  exists project,
    from_lines (gitignore_lines fs root) = Ok project
    /\ git_ignore_spec self = builtin_spec ++ project.
Proof.
  unfold new_ProjectScanner, _load_gitignore.
  rewrite from_lines_app, builtin_compiles.
  destruct (from_lines (gitignore_lines fs root)) as [project|].
  - intros H. exists project. split; [reflexivity|].
    assert (E : Ok (mkProjectScanner root (builtin_spec ++ project)) = Ok self)
      by exact H.
    assert (E2 : mkProjectScanner root (builtin_spec ++ project) = self)
      by congruence.
    rewrite <- E2. reflexivity.
  - cbn [bind]. discriminate.
Qed.

(** X12.  A name that the built-in rules exclude is excluded wherever it
    occurs in a path of ordinary names: for the entry itself and for
    everything below it, at any depth, unless a negated rule of the
    ignore file matches the path. *)
Theorem builtin_name_ignored_at_any_depth (fs : FS) (root : Path)
  (self : ProjectScanner) (file_path : Path) (dirs : list str) (seg : str)
  (below : list str) :
  new_ProjectScanner fs root = Ok self ->
  relative_to file_path root = Ok (dirs ++ [seg] ++ below) ->
  forallb ordinary_name (dirs ++ [seg] ++ below) = true ->
  match_file builtin_spec seg = true ->
  (forall q, In q (git_ignore_spec self) -> include q = Some false ->
     pattern_matches q (as_posix (dirs ++ [seg] ++ below)) = false) ->
  match_file (git_ignore_spec self) (as_posix (dirs ++ [seg] ++ below)) = true
  /\ should_ignore self file_path = true.
Proof.
  intros Hnew Hrel Hord Hb Hneg.
  set (rel := dirs ++ [seg] ++ below) in *.
  assert (Hne : rel <> []) by (unfold rel; destruct dirs; discriminate).
  pose proof (new_ProjectScanner_root _ _ _ Hnew) as Hroot.
  assert (Hseg : ordinary_name seg = true).
  { unfold rel in Hord. rewrite !forallb_app in Hord. cbn [forallb] in Hord.
    repeat (apply andb_true_iff in Hord; destruct Hord as [? Hord]).
    apply andb_true_iff in H0. tauto. }
  assert (Hdirs : forallb ordinary_name dirs = true).
  { unfold rel in Hord. rewrite forallb_app in Hord.
    apply andb_true_iff in Hord. tauto. }
  assert (Hbelow : forallb ordinary_name below = true).
  { unfold rel in Hord. rewrite !forallb_app in Hord.
    apply andb_true_iff in Hord. destruct Hord as [_ Hord].
    apply andb_true_iff in Hord. tauto. }
  (* a built-in rule matches the bare name *)
  assert (Hp : exists p, In p builtin_spec
                 /\ pattern_matches p seg = true).
  { unfold match_file in Hb.
    rewrite (check_match_file_plain builtin_spec) in Hb by apply builtin_plain.
    assert (Hn : normalize_file seg = seg).
    { apply (normalize_file_ordinary [seg]); [discriminate|].
      cbn [forallb]. rewrite Hseg. reflexivity. }
    rewrite Hn in Hb.
    destruct (existsb (fun p => pattern_matches p seg) builtin_spec) eqn:E;
      [|discriminate].
    apply existsb_exists in E. exact E. }
  destruct Hp as [p [Hin Hm]].
  pose proof builtin_spec_shape as Hshape. rewrite Forall_forall in Hshape.
  destruct (Hshape p Hin) as [Hinc [rest [Hbody Htail]]].
  assert (Hlang : Regex.lang rest seg).
  { apply builtin_rule_on_name; [exact Hseg|].
    unfold pattern_matches in Hm. rewrite Hinc, Hbody in Hm. exact Hm. }
  (* the rule is one of the scanner's rules *)
  destruct (scanner_rules _ _ _ Hnew) as [project [_ Hspec]].
  (* and it matches the whole relative path *)
  assert (Hwhole : pattern_matches p (as_posix rel) = true).
  { unfold pattern_matches. rewrite Hinc, Hbody. unfold Regex.re_match.
    apply RegexFacts.fullmatch_lang.
    assert (Hposix : as_posix rel = join [chr_slash] rel).
    { unfold as_posix. destruct rel; [congruence | reflexivity]. }
    rewrite Hposix.
    rewrite <- (app_nil_r (join [chr_slash] rel)).
    apply Regex.L_cat; [|apply Regex.L_alt_l; constructor].
    assert (Htailed : Regex.lang rest (join [chr_slash] ([seg] ++ below))).
    { destruct below as [|b0 below'].
      - exact Hlang.
      - rewrite join_app by discriminate.
        change (join [chr_slash] [seg] ++ [chr_slash]
                  ++ join [chr_slash] (b0 :: below'))
          with (seg ++ chr_slash :: join [chr_slash] (b0 :: below')).
        apply (TailFacts.lang_extend_tail rest Htail seg _ Hlang).
        apply (join_no_newline (b0 :: below')). exact Hbelow. }
    unfold rel. destruct dirs as [|d dirs'].
    - apply (@Regex.L_cat lead rest [] _); [|exact Htailed].
      apply Regex.L_alt_l. constructor.
    - rewrite join_app by discriminate. rewrite app_assoc.
      apply Regex.L_cat; [|exact Htailed].
      apply Regex.L_alt_r. apply Regex.L_cat.
      + pose proof (join_no_newline _ Hdirs) as Hnl.
        destruct (join_cons [chr_slash] d dirs') as [tail [E _]].
        cbn [forallb] in Hdirs. apply andb_true_iff in Hdirs.
        destruct (ordinary_name_parts _ (proj1 Hdirs)) as [Hd _].
        destruct d as [|c d]; [congruence|].
        rewrite E in *. cbn [app forallb] in *.
        apply andb_true_iff in Hnl. destruct Hnl as [Hc Hrest].
        apply (@Regex.L_cat Regex.Dot (Regex.Star Regex.Dot) [c] (d ++ tail)).
        * constructor. exact Hc.
        * apply RegexFacts.lang_star_dot. exact Hrest.
      + constructor. apply N.eqb_refl. }
  assert (Hverdict : match_file (git_ignore_spec self) (as_posix rel) = true).
  { apply (match_file_true _ _ p).
    - rewrite Hspec. apply in_or_app. left. exact Hin.
    - rewrite (normalize_file_ordinary rel Hne Hord). exact Hwhole.
    - rewrite (normalize_file_ordinary rel Hne Hord). exact Hneg. }
  split; [exact Hverdict|].
  unfold should_ignore. rewrite Hroot, Hrel. fold rel. rewrite Hverdict.
  destruct (mem _ _); reflexivity.
Qed.

Lemma builtin_name_ignored_at_any_depth_witness :
  should_ignore Samples.logs_scanner
    (Samples.logs_root
       ++ [lit "src"; lit "node_modules"; lit "pkg"; lit "index.js"])
  = true.
Proof.
  assert (H1 : new_ProjectScanner Samples.logs Samples.logs_root
               = Ok Samples.logs_scanner) by (vm_compute; reflexivity).
  assert (H2 : relative_to
                 (Samples.logs_root
                    ++ [lit "src"; lit "node_modules"; lit "pkg"; lit "index.js"])
                 Samples.logs_root
               = Ok ([lit "src"] ++ [lit "node_modules"]
                       ++ [lit "pkg"; lit "index.js"])) by reflexivity.
  assert (H3 : forallb ordinary_name
                 ([lit "src"] ++ [lit "node_modules"]
                    ++ [lit "pkg"; lit "index.js"]) = true)
    by (vm_compute; reflexivity).
  assert (H4 : match_file builtin_spec (lit "node_modules") = true)
    by (vm_compute; reflexivity).
  assert (H5 : forall q, In q (git_ignore_spec Samples.logs_scanner) ->
                 include q = Some false ->
                 pattern_matches q
                   (as_posix ([lit "src"] ++ [lit "node_modules"]
                                ++ [lit "pkg"; lit "index.js"])) = false).
  { assert (H : forallb
                  (fun q =>
                     match include q with
                     | Some false =>
                         negb (pattern_matches q
                                 (as_posix ([lit "src"] ++ [lit "node_modules"]
                                              ++ [lit "pkg"; lit "index.js"])))
                     | _ => true
                     end) (git_ignore_spec Samples.logs_scanner) = true)
      by (vm_compute; reflexivity).
    rewrite forallb_forall in H.
    intros q Hq Hi. specialize (H q Hq). rewrite Hi in H.
    apply negb_true_iff in H. exact H. }
  exact (proj2 (builtin_name_ignored_at_any_depth Samples.logs
                  Samples.logs_root Samples.logs_scanner _
                  [lit "src"] (lit "node_modules") [lit "pkg"; lit "index.js"]
                  H1 H2 H3 H4 H5)).
Defined.

(* ------------------------------------------------------------------ *)
(** ** When a file is skipped *)
(* ------------------------------------------------------------------ *)

(** X13.  [process] returns nothing in these cases and in no other:
    [stat] fails, the size is zero, the path is not below the root, or
    reading fails (for a file of at most 1,000,000 bytes also when the
    bytes are not valid UTF-8). *)
Theorem process_none_iff (fs : FS) (p root : Path) :
  process fs p root = None <->
  (exists e, stat_size fs p = Raise e)
  \/ stat_size fs p = Ok 0%Z
  \/ (forall rel, p <> root ++ rel)
  \/ (exists sz e, stat_size fs p = Ok sz /\ (sz <= 1000000)%Z
                   /\ read_text fs p = Raise e)
  \/ (exists sz e, stat_size fs p = Ok sz /\ (1000000 < sz)%Z
                   /\ read_text_replace fs p = Raise e).
Proof.
  unfold process, process_body, MAX_FILE_SIZE_BYTES.
  destruct (stat_size fs p) as [sz|e0] eqn:Est; cbn [bind].
  2:{ split; [intros _; left; eexists; reflexivity | reflexivity]. }
  destruct (Z.eqb sz 0) eqn:Ez.
  { apply Z.eqb_eq in Ez. subst sz.
    split; [intros _; right; left; reflexivity | reflexivity]. }
  apply Z.eqb_neq in Ez.
  destruct (relative_to p root) as [rel|e1] eqn:Erel; cbn [bind].
  2:{ split; [|reflexivity]. intros _. right; right; left.
      intros rel Hp. apply relative_to_ok in Hp. congruence. }
  apply relative_to_ok in Erel.
  destruct (Z.ltb 1000000 sz) eqn:Elt.
  - apply Z.ltb_lt in Elt.
    destruct (read_text_replace fs p) as [text|e2] eqn:Erd.
    + split; [discriminate|].
      intros [[e He]|[H0|[Hout|[[sz' [e [Hs [Hle _]]]]|[sz' [e [_ [_ Hr]]]]]]]].
      * discriminate He.
      * inversion H0; congruence.
      * destruct (Hout rel Erel).
      * inversion Hs; subst sz'. lia.
      * discriminate Hr.
    + split; [|reflexivity]. intros _. right; right; right; right.
      exists sz, e2. split; [reflexivity|]. split; [lia | reflexivity].
  - apply Z.ltb_ge in Elt.
    destruct (read_text fs p) as [text|e2] eqn:Erd.
    + split; [discriminate|].
      intros [[e He]|[H0|[Hout|[[sz' [e [_ [_ Hr]]]]|[sz' [e [Hs [Hgt _]]]]]]]].
      * discriminate He.
      * inversion H0; congruence.
      * destruct (Hout rel Erel).
      * discriminate Hr.
      * inversion Hs; subst sz'. lia.
    + split.
      * intros _. right; right; right; left.
        exists sz, e2. split; [reflexivity|]. split; [lia | reflexivity].
      * intros _. destruct e2; reflexivity.
Qed.

(* ------------------------------------------------------------------ *)
(** ** The line count and the lines *)
(* ------------------------------------------------------------------ *)

Lemma count_cons (c x : char) (s : str) :
  count c (x :: s) = ((if N.eqb c x then 1 else 0) + count c s)%Z.
Proof.
  unfold count. cbn [filter]. destruct (N.eqb c x); cbn [List.length]; lia.
Qed.

Lemma readlines_length (s : str) :
  Z.of_nat (List.length (readlines s))
  = (count chr_nl s
     + match s with
       | [] => 0
       | _ => if N.eqb (last s 0%N) chr_nl then 0 else 1
       end)%Z.
Proof.
  induction s as [|c s IH]; [reflexivity|].
  rewrite count_cons. cbn [readlines].
  destruct (N.eqb c chr_nl) eqn:Ec.
  - apply N.eqb_eq in Ec. subst c. rewrite N.eqb_refl.
    cbn [List.length]. rewrite Nat2Z.inj_succ, IH.
    destruct s as [|d s]; [reflexivity|].
    change (last (chr_nl :: d :: s) 0%N) with (last (d :: s) 0%N). lia.
  - rewrite N.eqb_sym, Ec.
    destruct s as [|d s].
    + cbn [readlines List.length last]. rewrite Ec. reflexivity.
    + change (last (c :: d :: s) 0%N) with (last (d :: s) 0%N).
      destruct (readlines (d :: s)) as [|l ls] eqn:Er.
      * exfalso. cbn [readlines] in Er.
        destruct (N.eqb d chr_nl); [discriminate|].
        destruct (readlines s); discriminate.
      * cbn [List.length] in *. lia.
Qed.

(** X14.  The line count of an artifact with content is the number of
    lines of the content when the content does not end with a newline,
    and one more than that when it does. *)
Theorem line_count_and_lines (fs : FS) (p root : Path) (a : FileArtifact) :
  process fs p root = Some a ->
  content a <> [] ->
  lines a
  = (Z.of_nat (List.length (readlines (content a)))
     + if N.eqb (last (content a) 0%N) chr_nl then 1 else 0)%Z.
Proof.
  intros Hp Hne.
  destruct (process_some _ _ _ _ Hp) as [_ [_ [_ [_ [Hl _]]]]].
  rewrite Hl, readlines_length.
  destruct (content a) as [|c s]; [congruence|].
  destruct (N.eqb (last (c :: s) 0%N) chr_nl); lia.
Qed.

Lemma line_count_and_lines_witness :
  exists a,
    process Samples.logs (Samples.logs_root ++ [lit ".gitignore"])
      Samples.logs_root = Some a
    /\ lines a
       = (Z.of_nat (List.length (readlines (content a)))
          + if N.eqb (last (content a) 0%N) chr_nl then 1 else 0)%Z.
Proof.
  eexists. split; [vm_compute; reflexivity|].
  apply (line_count_and_lines Samples.logs
           (Samples.logs_root ++ [lit ".gitignore"]) Samples.logs_root).
  - vm_compute; reflexivity.
  - discriminate.
Defined.

(* ------------------------------------------------------------------ *)
(** ** The directories of the tree *)
(* ------------------------------------------------------------------ *)

Lemma ancestor_dirs_split (rel d : Path) :
  In d (ancestor_dirs rel) ->
  exists rest, rel = d ++ rest /\ d <> [] /\ rest <> [].
Proof.
  unfold ancestor_dirs. intros H. apply in_map_iff in H.
  destruct H as [i [Hd Hi]]. apply in_seq in Hi.
  exists (skipn (S i) rel). subst d. split; [|split].
  - symmetry. apply firstn_skipn.
  - destruct rel as [|x rel]; [cbn in Hi; lia | discriminate].
  - intros E. apply (f_equal (@List.length str)) in E.
    rewrite length_skipn in E. cbn [List.length] in E. lia.
Qed.

(** The lines the loop over the directories above a file adds are lines
    of those directories. *)
Lemma tree_dirs_cover (parts : Path) (depth : nat) :
  forall start st,
    (start + depth <= List.length parts - 1)%nat ->
    exists extra,
      snd (tree_dirs parts start depth st) = snd st ++ extra
      /\ forall l, In l extra ->
           exists d,
             In d (map (fun i => firstn (S i) parts) (seq start depth))
             /\ l = dir_line d.
Proof.
  induction depth as [|depth IH]; intros start st Hb; cbn [tree_dirs seq map].
  - exists []. rewrite app_nil_r. split; [reflexivity | intros l []].
  - set (parent := firstn (S start) parts).
    assert (Hlen : List.length parent = S start).
    { unfold parent. rewrite length_firstn. lia. }
    destruct (existsb (path_eqb parent) (fst st)).
    + destruct (IH (S start) st) as [extra [Hs Hc]]; [lia|].
      exists extra. split; [exact Hs|].
      intros l Hl. destruct (Hc l Hl) as [d [Hd ->]].
      exists d. split; [right; exact Hd | reflexivity].
    + set (line := repeat_str bar_indent start ++ branch ++ last parent []
                     ++ [chr_slash]).
      assert (Hline : line = dir_line parent).
      { unfold line, dir_line. rewrite Hlen.
        replace (S start - 1)%nat with start by lia. reflexivity. }
      destruct (IH (S start) (parent :: fst st, snd st ++ [line]))
        as [extra [Hs Hc]]; [lia|].
      cbn [fst snd] in *.
      exists (line :: extra).
      split; [rewrite Hs, <- app_assoc; reflexivity|].
      intros l [<-|Hl].
      * exists parent. split; [left; reflexivity | exact Hline].
      * destruct (Hc l Hl) as [d [Hd ->]].
        exists d. split; [right; exact Hd | reflexivity].
Qed.

(** The lines the loop over the files adds are lines of those files and
    of the directories above them. *)
Lemma tree_fold_cover (rels : list Path) :
  forall st,
    exists extra,
      snd (fold_left tree_file rels st) = snd st ++ extra
      /\ forall l, In l extra ->
           exists rel,
             In rel rels
             /\ (l = file_line rel
                 \/ exists d, In d (ancestor_dirs rel) /\ l = dir_line d).
Proof.
  induction rels as [|rel rels IH]; intros st; cbn [fold_left].
  - exists []. rewrite app_nil_r. split; [reflexivity | intros l []].
  - destruct (tree_dirs_cover rel (List.length rel - 1) 0 st)
      as [e1 [Hs1 Hc1]]; [lia|].
    destruct (IH (tree_file st rel)) as [e2 [Hs2 Hc2]].
    assert (Esnd : snd (tree_file st rel)
                   = snd (tree_dirs rel 0 (List.length rel - 1) st)
                       ++ [file_line rel])
      by reflexivity.
    exists (e1 ++ [file_line rel] ++ e2).
    split; [rewrite Hs2, Esnd, Hs1, <- !app_assoc; reflexivity|].
    intros l Hl. apply in_app_or in Hl. destruct Hl as [Hl|[<-|Hl]].
    + destruct (Hc1 l Hl) as [d [Hd ->]].
      exists rel. split; [left; reflexivity|].
      right. exists d. split; [exact Hd | reflexivity].
    + exists rel. split; [left; reflexivity | left; reflexivity].
    + destruct (Hc2 l Hl) as [r [Hr Hcase]].
      exists r. split; [right; exact Hr | exact Hcase].
Qed.

(** X15.  The tree shows no ignored directory: after the line of the
    root, every line of the tree is the line of a scanned file or the
    line of a directory that lies above a scanned file and that
    [should_ignore] does not report as ignored. *)
Theorem tree_shows_no_ignored_directory (self : ProjectScanner) (fs : FS) :
  scan self fs <> [] ->
  exists more,
    generate_tree self fs = Ok (join [chr_nl] (root_line self :: more))
    /\ forall l, In l more ->
         (exists rel,
            In (root_dir self ++ rel) (scan self fs) /\ l = file_line rel)
         \/ (exists d rest,
               d <> [] /\ rest <> []
               /\ In (root_dir self ++ d ++ rest) (scan self fs)
               /\ should_ignore self (root_dir self ++ d) = false
               /\ l = dir_line d).
Proof.
  intros Hne.
  pose proof (sorted_perm path_str (scan self fs)) as Hperm.
  fold (tree_paths self fs) in Hperm.
  unfold generate_tree.
  destruct (tree_paths self fs) as [|p0 paths] eqn:Etp.
  { apply Permutation_nil in Hperm. contradiction. }
  destruct (all_relative_to_ok (p0 :: paths) (root_dir self)) as [rels Hrels].
  { intros q Hq. apply (Permutation_in _ Hperm) in Hq.
    destruct (scan_relative _ _ _ Hq) as [rel [_ [_ Hrel]]].
    exists rel; exact Hrel. }
  rewrite Hrels. cbn [bind].
  pose proof (all_relative_to_spec _ _ _ Hrels) as Hmap.
  assert (Hin : forall rel,
            In rel rels -> In (root_dir self ++ rel) (scan self fs)).
  { intros rel H. apply (Permutation_in _ Hperm). rewrite Hmap.
    apply in_map. exact H. }
  destruct (tree_fold_cover rels ([], [root_line self])) as [extra [Hs Hc]].
  cbn [fst snd app] in Hs. unfold root_line in Hs.
  exists extra. split.
  - unfold root_line. rewrite <- Hs. reflexivity.
  - intros l Hl. destruct (Hc l Hl) as [rel [Hrel [->|[d [Hd ->]]]]].
    + left. exists rel. split; [apply Hin; exact Hrel | reflexivity].
    + right.
      destruct (ancestor_dirs_split _ _ Hd) as [rest [Erel [Hd0 Hrest]]].
      exists d, rest.
      split; [exact Hd0|]. split; [exact Hrest|].
      assert (Hscan : In (root_dir self ++ d ++ rest) (scan self fs))
        by (rewrite <- Erel; apply Hin; exact Hrel).
      split; [exact Hscan|]. split; [|reflexivity].
      apply (scan_never_enters_ignored self fs (root_dir self ++ d ++ rest)
               d rest); [exact Hscan | reflexivity | exact Hd0 | exact Hrest].
Qed.

Lemma tree_shows_no_ignored_directory_witness :
  exists more,
    generate_tree Samples.proj_scanner Samples.proj
    = Ok (join [chr_nl] (root_line Samples.proj_scanner :: more))
    /\ forall l, In l more ->
         (exists rel,
            In (root_dir Samples.proj_scanner ++ rel)
              (scan Samples.proj_scanner Samples.proj)
            /\ l = file_line rel)
         \/ (exists d rest,
               d <> [] /\ rest <> []
               /\ In (root_dir Samples.proj_scanner ++ d ++ rest)
                    (scan Samples.proj_scanner Samples.proj)
               /\ should_ignore Samples.proj_scanner
                    (root_dir Samples.proj_scanner ++ d) = false
               /\ l = dir_line d).
Proof.
  apply (tree_shows_no_ignored_directory Samples.proj_scanner Samples.proj).
  vm_compute. discriminate.
Defined.

(* ------------------------------------------------------------------ *)
(** ** The order of the listings *)
(* ------------------------------------------------------------------ *)

Lemma same_tree_induction (P : node -> node -> Prop) :
  (forall f st d, P (File f st d) (File f st d)) ->
  (forall d, P (Dir d None) (Dir d None)) ->
  (forall d es mid es',
     Forall2 same_tree es mid -> Forall2 P es mid -> Permutation mid es' ->
     P (Dir d (Some es)) (Dir d (Some es'))) ->
  forall n n', same_tree n n' -> P n n'.
Proof.
  intros HF HU HL. fix IH 3. intros n n' H.
  destruct H as [f st d | d | d es mid es' HF2 HP].
  - apply HF.
  - apply HU.
  - apply (HL d es mid es' HF2); [|exact HP].
    clear HP. induction HF2 as [|e e' es mid He _ IHF].
    + apply Forall2_nil.
    + apply Forall2_cons; [apply IH; exact He | exact IHF].
Qed.

Lemma flat_map_flat_map {A B C} (f : B -> list C) (g : A -> list B)
  (l : list A) :
  flat_map f (flat_map g l) = flat_map (fun x => flat_map f (g x)) l.
Proof.
  induction l as [|x l IH]; cbn [flat_map]; [reflexivity|].
  rewrite flat_map_app, IH. reflexivity.
Qed.

Lemma flat_map_ext_in {A B} (f g : A -> list B) (l : list A) :
  (forall x, In x l -> f x = g x) -> flat_map f l = flat_map g l.
Proof.
  induction l as [|x l IH]; intros H; cbn [flat_map]; [reflexivity|].
  rewrite (H x (or_introl eq_refl)), IH; [reflexivity|].
  intros y Hy. apply H. right; exact Hy.
Qed.

(** The files of the steps of the walk are the recursive scan. *)
Lemma scan_steps (ignore : Path -> bool) (n : node) :
  forall top,
    flat_map
      (fun step =>
         let '(root, _, files) := step in
         flat_map
           (fun file =>
              let p := div root file in
              if ignore p then [] else [p])
           files)
      (os_walk (fun d => negb (ignore d)) top n)
    = scan_from ignore top n.
Proof.
  induction n as [f st d | d | d entries IH] using node_induction;
    intros top; cbn [os_walk scan_from flat_map]; try reflexivity.
  f_equal.
  - rewrite flat_map_flat_map. apply flat_map_ext_in.
    intros e _. destruct e as [f st dt | d' l']; cbn [flat_map];
      [rewrite app_nil_r|]; reflexivity.
  - rewrite flat_map_flat_map. apply flat_map_ext_in.
    intros e He. destruct e as [f st dt | d' l']; [reflexivity|].
    destruct (ignore (div top d')); cbn [negb]; [reflexivity|].
    rewrite Forall_forall in IH. apply (IH _ He).
Qed.

Lemma scan_as_recursion (self : ProjectScanner) (fs : FS) :
  scan self fs
  = match node_at fs (root_dir self) with
    | Some n => scan_from (should_ignore self) (root_dir self) n
    | None => []
    end.
Proof.
  unfold scan. destruct (node_at fs (root_dir self)); [|reflexivity].
  apply scan_steps.
Qed.

Lemma same_tree_name (e e' : node) : same_tree e e' -> node_name e = node_name e'.
Proof. intros H; destruct H; reflexivity. Qed.

(** The recursive scan of two trees that differ in the order of their
    listings holds the same paths. *)
Lemma scan_from_same_tree (ignore : Path -> bool) (n n' : node) :
  same_tree n n' ->
  forall top, Permutation (scan_from ignore top n) (scan_from ignore top n').
Proof.
  induction 1 as [f st d | d | d es mid es' HF2 IH HP]
    using same_tree_induction; intros top; try reflexivity.
  cbn [scan_from].
  apply Permutation_app.
  - transitivity
      (flat_map
         (fun e =>
            match e with
            | File f _ _ => if ignore (div top f) then [] else [div top f]
            | _ => []
            end) mid).
    + clear HP IH. induction HF2 as [|e e' es mid He _ IHF];
        cbn [flat_map]; [reflexivity|].
      apply Permutation_app; [|exact IHF].
      destruct He; reflexivity.
    + apply Permutation_flat_map. exact HP.
  - transitivity
      (flat_map
         (fun e =>
            match e with
            | Dir d0 _ =>
                if ignore (div top d0) then []
                else scan_from ignore (div top d0) e
            | _ => []
            end) mid).
    + clear HP. induction IH as [|e e' es mid He _ IHF];
        cbn [flat_map]; [reflexivity|].
      inversion HF2 as [|? ? ? ? Hsame HF2']; subst.
      apply Permutation_app; [|apply IHF; exact HF2'].
      destruct Hsame as [f st dt | d0 | d0 es0 mid0 es0' H0 H1];
        try reflexivity;
        (destruct (ignore (div top d0)); [reflexivity | apply He]).
    + apply Permutation_flat_map. exact HP.
Qed.

Lemma path_str_inj_below (root rx ry : Path) :
  rx <> [] -> ry <> [] ->
  forallb slash_free rx = true -> forallb slash_free ry = true ->
  path_str (root ++ rx) = path_str (root ++ ry) -> rx = ry.
Proof.
  intros Nx Ny Vx Vy H. unfold path_str in H.
  assert (E : join [chr_slash] rx = join [chr_slash] ry).
  { destruct root as [|r0 root].
    - cbn [app] in H. congruence.
    - rewrite !join_app in H by (discriminate || assumption).
      inversion H as [H']. apply app_inv_head in H'.
      cbn [app] in H'. congruence. }
  rewrite <- (split_join rx Nx Vx), <- (split_join ry Ny Vy), E. reflexivity.
Qed.

(** The scans of two trees that differ in the order of their listings. *)
Lemma listing_order_scan (self : ProjectScanner) (root : Path) (n n' : node) :
  same_tree n n' ->
  valid_names n = true ->
  root_dir self = root ->
  Permutation (scan self (mkFS root (Some n))) (scan self (mkFS root (Some n')))
  /\ tree_paths self (mkFS root (Some n)) = tree_paths self (mkFS root (Some n'))
  /\ generate_tree self (mkFS root (Some n))
     = generate_tree self (mkFS root (Some n')).
Proof.
  intros Hsame Hv Hroot.
  assert (Hperm : Permutation (scan self (mkFS root (Some n)))
                    (scan self (mkFS root (Some n')))).
  { rewrite !scan_as_recursion. rewrite Hroot.
    pose proof (node_at_root (mkFS root (Some n)) n eq_refl) as H1.
    pose proof (node_at_root (mkFS root (Some n')) n' eq_refl) as H2.
    cbn [fs_root] in H1, H2. rewrite H1, H2.
    apply scan_from_same_tree. exact Hsame. }
  assert (Hpaths : tree_paths self (mkFS root (Some n))
                   = tree_paths self (mkFS root (Some n'))).
  { unfold tree_paths. apply sorted_of_permutation; [|exact Hperm].
    intros x y Hx Hy Hkey.
    destruct (scan_relative _ _ _ Hx) as [rx [Ex [Nx _]]].
    destruct (scan_relative _ _ _ Hy) as [ry [Ey [Ny _]]].
    rewrite Hroot in Ex, Ey.
    pose proof (scan_slash_free self (mkFS root (Some n)) n x rx
                  Hroot eq_refl Hv Hx Ex) as Vx.
    pose proof (scan_slash_free self (mkFS root (Some n)) n y ry
                  Hroot eq_refl Hv Hy Ey) as Vy.
    subst x y. f_equal.
    apply (path_str_inj_below root); assumption. }
  split; [exact Hperm|]. split; [exact Hpaths|].
  unfold generate_tree. rewrite Hpaths. reflexivity.
Qed.

(** X18.  The order in which the directories enumerate their entries
    does not show in the tree: for two trees that differ only in that
    order, and whose names hold no slash, the scans hold the same paths
    and the sorted path list and the rendered tree are the same. *)
Theorem tree_independent_of_listing_order (self : ProjectScanner)
  (root : Path) (n n' : node) :
  same_tree n n' ->
  valid_names n = true ->
  root_dir self = root ->
  Permutation (scan self (mkFS root (Some n))) (scan self (mkFS root (Some n')))
  /\ tree_paths self (mkFS root (Some n)) = tree_paths self (mkFS root (Some n'))
  /\ generate_tree self (mkFS root (Some n))
     = generate_tree self (mkFS root (Some n')).
Proof. apply listing_order_scan. Qed.

Lemma same_tree_mirror (n : node) : same_tree n (mirror n).
Proof.
  induction n as [f st d | d | d entries IH] using node_induction;
    cbn [mirror]; try constructor.
  apply (same_listed d entries (map mirror entries)).
  - induction IH as [|e es He _ IHF]; cbn [map]; constructor; assumption.
  - apply Permutation_rev.
Qed.

Lemma tree_independent_of_listing_order_witness :
  generate_tree Samples.proj_scanner Samples.proj
  = generate_tree Samples.proj_scanner MoreSamples.proj_mirrored.
Proof.
  assert (Hv : valid_names Samples.proj_tree = true) by (vm_compute; reflexivity).
  exact (proj2 (proj2 (tree_independent_of_listing_order Samples.proj_scanner
                         Samples.proj_root Samples.proj_tree
                         (mirror Samples.proj_tree)
                         (same_tree_mirror Samples.proj_tree) Hv eq_refl))).
Defined.

(* ------------------------------------------------------------------ *)
(** ** A run does not depend on the order of the listings *)
(* ------------------------------------------------------------------ *)

Lemma find_entry_In (c : str) (l : list node) (e : node) :
  find_entry c l = Some e -> In e l /\ node_name e = c.
Proof.
  induction l as [|x l IH]; cbn [find_entry]; [discriminate|].
  destruct (str_eqb (node_name x) c) eqn:E.
  - intros H; inversion H; subst. apply str_eqb_eq in E.
    split; [left; reflexivity | exact E].
  - intros H. destruct (IH H) as [Hin Hc].
    split; [right; exact Hin | exact Hc].
Qed.

Lemma find_entry_none (c : str) (l : list node) :
  find_entry c l = None <-> forall e, In e l -> node_name e <> c.
Proof.
  induction l as [|x l IH]; cbn [find_entry].
  - split; [intros _ e [] | reflexivity].
  - destruct (str_eqb (node_name x) c) eqn:E.
    + apply str_eqb_eq in E. split; [discriminate|].
      intros H. destruct (H x (or_introl eq_refl) E).
    + rewrite IH. split.
      * intros H e [<-|He]; [|apply H; exact He].
        intros Heq. rewrite Heq, str_eqb_refl in E. discriminate.
      * intros H e He. apply H. right; exact He.
Qed.

Lemma find_entry_unique (c : str) (l : list node) (e : node) :
  NoDup (map node_name l) -> In e l -> node_name e = c ->
  find_entry c l = Some e.
Proof.
  induction l as [|x l IH]; intros Hn Hin Hc; [destruct Hin|].
  cbn [map] in Hn. inversion Hn as [|? ? Hnot Hn']; subst.
  cbn [find_entry]. destruct Hin as [->|Hin].
  - rewrite str_eqb_refl. reflexivity.
  - destruct (str_eqb (node_name x) (node_name e)) eqn:E.
    + apply str_eqb_eq in E. exfalso. apply Hnot. rewrite E.
      apply in_map. exact Hin.
    + apply IH; [exact Hn' | exact Hin | reflexivity].
Qed.

Lemma find_entry_perm (c : str) (l l' : list node) :
  NoDup (map node_name l) -> Permutation l l' ->
  find_entry c l = find_entry c l'.
Proof.
  intros Hn Hp.
  assert (Hn' : NoDup (map node_name l'))
    by (apply (Permutation_NoDup (Permutation_map node_name Hp)); exact Hn).
  destruct (find_entry c l) as [e|] eqn:E.
  - destruct (find_entry_In _ _ _ E) as [Hin Hc].
    symmetry. apply find_entry_unique; [exact Hn'| |exact Hc].
    apply (Permutation_in _ Hp). exact Hin.
  - symmetry. apply find_entry_none. intros e He.
    apply (proj1 (find_entry_none c l) E).
    apply (Permutation_in _ (Permutation_sym Hp)). exact He.
Qed.

Lemma same_names (es mid : list node) :
  Forall2 same_tree es mid -> map node_name es = map node_name mid.
Proof.
  induction 1 as [|e e' es mid He _ IH]; cbn [map]; [reflexivity|].
  rewrite (same_tree_name _ _ He), IH. reflexivity.
Qed.

Lemma find_entry_same (c : str) (es mid : list node) :
  Forall2 same_tree es mid ->
  match find_entry c es, find_entry c mid with
  | Some e, Some e' => same_tree e e'
  | None, None => True
  | _, _ => False
  end.
Proof.
  induction 1 as [|e e' es mid He _ IH]; cbn [find_entry]; [exact I|].
  rewrite <- (same_tree_name _ _ He).
  destruct (str_eqb (node_name e) c); [exact He | exact IH].
Qed.

(** Going down the same names in two trees that differ in the order of
    their listings leads to such trees again, or nowhere in both. *)
Lemma lookup_same_tree (rel : Path) :
  forall n n', same_tree n n' -> unique_names n = true ->
    match lookup n rel, lookup n' rel with
    | Some m, Some m' => same_tree m m'
    | None, None => True
    | _, _ => False
    end.
Proof.
  induction rel as [|c rel IH]; intros n n' Hs Hu; cbn [lookup]; [exact Hs|].
  destruct Hs as [f st d | d | d es mid es' HF2 HP]; try exact I.
  cbn [unique_names] in Hu. apply andb_true_iff in Hu. destruct Hu as [Hd Hall].
  apply distinct_NoDup in Hd. rewrite forallb_forall in Hall.
  assert (Hmid : NoDup (map node_name mid))
    by (rewrite <- (same_names _ _ HF2); exact Hd).
  rewrite <- (find_entry_perm c mid es' Hmid HP).
  pose proof (find_entry_same c es mid HF2) as Hrel.
  destruct (find_entry c es) as [e|] eqn:Ee;
    destruct (find_entry c mid) as [e'|]; try contradiction; [|exact I].
  apply IH; [exact Hrel|].
  apply Hall. apply (find_entry_In _ _ _ Ee).
Qed.

Section SameFiles.

Variables (root : Path) (n n' : node).
Hypothesis same : same_tree n n'.
Hypothesis unique : unique_names n = true.

Let fs := mkFS root (Some n).
Let fs' := mkFS root (Some n').

Lemma node_at_same (p : Path) :
  match node_at fs p, node_at fs' p with
  | Some m, Some m' => same_tree m m'
  | None, None => True
  | _, _ => False
  end.
Proof.
  unfold node_at, fs, fs'. cbn [fs_root fs_tree].
  destruct (relative_to p root) as [rel|]; [|exact I].
  apply lookup_same_tree; assumption.
Qed.

Lemma reads_same (p : Path) :
  exists_ fs p = exists_ fs' p
  /\ stat_size fs p = stat_size fs' p
  /\ read_text fs p = read_text fs' p
  /\ read_text_replace fs p = read_text_replace fs' p.
Proof.
  unfold exists_, stat_size, read_text, read_text_replace.
  pose proof (node_at_same p) as H.
  destruct (node_at fs p) as [m|]; destruct (node_at fs' p) as [m'|];
    try contradiction; [|repeat split].
  destruct H; repeat split.
Qed.

Lemma process_same (p r : Path) : process fs p r = process fs' p r.
Proof.
  unfold process, process_body.
  destruct (reads_same p) as [_ [-> [-> ->]]]. reflexivity.
Qed.

Lemma collect_same (r : Path) (l : list Path) :
  collect fs r l = collect fs' r l.
Proof.
  induction l as [|p l IH]; cbn [collect]; [reflexivity|].
  rewrite process_same, IH. reflexivity.
Qed.

Lemma scanner_same (r : Path) : new_ProjectScanner fs r = new_ProjectScanner fs' r.
Proof.
  unfold new_ProjectScanner, _load_gitignore, gitignore_lines.
  destruct (reads_same (div r (lit ".gitignore"))) as [-> [_ [-> _]]].
  reflexivity.
Qed.

End SameFiles.

Section TwoListings.

Variables as_completed1 as_completed2 : list Path -> list Path.
Hypothesis perm1 : forall l, Permutation l (as_completed1 l).
Hypothesis perm2 : forall l, Permutation l (as_completed2 l).

(** X19.  Two runs over trees that differ only in the order in which the
    directories enumerate their entries, with names that are unique in
    each directory and hold no slash, give the same tree string, the
    same totals, the same sorted artifact list and the same report,
    whatever the order of completion in each run. *)
Theorem run_independent_of_listing_order (root : Path) (n n' : node)
  (out : Path) (w : bool) (s1 s2 : ProjectSummary) (r1 r2 : option Report) :
  same_tree n n' ->
  valid_names n = true ->
  unique_names n = true ->
  main as_completed1 (mkFS root (Some n)) out w = Returned s1 r1 ->
  main as_completed2 (mkFS root (Some n')) out w = Returned s2 r2 ->
  file_tree s1 = file_tree s2
  /\ Permutation (artifacts s1) (artifacts s2)
  /\ sorted_artifacts s1 = sorted_artifacts s2
  /\ total_files s1 = total_files s2
  /\ total_lines s1 = total_lines s2
  /\ total_tokens s1 = total_tokens s2
  /\ r1 = r2.
Proof.
  intros Hsame Hv Hu Hm1 Hm2.
  destruct (main_returned _ _ _ _ _ _ Hm1) as [sc [t1 [_ [Hsc [Ht1 [Hs1 Hr1]]]]]].
  destruct (main_returned _ _ _ _ _ _ Hm2) as [sc' [t2 [_ [Hsc' [Ht2 [Hs2 Hr2]]]]]].
  cbn [fs_root] in *.
  rewrite (scanner_same root n n' Hsame Hu root) in Hsc.
  rewrite Hsc in Hsc'. inversion Hsc'; subst sc'; clear Hsc'.
  pose proof (new_ProjectScanner_root _ _ _ Hsc) as Hroot.
  destruct (listing_order_scan sc root n n' Hsame Hv Hroot)
    as [Hscan [_ Htree]].
  rewrite Htree, Ht2 in Ht1. inversion Ht1; subst t2; clear Ht1.
  set (fs := mkFS root (Some n)) in *.
  set (fs' := mkFS root (Some n')) in *.
  set (l1 := match files_to_process sc fs out with
             | [] => []
             | _ => collect fs root (as_completed1 (files_to_process sc fs out))
             end) in *.
  set (l2 := match files_to_process sc fs' out with
             | [] => []
             | _ => collect fs' root (as_completed2 (files_to_process sc fs' out))
             end) in *.
  assert (Hfiles : Permutation (files_to_process sc fs out)
                     (files_to_process sc fs' out))
    by (unfold files_to_process; apply Permutation_filter; exact Hscan).
  assert (Hperm : Permutation l1 l2).
  { transitivity (collect fs root (files_to_process sc fs out)).
    - apply (run_artifacts as_completed1 perm1 fs out sc).
    - rewrite (collect_same root n n' Hsame Hu root).
      transitivity (collect fs' root (files_to_process sc fs' out)).
      + apply collect_perm. exact Hfiles.
      + symmetry. apply (run_artifacts as_completed2 perm2 fs' out sc). }
  assert (Hinj : forall a b, In a l1 -> In b l1 ->
                   relative_path a = relative_path b -> a = b).
  { intros a b Ha Hb.
    destruct (artifacts_scanned as_completed1 perm1 fs out sc a Ha) as [Hsa [_ Hpa]].
    destruct (artifacts_scanned as_completed1 perm1 fs out sc b Hb) as [Hsb [_ Hpb]].
    apply (artifact_keys_distinct fs out n sc a b); try assumption. reflexivity. }
  assert (Hsorted : sorted relative_path l1 = sorted relative_path l2)
    by (apply sorted_of_permutation; assumption).
  assert (Hlen : len l1 = len l2) by (apply len_perm; exact Hperm).
  assert (Hlines : sum (map lines l1) = sum (map lines l2))
    by (apply sum_perm, Permutation_map; exact Hperm).
  assert (Htokens : sum (map token_estimate l1) = sum (map token_estimate l2))
    by (apply sum_perm, Permutation_map; exact Hperm).
  subst s1 s2. unfold sorted_artifacts, aggregate in *.
  cbn [artifacts total_files total_lines total_tokens file_tree] in *.
  repeat (split; [first [reflexivity | assumption]|]).
  subst r1 r2. destruct w; [|reflexivity].
  unfold generate, sorted_artifacts.
  cbn [artifacts total_files total_tokens file_tree].
  rewrite Hsorted, Hlen, Htokens. reflexivity.
Qed.

End TwoListings.

Lemma run_independent_of_listing_order_witness :
  sorted_artifacts (Samples.proj_summary (fun l => l))
  = sorted_artifacts (MoreSamples.mirrored_summary (@rev Path)).
Proof.
  assert (Hv : valid_names Samples.proj_tree = true) by (vm_compute; reflexivity).
  assert (Hu : unique_names Samples.proj_tree = true) by (vm_compute; reflexivity).
  assert (H1 : main (fun l => l) (mkFS Samples.proj_root (Some Samples.proj_tree))
                 Samples.proj_out true
               = Returned (Samples.proj_summary (fun l => l))
                   (Some (generate (Samples.proj_summary (fun l => l)))))
    by (vm_compute; reflexivity).
  assert (H2 : main (@rev Path)
                 (mkFS Samples.proj_root (Some (mirror Samples.proj_tree)))
                 Samples.proj_out true
               = Returned (MoreSamples.mirrored_summary (@rev Path))
                   (Some (generate (MoreSamples.mirrored_summary (@rev Path)))))
    by (vm_compute; reflexivity).
  exact (proj1 (proj2 (proj2
           (run_independent_of_listing_order (fun l => l) (@rev Path)
              (fun l => Permutation_refl l) (@Permutation_rev Path)
              Samples.proj_root Samples.proj_tree (mirror Samples.proj_tree)
              Samples.proj_out true
              (Samples.proj_summary (fun l => l))
              (MoreSamples.mirrored_summary (@rev Path))
              (Some (generate (Samples.proj_summary (fun l => l))))
              (Some (generate (MoreSamples.mirrored_summary (@rev Path))))
              (same_tree_mirror Samples.proj_tree) Hv Hu H1 H2)))).
Defined.
